(** * md_lint: the single-pass Markdown scanner of [md_lint.py]

    A shallow embedding of [check_file] and of the patterns it uses, of the
    discovery of the documents ([is_markdown_file], [iter_md_files],
    [get_md_files]), of the probe of the links ([check_http_links]) and of
    the command ([main]), followed by the properties of the line-by-line
    scan and of what stands around it.

    Python strings are sequences of Unicode code points: a character is a
    code point in [N] and a [str] is a list of them.  The character classes
    are those of CPython 3.11 (Unicode 14). *)

From Stdlib Require Import String Ascii DecimalString NArith ZArith List Bool Lia.
From Stdlib Require Import Sorted.
Import ListNotations.

Local Open Scope nat_scope.
Set Warnings "-comment-terminator-in-string".
Set Warnings "-register-all".

(** ** Characters and strings *)

Definition char := N.
Definition str := list char.

Definition LF : char := 10%N.
Definition TAB : char := 9%N.
Definition CR : char := 13%N.
Definition SPACE : char := 32%N.
Definition BANG : char := 33%N.
Definition HASH : char := 35%N.
Definition LPAREN : char := 40%N.
Definition RPAREN : char := 41%N.
Definition STAR : char := 42%N.
Definition PLUS : char := 43%N.
Definition MINUS : char := 45%N.
Definition DOT : char := 46%N.
Definition SLASH : char := 47%N.
Definition COLON : char := 58%N.
Definition SEMI : char := 59%N.
Definition QUESTION : char := 63%N.
Definition AT : char := 64%N.
Definition LBRACKET : char := 91%N.
Definition BACKSLASH : char := 92%N.
Definition RBRACKET : char := 93%N.
Definition BACKTICK : char := 96%N.
Definition LOWER_T : char := 116%N.
Definition PIPE : char := 124%N.
Definition TILDE : char := 126%N.

Definition ischr (c d : char) : bool := N.eqb d c.
Definition notchr (c d : char) : bool := negb (N.eqb d c).

(** A source literal: the code points of a UTF-8 encoded string. *)
Fixpoint utf8_decode (bs : list N) : str :=
  match bs with
  | [] => []
  | b :: r =>
      if (b <? 192)%N then b :: utf8_decode r
      else if (b <? 224)%N then
        match r with
        | b1 :: r1 => ((b - 192) * 64 + (b1 - 128))%N :: utf8_decode r1
        | [] => []
        end
      else if (b <? 240)%N then
        match r with
        | b1 :: b2 :: r2 =>
            ((b - 224) * 4096 + (b1 - 128) * 64 + (b2 - 128))%N :: utf8_decode r2
        | _ => []
        end
      else
        match r with
        | b1 :: b2 :: b3 :: r3 =>
            ((b - 240) * 262144 + (b1 - 128) * 4096 + (b2 - 128) * 64 + (b3 - 128))%N
              :: utf8_decode r3
        | _ => []
        end
  end.

Definition lit (s : string) : str :=
  utf8_decode (map N_of_ascii (list_ascii_of_string s)).

Fixpoint str_eqb (a b : str) : bool :=
  match a, b with
  | [], [] => true
  | x :: a', y :: b' => N.eqb x y && str_eqb a' b'
  | _, _ => false
  end.

(** [str(n)] for an [int]. *)
Definition str_of_Z (z : Z) : str := lit (NilZero.string_of_int (Z.to_int z)).
Definition str_of_nat (n : nat) : str := str_of_Z (Z.of_nat n).

(** [Py_UNICODE_ISSPACE]: what [\s] matches and what [str.strip()] removes. *)
Definition isspace (c : char) : bool :=
  ((9 <=? c) && (c <=? 13) || (28 <=? c) && (c <=? 32)
   || (c =? 133) || (c =? 160) || (c =? 5760)
   || (8192 <=? c) && (c <=? 8202)
   || (c =? 8232) || (c =? 8233) || (c =? 8239) || (c =? 8287) || (c =? 12288))%N.

(** [Py_UNICODE_ISLINEBREAK]: the line boundaries of [str.splitlines()]. *)
Definition islinebreak (c : char) : bool :=
  ((10 <=? c) && (c <=? 13) || (28 <=? c) && (c <=? 30)
   || (c =? 133) || (c =? 8232) || (c =? 8233))%N.

(** First code points of the ten-digit blocks of the category Nd; the
    mathematical digits 1D7CE-1D7FF form one block of fifty. *)
Definition decimal_blocks : list N :=
  [48; 1632; 1776; 1984; 2406; 2534; 2662; 2790; 2918; 3046; 3174; 3302; 3430;
   3558; 3664; 3792; 3872; 4160; 4240; 6112; 6160; 6470; 6608; 6784; 6800;
   6992; 7088; 7232; 7248; 42528; 43216; 43264; 43472; 43504; 43600; 44016;
   65296; 66720; 68912; 69734; 69872; 69942; 70096; 70384; 70736; 70864;
   71248; 71360; 71472; 71904; 72016; 72784; 73040; 73120; 92768; 92864;
   93008; 123200; 123632; 125264; 130032]%N.

(** [Py_UNICODE_ISDECIMAL]: what [\d] matches. *)
Definition isdecimal (c : char) : bool :=
  existsb (fun lo => (lo <=? c) && (c <? lo + 10))%N decimal_blocks
  || ((120782 <=? c) && (c <=? 120831))%N.

Fixpoint takeWhile {A} (p : A -> bool) (l : list A) : list A :=
  match l with
  | [] => []
  | x :: r => if p x then x :: takeWhile p r else []
  end.

Fixpoint dropWhile {A} (p : A -> bool) (l : list A) : list A :=
  match l with
  | [] => []
  | x :: r => if p x then dropWhile p r else l
  end.

Definition rstrip (s : str) : str := rev (dropWhile isspace (rev s)).
Definition lstrip (s : str) : str := dropWhile isspace s.

(** [s.strip()] *)
Definition strip (s : str) : str := lstrip (rstrip s).

(** [s.strip() == ""], also [not s.strip()]. *)
Definition blank (s : str) : bool :=
  match strip s with [] => true | _ => false end.

(** [c in s] *)
Definition contains (c : char) (s : str) : bool := existsb (ischr c) s.

(** [s.count(c)] for a one-character [c]. *)
Definition count_char (c : char) (s : str) : nat := length (filter (ischr c) s).

(** [s[:k]] for any [int] k. *)
Definition slice_to (s : str) (k : Z) : str :=
  if (0 <=? k)%Z then firstn (Z.to_nat k) s
  else firstn (length s - Z.to_nat (- k)) s.

(** [s[-k:]] for a positive literal k. *)
Definition slice_last (k : nat) (s : str) : str := skipn (length s - k) s.

(** [s.startswith(p)] *)
Fixpoint startswith (p s : str) : bool :=
  match p, s with
  | [], _ => true
  | x :: p', y :: s' => N.eqb x y && startswith p' s'
  | _ :: _, [] => false
  end.

(** [line.replace("\t", "\\t")] *)
Definition escape_tabs (s : str) : str :=
  flat_map (fun c => if ischr TAB c then [BACKSLASH; LOWER_T] else [c]) s.

(** [raw.endswith("\n")] *)
Definition ends_with_newline (raw : str) : bool :=
  match rev raw with
  | c :: _ => ischr LF c
  | [] => false
  end.

(** [CRLF_PAT.search(raw)]: a carriage return directly followed by a line
    feed, anywhere. *)
Fixpoint CRLF_PAT (raw : str) : bool :=
  match raw with
  | [] => false
  | c :: r =>
      match r with
      | d :: _ => (ischr CR c && ischr LF d) || CRLF_PAT r
      | [] => false
      end
  end.

(** [raw.splitlines()]: the text cut at every line boundary, boundaries
    dropped, CR LF counted as one boundary, and no empty last line after a
    final boundary. *)
Fixpoint splitlines (s : str) : list str :=
  match s with
  | [] => []
  | c :: r =>
      if islinebreak c then
        [] :: (if ischr CR c
               then match r with
                    | d :: r' => if ischr LF d then splitlines r' else splitlines r
                    | [] => splitlines r
                    end
               else splitlines r)
      else
        match splitlines r with
        | [] => [[c]]
        | l :: ls => (c :: l) :: ls
        end
  end.

(** ** The pattern library

    Each pattern is a matcher written by hand from the regular expression,
    following the backtracking matcher of [re]: a dot is any character but a
    line feed, the dollar holds at the end and before a final line feed, and a
    greedy repetition of a character class is its longest run whenever what
    follows the repetition cannot start inside the class. *)

Definition span {A} (p : A -> bool) (l : list A) : list A * list A :=
  (takeWhile p l, dropWhile p l).

(** The tail "(.*)$" read from the current position: the text up to the end, without
    a final line feed; no match when a line feed stands anywhere else. *)
Fixpoint dot_star_eol (s : str) : option str :=
  match s with
  | [] => Some []
  | c :: r =>
      if ischr LF c then
        match r with
        | [] => Some []
        | _ :: _ => None
        end
      else option_map (cons c) (dot_star_eol r)
  end.

(** [CODE_FENCE_PAT.match(line)], pattern "^(\s*)(`{3,}|~{3,})(.*)$":
    the groups (indent, marker, info). *)
Definition CODE_FENCE_PAT (line : str) : option (str * str * str) :=
  let (indent, r) := span isspace line in
  let (ticks, r1) := span (ischr BACKTICK) r in
  if 3 <=? length ticks then
    option_map (fun info => (indent, ticks, info)) (dot_star_eol r1)
  else
    let (tildes, r2) := span (ischr TILDE) r in
    if 3 <=? length tildes then
      option_map (fun info => (indent, tildes, info)) (dot_star_eol r2)
    else None.

(** [HEADING_PAT.match(line)], pattern "^(#{1,6})\s*(.*)$": the groups
    (hashes, text). *)
Definition HEADING_PAT (line : str) : option (str * str) :=
  let hashes := firstn 6 (takeWhile (ischr HASH) line) in
  match hashes with
  | [] => None
  | _ :: _ =>
      option_map (fun text => (hashes, text))
        (dot_star_eol (dropWhile isspace (skipn (length hashes) line)))
  end.

(** A match object of [LINK_PAT]: [lm.start()] and the two groups. *)
Record LinkMatch := mkLinkMatch {
  lm_start : nat;
  lm_text : str;
  lm_url : str
}.

(** [LINK_PAT], pattern "!?\[([^\]]*)\]\(([^)]+)\)", tried at the head of
    [s]: the length of the match and the groups (text, url). *)
Definition link_at (s : str) : option (nat * str * str) :=
  let (bang, r0) :=
    match s with
    | c :: r => if ischr BANG c then (1, r) else (0, s)
    | [] => (0, s)
    end in
  match r0 with
  | c :: r1 =>
      if ischr LBRACKET c then
        let (text, r2) := span (notchr RBRACKET) r1 in
        match r2 with
        | _ :: d :: r3 =>
            if ischr LPAREN d then
              let (url, r4) := span (notchr RPAREN) r3 in
              match url, r4 with
              | _ :: _, _ :: _ =>
                  Some (bang + 1 + length text + 2 + length url + 1, text, url)
              | _, _ => None
              end
            else None
        | _ => None
        end
      else None
  | [] => None
  end.

(** [LINK_PAT.finditer(line)]: the leftmost matches, none overlapping, in
    order.  [pos] is the index of the head of [s] in the line, [skip] the
    number of characters still covered by the previous match. *)
Fixpoint finditer_from (pos skip : nat) (s : str) : list LinkMatch :=
  match s with
  | [] => []
  | _ :: r =>
      match skip with
      | S k => finditer_from (S pos) k r
      | O =>
          match link_at s with
          | Some (n, text, url) =>
              mkLinkMatch pos text url :: finditer_from (S pos) (n - 1) r
          | None => finditer_from (S pos) 0 r
          end
      end
  end.

Definition LINK_PAT_finditer (line : str) : list LinkMatch :=
  finditer_from 0 0 line.

(** [INLINE_CODE_PAT.sub("", line)], pattern "`[^`]*`": every leftmost
    backtick-to-backtick span removed. *)
Fixpoint inline_code_removed (skip : nat) (s : str) : str :=
  match s with
  | [] => []
  | c :: r =>
      match skip with
      | S k => inline_code_removed k r
      | O =>
          if ischr BACKTICK c then
            let (inner, r') := span (notchr BACKTICK) r in
            match r' with
            | _ :: _ => inline_code_removed (S (length inner)) r
            | [] => c :: inline_code_removed 0 r
            end
          else c :: inline_code_removed 0 r
      end
  end.

Definition INLINE_CODE_PAT_sub (line : str) : str := inline_code_removed 0 line.

Definition is_space_or_tab (c : char) : bool := ischr SPACE c || ischr TAB c.

(** [TRAILING_SPACE_PAT.search(line)], pattern "[ \t]+$": a space or a tab
    right before the end, or right before a final line feed. *)
Definition TRAILING_SPACE_PAT (line : str) : bool :=
  match rev line with
  | [] => false
  | c :: r =>
      if ischr LF c then
        match r with
        | d :: _ => is_space_or_tab d
        | [] => false
        end
      else is_space_or_tab c
  end.

(** The tail ".*\|\s*$" read after the first pipe: a later pipe, reached without
    crossing a line feed, with only white space after it. *)
Fixpoint table_tail (r : str) : bool :=
  match r with
  | [] => false
  | c :: r' =>
      (ischr PIPE c && forallb isspace r') || (notchr LF c && table_tail r')
  end.

(** [TABLE_LINE_PAT.match(line)], pattern "^\s*\|.*\|\s*$". *)
Definition TABLE_LINE_PAT (line : str) : bool :=
  match dropWhile isspace line with
  | c :: r => ischr PIPE c && table_tail r
  | [] => false
  end.

Definition is_bullet (c : char) : bool :=
  ischr MINUS c || ischr PLUS c || ischr STAR c.

(** [LIST_MARKER_PAT.match(line)], pattern "^(\s*)([-+*]|\d+\.)\s+":
    group 1, the indentation. *)
Definition LIST_MARKER_PAT (line : str) : option str :=
  let (indent, r) := span isspace line in
  let followed_by_space (t : str) :=
    match t with
    | w :: _ => isspace w
    | [] => false
    end in
  let bullet :=
    match r with
    | c :: r1 => is_bullet c && followed_by_space r1
    | [] => false
    end in
  let numbered :=
    let (digits, r2) := span isdecimal r in
    match digits, r2 with
    | _ :: _, d :: r3 => ischr DOT d && followed_by_space r3
    | _, _ => false
    end in
  if bullet || numbered then Some indent else None.

(** ** Issues, exceptions and the runtime *)

Module Issue.

Record t := mk {
  file : str;
  line : Z;
  col : Z;
  code : string;
  message : str;
  context : str
}.

End Issue.

(** The exceptions the operations used by the scan can raise, each with the
    text of [str(e)]. *)
Inductive exn :=
| IndexError (msg : str)
| ValueError (msg : str).

Inductive result (A : Type) :=
| Ok (a : A)
| Raise (e : exn).

Arguments Ok {A} a.
Arguments Raise {A} e.

Definition bind {A B} (m : result A) (k : A -> result B) : result B :=
  match m with
  | Ok a => k a
  | Raise e => Raise e
  end.

Notation "x <- m ;; k" := (bind m (fun x => k))
  (at level 61, m at next level, right associativity).
Notation "' p <- m ;; k" := (bind m (fun x => let 'p := x in k))
  (at level 61, p pattern, m at next level, right associativity).

(** [for x in xs: out.extend(f(x))], stopping at the first exception. *)
Fixpoint for_each {A B} (f : A -> result (list B)) (xs : list A) : result (list B) :=
  match xs with
  | [] => Ok []
  | x :: r => ys <- f x ;; zs <- for_each f r ;; Ok (ys ++ zs)
  end.

(** What the scan takes from the interpreter and from outside the scanner:
    the iteration order of [set(l)] for a list of ints, NFKC normalisation
    ([unicodedata.normalize]), the validation of a bracketed host by
    [urllib.parse] (through [ipaddress]), and the optional probe of the links
    over the network ([check_http_links]). *)
Record Runtime := mkRuntime {
  set_iter : list nat -> list nat;
  set_iter_In : forall l x, In x (set_iter l) <-> In x l;
  set_iter_NoDup : forall l, NoDup (set_iter l);
  nfkc : str -> str;
  check_bracketed_netloc : str -> result unit;
  check_http_links : str -> list str -> result (list Issue.t)
}.

(** [l[k]] on a list, negative indices counted from the end. *)
Definition list_get {A} (l : list A) (k : Z) : result A :=
  let n := Z.of_nat (length l) in
  let k' := if (k <? 0)%Z then (k + n)%Z else k in
  match (if (0 <=? k')%Z then nth_error l (Z.to_nat k') else None) with
  | Some x => Ok x
  | None => Raise (IndexError (lit "list index out of range"))
  end.

(** [s.find(c)] *)
Fixpoint str_find (c : char) (s : str) : option nat :=
  match s with
  | [] => None
  | d :: r => if ischr c d then Some 0 else option_map S (str_find c r)
  end.

(** [s.index(c)] *)
Definition str_index (c : char) (s : str) : result nat :=
  match str_find c s with
  | Some k => Ok k
  | None => Raise (ValueError (lit "substring not found"))
  end.

Fixpoint max_from {A} (key : A -> nat) (best : A) (xs : list A) : A :=
  match xs with
  | [] => best
  | x :: r => if key best <? key x then max_from key x r else max_from key best r
  end.

(** [max(xs, key=key)]: the first element of the greatest key. *)
Definition py_max {A} (xs : list A) (key : A -> nat) : result A :=
  match xs with
  | [] => Raise (ValueError (lit "max() arg is an empty sequence"))
  | x :: r => Ok (max_from key x r)
  end.

(** ** [urllib.parse.urlparse], as far as [check_file] reads its result *)

Record ParseResult := mkParseResult {
  scheme : str;
  netloc : str
}.

Definition is_ascii_alpha (c : char) : bool :=
  ((65 <=? c) && (c <=? 90) || (97 <=? c) && (c <=? 122))%N.

(** [c in scheme_chars] *)
Definition is_scheme_char (c : char) : bool :=
  is_ascii_alpha c || ((48 <=? c) && (c <=? 57))%N
  || ischr PLUS c || ischr MINUS c || ischr DOT c.

Definition lower (c : char) : char :=
  if ((65 <=? c) && (c <=? 90))%N then (c + 32)%N else c.

Definition is_netloc_delim (c : char) : bool :=
  ischr SLASH c || ischr QUESTION c || ischr HASH c.

(** [_checknetloc(netloc)] *)
Definition checknetloc (R : Runtime) (netloc : str) : result unit :=
  if forallb (fun c => (c <? 128)%N) netloc then Ok tt
  else
    let n := filter (fun c => negb (ischr AT c || ischr COLON c
                                    || ischr HASH c || ischr QUESTION c)) netloc in
    let netloc2 := nfkc R n in
    if str_eqb n netloc2 then Ok tt
    else if existsb (fun c => is_netloc_delim c || ischr AT c || ischr COLON c) netloc2
    then Raise (ValueError (lit "netloc '" ++ netloc ++
                  lit "' contains invalid characters under NFKC normalization"))
    else Ok tt.

(** [urlparse(url)]: the scheme and the network location of [urlsplit]; the
    later split into path, parameters, query and fragment raises nothing and
    is not read by the scan. *)
Definition urlparse (R : Runtime) (url : str) : result ParseResult :=
  let url := dropWhile (fun c => (c <=? 32)%N) url in
  let url := filter (fun c => negb (ischr TAB c || ischr CR c || ischr LF c)) url in
  let (scheme, url) :=
    match str_find COLON url, url with
    | Some (S i), c0 :: _ =>
        if is_ascii_alpha c0 && forallb is_scheme_char (firstn (S i) url)
        then (map lower (firstn (S i) url), skipn (S (S i)) url)
        else ([], url)
    | _, _ => ([], url)
    end in
  if startswith [SLASH; SLASH] url then
    let netloc := takeWhile (fun c => negb (is_netloc_delim c)) (skipn 2 url) in
    let opens := contains LBRACKET netloc in
    let closes := contains RBRACKET netloc in
    if (opens && negb closes) || (closes && negb opens)
    then Raise (ValueError (lit "Invalid IPv6 URL"))
    else
      _ <- (if opens && closes then check_bracketed_netloc R netloc else Ok tt) ;;
      _ <- checknetloc R netloc ;;
      Ok (mkParseResult scheme netloc)
  else
    _ <- checknetloc R [] ;;
    Ok (mkParseResult scheme []).

(** ** The scanner: [check_file] *)

Record ScanState := mkState {
  in_fence : bool;
  fence_marker : option char;
  fence_indent : str;
  last_heading_level : nat;
  seen_h1 : bool;
  table_block_pipe_counts : list nat
}.

Definition initial_state : ScanState := mkState false None [] 0 false [].

(** The messages of the issues, as the source spells them. *)
Definition read_failed_message (e : str) : str := lit "파일을 열 수 없습니다: " ++ e.
Definition crlf_message : str := lit "윈도우 CRLF 줄바꿈 감지(가능하면 LF 권장).".
Definition noeofnl_message : str := lit "파일 끝에 개행(Newline)이 없습니다.".
Definition trail_in_fence_message : str := lit "코드블록 내 트레일링 공백.".
Definition trail_message : str := lit "트레일링 공백.".
Definition multiblank_message : str := lit "빈 줄이 2줄 초과로 연속됩니다.".
Definition linelen_message (n : nat) (max_len : Z) : str :=
  lit "줄 길이 " ++ str_of_nat n ++ lit " > " ++ str_of_Z max_len ++ lit ".".
Definition tab_message : str := lit "탭 문자가 감지되었습니다(스페이스 권장).".
Definition headspace_message : str := lit "헤딩의 '#' 다음에는 공백이 필요합니다.".
Definition emptyhead_message : str := lit "빈 헤딩 텍스트.".
Definition multih1_message : str := lit "문서 내 H1 헤딩이 2개 이상입니다.".
Definition headjump_message (last level : nat) : str :=
  lit "헤딩 레벨이 " ++ str_of_nat last ++ lit "→" ++ str_of_nat level
    ++ lit "로 2 이상 점프.".
Definition noalt_message : str := lit "이미지의 대체텍스트(alt)가 비어 있습니다.".
Definition emptylinktext_message : str := lit "링크 텍스트가 비어 있습니다.".
Definition emptyurl_message : str := lit "링크/이미지 URL이 비어 있습니다.".
Definition scheme_message (scheme : str) : str :=
  lit "비표준/의도치 않은 스킴 '" ++ scheme ++ lit "'.".
Definition tablepipes_message (exp cnt : nat) : str :=
  lit "테이블 블록의 파이프 수 불일치(기대 " ++ str_of_nat exp ++ lit ", 실제 "
    ++ str_of_nat cnt ++ lit ").".
Definition listtab_message : str := lit "목록 들여쓰기에 탭 사용.".
Definition fence_message : str := lit "열린 코드 펜스가 닫히지 않았습니다.".

Definition issue (path : str) (line col : Z) (code : string) (message context : str)
  : Issue.t := Issue.mk path line col code message context.

(** Lines 103-112: a line of the fence pattern opens a fence, or closes the
    open one when both the fence character and the indentation agree. *)
Definition fence_step (st : ScanState) (indent : str) (m0 : char) : ScanState :=
  if negb (in_fence st) then
    mkState true (Some m0) indent (last_heading_level st) (seen_h1 st)
      (table_block_pipe_counts st)
  else
    match fence_marker st with
    | Some f =>
        if N.eqb m0 f && str_eqb indent (fence_indent st) then
          mkState false None [] (last_heading_level st) (seen_h1 st)
            (table_block_pipe_counts st)
        else st
    | None => st
    end.

Section Scan.

Variable R : Runtime.
Variable path : str.
Variable max_len : Z.

(** The whole list [lines] is in scope of the loop body (it is read by the
    blank-run check). *)
Variable lines : list str.

(** Lines 100-114: [marker[0]] is read on both branches. *)
Definition fence_line (st : ScanState) (indent marker : str) : result ScanState :=
  match marker with
  | [] => Raise (IndexError (lit "string index out of range"))
  | m0 :: _ => Ok (fence_step st indent m0)
  end.

(** Lines 117-120 and 123-124. *)
Definition trailing_space (i : nat) (line : str) (message : str) : list Issue.t :=
  if TRAILING_SPACE_PAT line then
    [issue path (Z.of_nat i) (Z.of_nat (length line)) "W-TRAIL" message
       (slice_last 40 line)]
  else [].

(** Lines 127-128; [and] evaluates its operands left to right and stops at
    the first false one. *)
Definition excess_blank (i : nat) (line : str) : result (list Issue.t) :=
  if 3 <=? i then
    before <- list_get lines (Z.of_nat i - 2) ;;
    if blank before then
      current <- list_get lines (Z.of_nat i - 1) ;;
      if blank current && blank line then
        Ok [issue path (Z.of_nat i) 1 "W-MULTIBLANK"
              multiblank_message []]
      else Ok []
    else Ok []
  else Ok [].

(** Lines 131-133. *)
Definition line_length (i : nat) (line : str) : list Issue.t :=
  let logical_line := INLINE_CODE_PAT_sub line in
  if (Z.of_nat (length logical_line) >? max_len)%Z then
    [issue path (Z.of_nat i) (max_len + 1) "W-LINELEN"
       (linelen_message (length logical_line) max_len)
       (slice_to line (max_len + 20))]
  else [].

(** Lines 136-137. *)
Definition tab_use (i : nat) (line : str) : result (list Issue.t) :=
  if contains TAB line then
    k <- str_index TAB line ;;
    Ok [issue path (Z.of_nat i) (Z.of_nat k + 1) "W-TAB"
          tab_message
          (slice_to (escape_tabs line) 80)]
  else Ok [].

(** Lines 140-160: the issues of a heading line, and the heading state
    [(last_heading_level, seen_h1)] after it. *)
Definition heading (i : nat) (line : str) (last : nat) (seen : bool)
  : list Issue.t * nat * bool :=
  match HEADING_PAT line with
  | None => ([], last, seen)
  | Some (hashes, text) =>
      let headspace :=
        if negb (startswith (hashes ++ [SPACE]) line) then
          [issue path (Z.of_nat i) (Z.of_nat (length hashes) + 1) "E-HEADSPACE"
             headspace_message (slice_to line 80)]
        else [] in
      let level := length hashes in
      let emptyhead :=
        if blank text then
          [issue path (Z.of_nat i) (Z.of_nat (length hashes) + 2) "E-EMPTYHEAD"
             emptyhead_message (slice_to line 80)]
        else [] in
      let multih1 :=
        if (level =? 1) && seen then
          [issue path (Z.of_nat i) 1 "W-MULTIH1"
             multih1_message (slice_to line 80)]
        else [] in
      let seen' := if level =? 1 then true else seen in
      let headjump :=
        if negb (last =? 0) && (Z.of_nat level - Z.of_nat last >? 1)%Z then
          [issue path (Z.of_nat i) 1 "W-HEADJUMP" (headjump_message last level)
             (slice_to line 80)]
        else [] in
      (headspace ++ emptyhead ++ multih1 ++ headjump, level, seen')
  end.

Definition standard_scheme (s : str) : bool :=
  str_eqb s (lit "http") || str_eqb s (lit "https") || str_eqb s (lit "mailto").

(** Lines 164-176: the body of the loop over the link matches. *)
Definition link (i : nat) (line : str) (lm : LinkMatch) : result (list Issue.t) :=
  let text := lm_text lm in
  let url := lm_url lm in
  first <- list_get line (Z.of_nat (lm_start lm)) ;;
  let is_image := ischr BANG first in
  let emptytext :=
    if blank text then
      [issue path (Z.of_nat i) (Z.of_nat (lm_start lm) + 1)
         (if is_image then "E-NOALTTEXT" else "W-EMPTYLINKTEXT")
         (if is_image then noalt_message else emptylinktext_message)
         (slice_to line 120)]
    else [] in
  let emptyurl :=
    if blank url then
      [issue path (Z.of_nat i) (Z.of_nat (lm_start lm) + 1) "E-EMPTYURL"
         emptyurl_message (slice_to line 120)]
    else [] in
  parsed <- urlparse R url ;;
  let badscheme :=
    match scheme parsed with
    | [] => []
    | _ :: _ =>
        if negb (standard_scheme (scheme parsed)) then
          [issue path (Z.of_nat i) (Z.of_nat (lm_start lm) + 1) "W-SCHEME"
             (scheme_message (scheme parsed))
             (slice_to url 120)]
        else []
    end in
  Ok (emptytext ++ emptyurl ++ badscheme).

(** Lines 189-192 and 208-211: the majority pipe count of the block, and one
    issue per row that differs from it, all reported at line [at_line]. *)
Definition table_mismatches (at_line : nat) (counts : list nat)
  : result (list Issue.t) :=
  exp <- py_max (set_iter R counts) (count_occ Nat.eq_dec counts) ;;
  Ok (flat_map
        (fun cnt =>
           if negb (cnt =? exp) then
             [issue path (Z.of_nat at_line) 1 "W-TABLEPIPES"
                (tablepipes_message exp cnt) []]
           else [])
        counts).

(** Lines 179-193: the pipe counts after the line, and the issues. *)
Definition table_block (i : nat) (line : str) (counts : list nat)
  : result (list nat * list Issue.t) :=
  if TABLE_LINE_PAT line then Ok (counts ++ [count_char PIPE line], [])
  else
    match counts with
    | [] => Ok (counts, [])
    | _ :: _ => found <- table_mismatches i counts ;; Ok ([], found)
    end.

(** Lines 196-200. *)
Definition list_indent (i : nat) (line : str) : list Issue.t :=
  match LIST_MARKER_PAT line with
  | Some indent =>
      if contains TAB indent then
        [issue path (Z.of_nat i) 1 "W-LISTTAB" listtab_message
           (slice_to line 80)]
      else []
  | None => []
  end.

(** The body of the loop, lines 97-200, for line number [i]: the state
    after the line and the issues appended by it. *)
Definition scan_line (i : nat) (line : str) (st : ScanState)
  : result (ScanState * list Issue.t) :=
  match CODE_FENCE_PAT line with
  | Some (indent, marker, info) =>
      st' <- fence_line st indent marker ;;
      Ok (st', [])
  | None =>
      if in_fence st then
        Ok (st, trailing_space i line trail_in_fence_message)
      else
        let trail := trailing_space i line trail_message in
        multiblank <- excess_blank i line ;;
        let linelen := line_length i line in
        tabs <- tab_use i line ;;
        let '(headings, level, seen) :=
          heading i line (last_heading_level st) (seen_h1 st) in
        links <- for_each (link i line) (LINK_PAT_finditer line) ;;
        '(counts, tables) <- table_block i line (table_block_pipe_counts st) ;;
        let lists := list_indent i line in
        Ok (mkState (in_fence st) (fence_marker st) (fence_indent st)
              level seen counts,
            trail ++ multiblank ++ linelen ++ tabs ++ headings ++ links
              ++ tables ++ lists)
  end.

(** [for i, orig_line in enumerate(lines, start=1)], continued from line
    number [i] over the lines [todo] still to come. *)
Fixpoint scan_loop (i : nat) (todo : list str) (st : ScanState)
  : result (ScanState * list Issue.t) :=
  match todo with
  | [] => Ok (st, [])
  | line :: rest =>
      '(st1, found1) <- scan_line i line st ;;
      '(st2, found2) <- scan_loop (S i) rest st1 ;;
      Ok (st2, found1 ++ found2)
  end.

End Scan.

(** What [f.read()] gave: the text, or the exception caught at line 74, as
    its [str(e)]. *)
Inductive ReadResult :=
| Text (raw : str)
| ReadFailed (e : str).

(** Lines 79-80. *)
Definition crlf_check (path raw : str) : list Issue.t :=
  if CRLF_PAT raw then
    [issue path 1 1 "W-CRLF" crlf_message []]
  else [].

Definition noeofnl_issue (path : str) : Issue.t :=
  issue path 0 0 "W-NOEOFNL" noeofnl_message [].

(** Lines 83-84. *)
Definition eof_newline_check (path raw : str) : list Issue.t :=
  if negb (ends_with_newline raw) then [noeofnl_issue path] else [].

(** Lines 203-204. *)
Definition open_fence_check (path : str) (st : ScanState) (n : nat) : list Issue.t :=
  if in_fence st then
    [issue path (Z.of_nat n) 1 "E-FENCE" fence_message []]
  else [].

(** Lines 207-211. *)
Definition open_table_check (R : Runtime) (path : str) (st : ScanState) (n : nat)
  : result (list Issue.t) :=
  match table_block_pipe_counts st with
  | [] => Ok []
  | _ :: _ => table_mismatches R path n (table_block_pipe_counts st)
  end.

(** Lines 79-211: the scan of the text of one document. *)
Definition scan_text (R : Runtime) (path : str) (raw : str) (max_len : Z)
  : result (list Issue.t) :=
  let crlf := crlf_check path raw in
  let noeofnl := eof_newline_check path raw in
  let lines := splitlines raw in
  '(st, found) <- scan_loop R path max_len lines 1 lines initial_state ;;
  let fence := open_fence_check path st (length lines) in
  tables <- open_table_check R path st (length lines) ;;
  Ok (crlf ++ noeofnl ++ found ++ fence ++ tables).

(** [check_file(path, max_len, check_links)], given what reading the file
    gave. *)
Definition check_file (R : Runtime) (path : str) (read : ReadResult)
    (max_len : Z) (check_links : bool) : result (list Issue.t) :=
  match read with
  | ReadFailed e =>
      Ok [issue path 0 0 "E-READ" (read_failed_message e) []]
  | Text raw =>
      issues <- scan_text R path raw max_len ;;
      if check_links then
        probed <- check_http_links R path (splitlines raw) ;;
        Ok (issues ++ probed)
      else Ok issues
  end.

(** A runtime for running the scan on examples: sets iterate in the order
    of [nodup], normalisation changes nothing, every bracketed host is
    accepted and no link is probed. *)
Definition plain_runtime : Runtime :=
  mkRuntime (nodup Nat.eq_dec)
    (fun l x => nodup_In Nat.eq_dec l x) (NoDup_nodup Nat.eq_dec)
    (fun s => s) (fun _ => Ok tt) (fun _ _ => Ok []).

(** ** The state of the scan along the lines

    The transition of the scan state made by one line, read off [scan_line]
    without the issues. *)

Definition is_fence_line (line : str) : bool :=
  match CODE_FENCE_PAT line with
  | Some _ => true
  | None => false
  end.

(** The line reaches the checks of lines 123-200: it is not a fence
    delimiter and no fence is open. *)
Definition checked (st : ScanState) (line : str) : bool :=
  negb (is_fence_line line) && negb (in_fence st).

Definition heading_state (line : str) (last : nat) (seen : bool) : nat * bool :=
  match HEADING_PAT line with
  | None => (last, seen)
  | Some (hashes, _) =>
      (length hashes, if length hashes =? 1 then true else seen)
  end.

Definition table_state (line : str) (counts : list nat) : list nat :=
  if TABLE_LINE_PAT line then counts ++ [count_char PIPE line] else [].

Definition next_state (st : ScanState) (line : str) : ScanState :=
  match CODE_FENCE_PAT line with
  | Some (indent, marker, _) =>
      match marker with
      | m0 :: _ => fence_step st indent m0
      | [] => st
      end
  | None =>
      if in_fence st then st
      else
        let (level, seen) :=
          heading_state line (last_heading_level st) (seen_h1 st) in
        mkState (in_fence st) (fence_marker st) (fence_indent st) level seen
          (table_state line (table_block_pipe_counts st))
  end.

(** The state in which line [k] (counted from 0) is scanned. *)
Definition state_before (lines : list str) (k : nat) : ScanState :=
  fold_left next_state (firstn k lines) initial_state.

(** The lines of [ls] that reach the checks, scanning from state [st]. *)
Fixpoint checked_lines (st : ScanState) (ls : list str) : list str :=
  match ls with
  | [] => []
  | l :: r =>
      (if checked st l then [l] else []) ++ checked_lines (next_state st l) r
  end.

(** The fence alone: the character and indentation of the open fence. *)
Definition fence_track (open : option (char * str)) (line : str)
  : option (char * str) :=
  match CODE_FENCE_PAT line with
  | Some (indent, m0 :: _, _) =>
      match open with
      | None => Some (m0, indent)
      | Some (f, ind) => if N.eqb m0 f && str_eqb indent ind then None else open
      end
  | _ => open
  end.

(** The fence left open, if any, when the lines are exhausted. *)
Definition open_fence (lines : list str) : option (char * str) :=
  fold_left fence_track lines None.

Definition has_code (c : string) (x : Issue.t) : bool :=
  String.eqb (Issue.code x) c.

Definition at_line (n : nat) (x : Issue.t) : bool :=
  Z.eqb (Issue.line x) (Z.of_nat n).

(** The issues of code [c] reported at line [n]. *)
Definition reported (c : string) (n : nat) (issues : list Issue.t) : list Issue.t :=
  filter (fun x => has_code c x && at_line n x) issues.

Definition ends_in_space_or_tab (line : str) : bool :=
  match rev line with
  | c :: _ => is_space_or_tab c
  | [] => false
  end.


(** ** What the statements are about *)

(** The text of a document given by its lines, each ended by a line feed. *)
Definition text_of (ls : list string) : str :=
  flat_map (fun l => lit l ++ [LF]) ls.

(** Every issue of [out] is reported at line [i] with a code of [cs]. *)
Definition from_line (i : nat) (cs : list string) (out : list Issue.t) : Prop :=
  Forall (fun x => Issue.line x = Z.of_nat i /\ In (Issue.code x) cs) out.

(** The codes the body of the loop can report for a checked line. *)
Definition heading_codes : list string :=
  ["E-HEADSPACE"; "E-EMPTYHEAD"; "W-MULTIH1"; "W-HEADJUMP"]%string.
Definition link_codes : list string :=
  ["E-NOALTTEXT"; "W-EMPTYLINKTEXT"; "E-EMPTYURL"; "W-SCHEME"]%string.
Definition loop_codes : list string :=
  ["W-TRAIL"; "W-MULTIBLANK"; "W-LINELEN"; "W-TAB";
   "E-HEADSPACE"; "E-EMPTYHEAD"; "W-MULTIH1"; "W-HEADJUMP";
   "E-NOALTTEXT"; "W-EMPTYLINKTEXT"; "E-EMPTYURL"; "W-SCHEME";
   "W-TABLEPIPES"; "W-LISTTAB"]%string.

(** The codes reported outside the body of the loop. *)
Definition document_codes : list string :=
  ["W-CRLF"; "W-NOEOFNL"; "E-FENCE"; "W-TABLEPIPES"]%string.

(** Every issue of [out] carries a line number from [lo] up to [hi],
    excluded, and a code of the loop body. *)
Definition within (lo hi : nat) (out : list Issue.t) : Prop :=
  Forall (fun x => (Z.of_nat lo <= Issue.line x < Z.of_nat hi)%Z
                   /\ In (Issue.code x) loop_codes) out.

(** The fence fields of the scan state and the fence followed on its own. *)
Definition fence_agrees (st : ScanState) (open : option (char * str)) : Prop :=
  match open with
  | None => in_fence st = false
  | Some (f, ind) =>
      in_fence st = true /\ fence_marker st = Some f /\ fence_indent st = ind
  end.

(** The level of the latest heading among the lines that reached the
    checks, [last] when there is none. *)
Definition latest_heading_level (last : nat) (ls : list str) : nat :=
  fold_left
    (fun acc l =>
       match HEADING_PAT l with
       | Some (hashes, _) => length hashes
       | None => acc
       end)
    ls last.

(** The rows of the table block that is open after the lines [cl]: the
    longest run of table rows at their end. *)
Definition trailing_rows (cl : list str) : list str :=
  rev (takeWhile TABLE_LINE_PAT (rev cl)).

(** ** Further statements about the scan *)

(** The line numbers of [out] never decrease. *)
Definition in_line_order (out : list Issue.t) : Prop :=
  StronglySorted (fun a b => (Issue.line a <= Issue.line b)%Z) out.

(** A heading line of level 1. *)
Definition is_h1 (line : str) : bool :=
  match HEADING_PAT line with
  | Some (hashes, _) => length hashes =? 1
  | None => false
  end.

(** The number of times the most frequent element of [l] occurs in it. *)
Definition max_multiplicity (l : list nat) : nat :=
  fold_right Nat.max 0 (map (count_occ Nat.eq_dec l) l).

(** [lines] joined into a text, a line feed after each line. *)
Definition join_lines (ls : list str) : str := flat_map (fun l => l ++ [LF]) ls.

(** What a link issue says about the match it comes from. *)
Definition link_cause (R : Runtime) (line : str) (lm : LinkMatch) (x : Issue.t)
  : Prop :=
  let code := Issue.code x in
  (code = "E-NOALTTEXT"%string /\ nth_error line (lm_start lm) = Some BANG
   /\ blank (lm_text lm) = true)
  \/ (code = "W-EMPTYLINKTEXT"%string /\ nth_error line (lm_start lm) = Some LBRACKET
      /\ blank (lm_text lm) = true)
  \/ (code = "E-EMPTYURL"%string /\ lm_url lm <> [] /\ blank (lm_url lm) = true)
  \/ (code = "W-SCHEME"%string
      /\ exists p, urlparse R (lm_url lm) = Ok p /\ scheme p <> []
                   /\ standard_scheme (scheme p) = false
                   /\ Issue.message x = scheme_message (scheme p)).

(** The issues of [out] name the document [path]. *)
Definition of_document (path : str) (out : list Issue.t) : Prop :=
  Forall (fun x => Issue.file x = path) out.

(** ** Finding the documents: [is_markdown_file], [is_ignored],
    [get_md_files], [iter_md_files] *)

(** What a path names on the file system, as [os.walk], [os.listdir] and
    [os.path.isdir] show it: a file (anything that is no directory), a
    directory with its entries in the order the system lists them, or a
    directory no entry is taken from (one that cannot be listed; below the
    top of a walk also a symbolic link to a directory, which [os.walk] does
    not follow). *)
Inductive node :=
| File
| Dir (entries : list (str * node))
| Opaque.

(** What file discovery takes from the interpreter and the system:
    [str.lower] (which on ASCII text maps the letters A-Z only),
    [fnmatch.fnmatch], what each path names, and the reading of a file as
    UTF-8 text. *)
Record Host := mkHost {
  str_lower : str -> str;
  str_lower_ascii :
    forall s, forallb (fun c => (c <? 128)%N) s = true -> str_lower s = map lower s;
  fnmatch : str -> str -> bool;
  at_path : str -> option node;
  read_text : str -> ReadResult
}.

(** [entry.is_dir()] *)
Definition is_dir (n : node) : bool :=
  match n with File => false | _ => true end.

(** [os.path.isdir(p)] *)
Definition isdir (H : Host) (p : str) : bool :=
  match at_path H p with Some n => is_dir n | None => false end.

(** [s.rfind(c)] *)
Fixpoint str_rfind (c : char) (s : str) : option nat :=
  match s with
  | [] => None
  | d :: r =>
      match str_rfind c r with
      | Some k => Some (S k)
      | None => if ischr c d then Some 0 else None
      end
  end.

(** [os.path.splitext(p)] of [posixpath]: the extension runs from the last
    dot of the last component, unless only dots stand before it there. *)
Definition splitext (p : str) : str * str :=
  let index := fun c => match str_rfind c p with
                        | Some k => Z.of_nat k
                        | None => (-1)%Z
                        end in
  let sepIndex := index SLASH in
  let dotIndex := index DOT in
  if (dotIndex >? sepIndex)%Z then
    let filenameIndex := Z.to_nat (sepIndex + 1) in
    if existsb (notchr DOT) (skipn filenameIndex (firstn (Z.to_nat dotIndex) p))
    then (firstn (Z.to_nat dotIndex) p, skipn (Z.to_nat dotIndex) p)
    else (p, [])
  else (p, []).

(** [os.path.basename(p)] of [posixpath]: what follows the last slash. *)
Definition basename (p : str) : str :=
  match str_rfind SLASH p with
  | Some k => skipn (S k) p
  | None => p
  end.

Definition markdown_extensions : list str :=
  [lit ".md"; lit ".markdown"; lit ".mdown"; lit ".mkdn"].

(** Lines 46-47. *)
Definition is_markdown_file (H : Host) (path : str) : bool :=
  existsb (str_eqb (str_lower H (snd (splitext path)))) markdown_extensions.

(** Lines 43-44. *)
Definition is_ignored (H : Host) (path : str) (ignore_patterns : list str) : bool :=
  existsb (fun pat => fnmatch H path pat) ignore_patterns.

(** [s.endswith(p)] *)
Definition endswith (p s : str) : bool := startswith (rev p) (rev s).

(** [os.path.join(a, b)] of [posixpath] *)
Definition path_join (a b : str) : str :=
  if startswith [SLASH] b then b
  else if str_eqb a [] || endswith [SLASH] a then a ++ b
  else a ++ [SLASH] ++ b.

(** [os.walk(top)] on the directory [n], top down: the triples
    [(root, dirs, files)] in the order they are yielded.  [keep] is what the
    consumer leaves in [dirs] before the walk goes on (line 55 assigns to
    [dirs[:]]), so the directories it drops are not entered. *)
Fixpoint walk (keep : str -> bool) (top : str) (n : node)
  : list (str * list str * list str) :=
  match n with
  | Dir entries =>
      let dirs := map fst (filter (fun e => is_dir (snd e)) entries) in
      let nondirs := map fst (filter (fun e => negb (is_dir (snd e))) entries) in
      (top, dirs, nondirs)
      :: flat_map (fun e => if is_dir (snd e) && keep (fst e)
                            then walk keep (path_join top (fst e)) (snd e)
                            else [])
           entries
  | _ => []
  end.

(** The order of [str]: by code points, a proper prefix first. *)
Fixpoint str_compare (a b : str) : comparison :=
  match a, b with
  | [], [] => Eq
  | [], _ :: _ => Lt
  | _ :: _, [] => Gt
  | x :: a', y :: b' =>
      match N.compare x y with
      | Eq => str_compare a' b'
      | c => c
      end
  end.

Definition str_lt (a b : str) : Prop := str_compare a b = Lt.

Fixpoint insert_sorted (x : str) (l : list str) : list str :=
  match l with
  | [] => [x]
  | y :: r =>
      match str_compare x y with
      | Lt => x :: l
      | Eq => l
      | Gt => y :: insert_sorted x r
      end
  end.

(** [sorted(set(found))]: the distinct strings of [found] in increasing
    order.  There is one such list, so the iteration order of the set does
    not show. *)
Definition sorted_set (found : list str) : list str :=
  fold_right insert_sorted [] found.

Definition hidden (d : str) : bool := startswith [DOT] d.

(** Lines 56-61: the files of one directory of the walk. *)
Definition select_files (H : Host) (ignore_patterns : list str) (root : str)
    (files : list str) : list str :=
  flat_map (fun f =>
              let full := path_join root f in
              if is_ignored H full ignore_patterns then []
              else if is_markdown_file H full then [full] else [])
    files.

(** Lines 49-67. *)
Definition iter_md_files (H : Host) (paths ignore_patterns : list str) : list str :=
  let found :=
    flat_map (fun p =>
                if isdir H p then
                  match at_path H p with
                  | Some n =>
                      flat_map (fun '(root, _, files) =>
                                  select_files H ignore_patterns root files)
                        (walk (fun d => negb (hidden d)) p n)
                  | None => []
                  end
                else
                  if is_ignored H p ignore_patterns then []
                  else if is_markdown_file H p then [p] else [])
      paths in
  sorted_set found.

(** Lines 38-41; [None] when [os.listdir] raises [OSError]. *)
Definition get_md_files (H : Host) (path : str) : option (list str) :=
  if isdir H path then
    match at_path H path with
    | Some (Dir entries) =>
        Some (map (path_join path)
                (filter (is_markdown_file H) (map fst entries)))
    | _ => None
    end
  else Some [path].

(** The directory [n] holds, below the chain of directories [ds], an entry
    [name] that is no directory. *)
Fixpoint file_below (ds : list str) (n : node) (name : str) : Prop :=
  match n, ds with
  | Dir entries, [] =>
      exists sub, In (name, sub) entries /\ is_dir sub = false
  | Dir entries, d :: ds' =>
      exists sub, In (d, sub) entries /\ is_dir sub = true
                  /\ file_below ds' sub name
  | _, _ => False
  end.

(** A host for running the discovery on examples: a directory "docs" with
    two documents, a hidden file, a hidden directory and a subdirectory;
    ASCII lower case; patterns that match themselves only. *)
Definition example_tree : node :=
  Dir [(lit "b.md", File);
       (lit ".git", Dir [(lit "x.md", File)]);
       (lit "sub", Dir [(lit "a.MD", File); (lit "c.txt", File)]);
       (lit ".hidden.md", File);
       (lit "a.md", File)].

Definition example_host : Host :=
  mkHost (map lower) (fun _ _ => eq_refl) (fun name pat => str_eqb name pat)
    (fun p => if str_eqb p (lit "docs") then Some example_tree
              else if str_eqb p (lit "docs/sub")
              then Some (Dir [(lit "a.MD", File); (lit "c.txt", File)])
              else None)
    (fun p => if str_eqb p (lit "docs/a.md") then Text (text_of ["# a"]%string)
              else if str_eqb p (lit "docs/b.md") then Text (lit "b ")
              else ReadFailed (lit "[Errno 2] No such file or directory")).

(** ** The probe of the links: [check_http_links] *)

(** What the [try] block of lines 233-246 came to for one link: the server
    answered (status and reason) and the connection was closed; the server
    answered and [conn.close()] raised; or an exception was raised before
    an answer was read.  An exception is given by its [str(e)]. *)
Inductive Outcome :=
| Answered (status : Z) (reason : str)
| AnsweredUnclosed (status : Z) (reason : str) (e : str)
| Unanswered (e : str).

(** The network: what the HEAD request made for the link at a line and a
    position of it comes to, given the scheme, the host and the request
    target. *)
Definition Network : Type := nat -> nat -> str -> str -> str -> Outcome.

(** [urllib.parse.uses_params] *)
Definition uses_params : list str :=
  [[]; lit "ftp"; lit "hdl"; lit "prospero"; lit "http"; lit "imap";
   lit "https"; lit "shttp"; lit "rtsp"; lit "rtspu"; lit "sip"; lit "sips";
   lit "mms"; lit "sftp"; lit "tel"].

(** The first component of [_splitparams(url)], for a [url] that holds a
    semicolon. *)
Definition splitparams_path (url : str) : str :=
  match str_rfind SLASH url with
  | Some k =>
      match str_find SEMI (skipn k url) with
      | Some j => firstn (k + j) url
      | None => url
      end
  | None =>
      match str_find SEMI url with
      | Some i => firstn i url
      | None => removelast url
      end
  end.

(** The [path] and the [query] of [urlparse(url)], when it returns. *)
Definition path_and_query (url : str) : str * str :=
  let url := dropWhile (fun c => (c <=? 32)%N) url in
  let url := filter (fun c => negb (ischr TAB c || ischr CR c || ischr LF c)) url in
  let (scheme, url) :=
    match str_find COLON url, url with
    | Some (S i), c0 :: _ =>
        if is_ascii_alpha c0 && forallb is_scheme_char (firstn (S i) url)
        then (map lower (firstn (S i) url), skipn (S (S i)) url)
        else ([], url)
    | _, _ => ([], url)
    end in
  let url :=
    if startswith [SLASH; SLASH] url
    then dropWhile (fun c => negb (is_netloc_delim c)) (skipn 2 url)
    else url in
  let url := match str_find HASH url with
             | Some i => firstn i url
             | None => url
             end in
  let (url, query) :=
    match str_find QUESTION url with
    | Some i => (firstn i url, skipn (S i) url)
    | None => (url, [])
    end in
  let path := if existsb (str_eqb scheme) uses_params && contains SEMI url
              then splitparams_path url else url in
  (path, query).

Definition link_message (status : Z) (reason : str) : str :=
  lit "링크 상태 코드 " ++ str_of_Z status ++ lit " (" ++ reason ++ lit ").".
Definition linkerr_message (e : str) : str := lit "링크 검사 실패: " ++ e.

Module Http.

(** Lines 226-248: the body of the loop over the link matches. *)
Definition probe (R : Runtime) (N : Network) (path : str) (i : nat)
    (lm : LinkMatch) : result (list Issue.t) :=
  let url := lm_url lm in
  parsed <- urlparse R url ;;
  if negb (str_eqb (scheme parsed) (lit "http")
           || str_eqb (scheme parsed) (lit "https"))
  then Ok []
  else
    let host := netloc parsed in
    match host with
    | [] => Ok []
    | _ :: _ =>
        let (p, query) := path_and_query url in
        let path_q := (match p with [] => [SLASH] | _ :: _ => p end)
                      ++ (match query with
                          | [] => []
                          | _ :: _ => QUESTION :: query
                          end) in
        let col := (Z.of_nat (lm_start lm) + 1)%Z in
        let answer status reason :=
          if (status >=? 400)%Z
          then [issue path (Z.of_nat i) col "W-LINK" (link_message status reason) url]
          else [] in
        let failure e :=
          [issue path (Z.of_nat i) col "W-LINKERR" (linkerr_message e) url] in
        Ok match N i (lm_start lm) (scheme parsed) host path_q with
           | Answered status reason => answer status reason
           | AnsweredUnclosed status reason e => answer status reason ++ failure e
           | Unanswered e => failure e
           end
    end.

(** Lines 224-248, from line number [i] on. *)
Fixpoint probe_lines (R : Runtime) (N : Network) (path : str) (i : nat)
    (lines : list str) : result (list Issue.t) :=
  match lines with
  | [] => Ok []
  | line :: rest =>
      found <- for_each (probe R N path i) (LINK_PAT_finditer line) ;;
      later <- probe_lines R N path (S i) rest ;;
      Ok (found ++ later)
  end.

(** Lines 222-249. *)
Definition check_http_links (R : Runtime) (N : Network) (path : str)
    (lines : list str) : result (list Issue.t) :=
  probe_lines R N path 1 lines.

End Http.

(** The runtime [R] with the links probed over the network [N]. *)
Definition with_network (R : Runtime) (N : Network) : Runtime :=
  mkRuntime (set_iter R) (set_iter_In R) (set_iter_NoDup R) (nfkc R)
    (check_bracketed_netloc R) (Http.check_http_links R N).

(** ** The command: [main] *)

(** The arguments, as [parse_args] returns them. *)
Record Args := mkArgs {
  arg_paths : list str;
  arg_ignore : list str;
  arg_max_line_length : Z;
  arg_check_links : bool;
  arg_json : bool
}.

(** Lines 270-273: what is printed for one issue. *)
Definition issue_text (x : Issue.t) : str :=
  Issue.file x ++ [COLON] ++ str_of_Z (Issue.line x) ++ [COLON]
    ++ str_of_Z (Issue.col x) ++ [TAB] ++ lit (Issue.code x) ++ [TAB]
    ++ Issue.message x ++ [LF]
    ++ match Issue.context x with
       | [] => []
       | _ :: _ => lit "  ↳ " ++ Issue.context x ++ [LF]
       end.

(** Line 275. *)
Definition summary_text (files : list str) (all_issues : list Issue.t) : str :=
  [LF] ++ lit "검사 파일: " ++ str_of_nat (length files) ++ lit "개, 발견된 문제: "
    ++ str_of_nat (length all_issues) ++ lit "개" ++ [LF].

(** Lines 260-263: the files and their issues. *)
Definition collect (H : Host) (R : Runtime) (args : Args)
  : result (list str * list Issue.t) :=
  let files := iter_md_files H (arg_paths args) (arg_ignore args) in
  all_issues <- for_each (fun f => check_file R f (read_text H f)
                                     (arg_max_line_length args)
                                     (arg_check_links args)) files ;;
  Ok (files, all_issues).

(** Lines 260-278, from the parsed arguments on: what is written to the
    standard output (one that takes any text) and the exit status;
    [json_dumps] stands for
    [json.dumps(payload, ensure_ascii=False, indent=2)].  An exception that
    leaves [check_file] leaves [main]. *)
Definition main (H : Host) (R : Runtime) (json_dumps : list Issue.t -> str)
    (args : Args) : result (str * Z) :=
  ' (files, all_issues) <- collect H R args ;;
  let out :=
    if arg_json args then json_dumps all_issues ++ [LF]
    else flat_map issue_text all_issues ++ summary_text files all_issues in
  Ok (out, match all_issues with [] => 0%Z | _ :: _ => 1%Z end).

(** A network for examples: one host does not answer, one resource is
    missing, everything else is found. *)
Definition example_network : Network :=
  fun _ _ _ host target =>
    if str_eqb host (lit "dead.example") then Unanswered (lit "timed out")
    else if str_eqb target (lit "/missing") then Answered 404 (lit "Not Found")
    else Answered 200 (lit "OK").

(** What [f.read()] makes of the decoded text of a file opened in text mode
    with the default [newline=None] (line 72): universal newlines, CR LF and
    a lone CR are translated into LF. *)
Fixpoint universal_newlines (s : str) : str :=
  match s with
  | [] => []
  | c :: r =>
      if ischr CR c then
        match r with
        | d :: r' =>
            if ischr LF d then LF :: universal_newlines r'
            else LF :: universal_newlines r
        | [] => [LF]
        end
      else c :: universal_newlines r
  end.

(** ** Auxiliary facts *)

Lemma bind_Ok {A B} (m : result A) (k : A -> result B) (b : B) :
  bind m k = Ok b -> exists a, m = Ok a /\ k a = Ok b.
Proof. destruct m as [a|e]; simpl; [eauto | discriminate]. Qed.

Lemma bind_Raise {A B} (m : result A) (k : A -> result B) (e : exn) :
  bind m k = Raise e -> m = Raise e \/ exists a, m = Ok a /\ k a = Raise e.
Proof. destruct m as [a|e']; simpl; [eauto | intros [= ->]; auto]. Qed.

Ltac inv_bind H :=
  let a := fresh "a" in
  let Ha := fresh "Ha" in
  apply bind_Ok in H; destruct H as (a & Ha & H).

Lemma takeWhile_dropWhile {A} (p : A -> bool) (l : list A) :
  takeWhile p l ++ dropWhile p l = l.
Proof.
  induction l as [|x r IH]; simpl; [reflexivity|].
  destruct (p x); simpl; [now rewrite IH | reflexivity].
Qed.

Lemma takeWhile_all {A} (p : A -> bool) (l : list A) :
  forallb p (takeWhile p l) = true.
Proof.
  induction l as [|x r IH]; simpl; [reflexivity|].
  destruct (p x) eqn:E; simpl; [now rewrite E | reflexivity].
Qed.

Lemma list_get_nth {A} (l : list A) (k : nat) (x : A) :
  nth_error l k = Some x -> list_get l (Z.of_nat k) = Ok x.
Proof.
  intros H. unfold list_get.
  destruct (Z.ltb_spec (Z.of_nat k) 0); [lia|].
  destruct (Z.leb_spec 0 (Z.of_nat k)); [|lia].
  now rewrite Nat2Z.id, H.
Qed.

(** *** Lines of [splitlines] hold no line boundary *)

Lemma splitlines_no_linebreak (s : str) :
  Forall (fun l => forallb (fun c => negb (islinebreak c)) l = true) (splitlines s).
Proof.
  remember (length s) as n eqn:Hn.
  revert s Hn. induction n as [n IH] using lt_wf_ind. intros s Hn.
  destruct s as [|c r]; simpl; [constructor|].
  destruct (islinebreak c) eqn:Ec.
  - constructor; [reflexivity|].
    destruct (ischr CR c).
    + destruct r as [|d r'].
      * constructor.
      * destruct (ischr LF d).
        -- apply (IH (length r')); simpl in *; [lia | reflexivity].
        -- apply (IH (length (d :: r'))); simpl in *; [lia | reflexivity].
    + apply (IH (length r)); simpl in *; [lia | reflexivity].
  - assert (Hr := IH (length r) ltac:(simpl in *; lia) r eq_refl).
    destruct (splitlines r) as [|l ls].
    + constructor; [simpl; now rewrite Ec | constructor].
    + inversion Hr; subst. constructor; [simpl; rewrite Ec; assumption | assumption].
Qed.

Lemma no_linebreak_no_LF (l : str) :
  forallb (fun c => negb (islinebreak c)) l = true ->
  forallb (notchr LF) l = true.
Proof.
  rewrite !forallb_forall. intros H c Hc. specialize (H c Hc).
  unfold notchr, LF. destruct (N.eqb_spec c 10) as [->|]; [discriminate H | reflexivity].
Qed.

Lemma dot_star_eol_no_LF (s : str) :
  forallb (notchr LF) s = true -> dot_star_eol s = Some s.
Proof.
  induction s as [|c r IH]; simpl; [reflexivity|].
  intros H. apply andb_prop in H as [Hc Hr].
  unfold notchr in Hc. unfold ischr. destruct (N.eqb c LF); [discriminate|].
  now rewrite (IH Hr).
Qed.

Lemma forallb_rev {A} (p : A -> bool) (l : list A) :
  forallb p (rev l) = forallb p l.
Proof.
  induction l as [|x r IH]; simpl; [reflexivity|].
  rewrite forallb_app, IH. simpl. rewrite andb_true_r. apply andb_comm.
Qed.

Lemma TRAILING_SPACE_PAT_no_LF (line : str) :
  forallb (notchr LF) line = true ->
  TRAILING_SPACE_PAT line = ends_in_space_or_tab line.
Proof.
  intros H. rewrite <- forallb_rev in H.
  unfold TRAILING_SPACE_PAT, ends_in_space_or_tab.
  destruct (rev line) as [|c r]; [reflexivity|].
  simpl in H. apply andb_prop in H as [Hc _].
  unfold notchr in Hc. unfold ischr. now destruct (N.eqb c LF).
Qed.

(** *** Where the issues of one line come from *)

Arguments lit : simpl never.
Arguments str_of_Z : simpl never.
Arguments str_of_nat : simpl never.
Arguments slice_to : simpl never.
Arguments slice_last : simpl never.
Arguments Z.of_nat : simpl never.

Lemma from_line_nil i cs : from_line i cs [].
Proof. constructor. Qed.

Lemma from_line_app i cs a b :
  from_line i cs a -> from_line i cs b -> from_line i cs (a ++ b).
Proof. intros; apply Forall_app; split; assumption. Qed.

Lemma from_line_one i cs path col c msg ctx :
  In c cs -> from_line i cs [issue path (Z.of_nat i) col c msg ctx].
Proof. intros H. constructor; [split; [reflexivity | exact H] | constructor]. Qed.

Lemma from_line_incl i cs cs' out :
  incl cs cs' -> from_line i cs out -> from_line i cs' out.
Proof.
  intros Hi H. eapply Forall_impl; [|exact H].
  intros x [Hl Hc]. split; [exact Hl | apply Hi, Hc].
Qed.

Lemma from_line_other i cs out c :
  from_line i cs out -> ~ In c cs -> filter (has_code c) out = [].
Proof.
  intros H Hn. induction H as [|x l [_ Hx] _ IH]; simpl; [reflexivity|].
  unfold has_code at 1. destruct (String.eqb_spec (Issue.code x) c) as [E|_].
  - subst c. contradiction.
  - exact IH.
Qed.

Lemma from_line_same i c out :
  from_line i [c] out -> filter (has_code c) out = out.
Proof.
  intros H. induction H as [|x l [_ Hx] _ IH]; cbn [filter]; [reflexivity|].
  destruct Hx as [Hx|[]]. unfold has_code at 1. rewrite <- Hx, String.eqb_refl.
  now rewrite IH.
Qed.

Lemma reported_app c n a b :
  reported c n (a ++ b) = reported c n a ++ reported c n b.
Proof. apply filter_app. Qed.

Lemma reported_at_line c n i cs out :
  from_line i cs out ->
  reported c n out = if n =? i then filter (has_code c) out else [].
Proof.
  intros H. unfold reported.
  induction H as [|x l [Hl _] _ IH]; simpl; [now destruct (n =? i)|].
  rewrite IH. unfold at_line at 1. rewrite Hl.
  destruct (Nat.eqb_spec n i) as [->|Hne].
  - rewrite Z.eqb_refl, andb_true_r. reflexivity.
  - destruct (Z.eqb_spec (Z.of_nat i) (Z.of_nat n)) as [E|_]; [lia|].
    now rewrite andb_false_r.
Qed.

Lemma reported_other_code c n i cs out :
  from_line i cs out -> ~ In c cs -> reported c n out = [].
Proof.
  intros H Hn. rewrite (reported_at_line c n i cs out H).
  rewrite (from_line_other _ _ _ _ H Hn). now destruct (n =? i).
Qed.

Create HintDb codes.
#[local] Hint Resolve from_line_nil from_line_app from_line_one : codes.
#[local] Hint Extern 1 (In _ _) => simpl; tauto : codes.

Section ScanFacts.

Variable R : Runtime.
Variable path : str.
Variable max_len : Z.
Variable lines : list str.

Lemma trailing_space_from i line msg :
  from_line i ["W-TRAIL"%string] (trailing_space path i line msg).
Proof. unfold trailing_space. destruct (TRAILING_SPACE_PAT line); auto with codes. Qed.

Lemma excess_blank_from i line out :
  excess_blank path lines i line = Ok out -> from_line i ["W-MULTIBLANK"%string] out.
Proof.
  unfold excess_blank. intros H.
  destruct (3 <=? i); [|injection H as <-; auto with codes].
  inv_bind H. destruct (blank a); [|injection H as <-; auto with codes].
  inv_bind H. destruct (blank a0 && blank line); injection H as <-; auto with codes.
Qed.

Lemma line_length_from i line :
  from_line i ["W-LINELEN"%string] (line_length path max_len i line).
Proof.
  unfold line_length. destruct (_ >? _)%Z; auto with codes.
Qed.

Lemma tab_use_from i line out :
  tab_use path i line = Ok out -> from_line i ["W-TAB"%string] out.
Proof.
  unfold tab_use. intros H.
  destruct (contains TAB line); [|injection H as <-; auto with codes].
  inv_bind H. injection H as <-. auto with codes.
Qed.

Lemma heading_from i line last seen :
  from_line i heading_codes (fst (fst (heading path i line last seen))).
Proof.
  unfold heading. destruct (HEADING_PAT line) as [[hashes text]|]; simpl;
    [|auto with codes].
  repeat apply from_line_app;
    match goal with |- from_line _ _ (if ?c then _ else _) => destruct c end;
    unfold heading_codes; auto with codes.
Qed.

Lemma link_from i line lm out :
  link R path i line lm = Ok out -> from_line i link_codes out.
Proof.
  unfold link. intros H. inv_bind H. inv_bind H. injection H as <-.
  repeat apply from_line_app.
  - destruct (blank (lm_text lm)); [|auto with codes].
    destruct (ischr BANG a); unfold link_codes; auto with codes.
  - destruct (blank (lm_url lm)); unfold link_codes; auto with codes.
  - destruct (scheme a0); [auto with codes|].
    destruct (negb _); unfold link_codes; auto with codes.
Qed.

Lemma for_each_from {A} (f : A -> result (list Issue.t)) i cs xs out :
  (forall x o, f x = Ok o -> from_line i cs o) ->
  for_each f xs = Ok out -> from_line i cs out.
Proof.
  intros Hf. revert out. induction xs as [|x r IH]; simpl; intros out H.
  - injection H as <-. constructor.
  - inv_bind H. inv_bind H. injection H as <-.
    apply from_line_app; [eapply Hf; eassumption | apply IH; assumption].
Qed.

Lemma table_mismatches_from n counts out :
  table_mismatches R path n counts = Ok out -> from_line n ["W-TABLEPIPES"%string] out.
Proof.
  unfold table_mismatches. intros H. inv_bind H. injection H as <-.
  clear Ha. induction counts as [|c r IH]; cbn [flat_map]; [constructor|].
  apply from_line_app; [|exact IH].
  destruct (negb (c =? a)); auto with codes.
Qed.

Lemma table_block_from i line counts counts' out :
  table_block R path i line counts = Ok (counts', out) ->
  counts' = table_state line counts /\ from_line i ["W-TABLEPIPES"%string] out.
Proof.
  unfold table_block, table_state. intros H.
  destruct (TABLE_LINE_PAT line).
  - injection H as <- <-. split; [reflexivity | constructor].
  - destruct counts as [|c r].
    + injection H as <- <-. split; [reflexivity | constructor].
    + inv_bind H. injection H as <- <-. split; [reflexivity|].
      eapply table_mismatches_from; eassumption.
Qed.

Lemma list_indent_from i line :
  from_line i ["W-LISTTAB"%string] (list_indent path i line).
Proof.
  unfold list_indent. destruct (LIST_MARKER_PAT line) as [indent|]; [|auto with codes].
  destruct (contains TAB indent); auto with codes.
Qed.

Lemma heading_heading_state i line last seen :
  snd (fst (heading path i line last seen)) = fst (heading_state line last seen)
  /\ snd (heading path i line last seen) = snd (heading_state line last seen).
Proof.
  unfold heading, heading_state.
  destruct (HEADING_PAT line) as [[hashes text]|]; simpl; split; reflexivity.
Qed.


(** The three ways a line is scanned: as a fence delimiter, inside a fence,
    or through the checks. *)
Lemma scan_line_cases i line st st' out :
  scan_line R path max_len lines i line st = Ok (st', out) ->
  st' = next_state st line /\
  ((is_fence_line line = true /\ out = []) \/
   (is_fence_line line = false /\ in_fence st = true /\
    out = trailing_space path i line trail_in_fence_message) \/
   (is_fence_line line = false /\ in_fence st = false /\
    exists multiblank tabs links tables,
      excess_blank path lines i line = Ok multiblank /\
      from_line i ["W-MULTIBLANK"%string] multiblank /\
      from_line i ["W-TAB"%string] tabs /\
      from_line i link_codes links /\
      from_line i ["W-TABLEPIPES"%string] tables /\
      out = trailing_space path i line trail_message ++ multiblank
              ++ line_length path max_len i line ++ tabs
              ++ fst (fst (heading path i line (last_heading_level st) (seen_h1 st)))
              ++ links ++ tables ++ list_indent path i line)).
Proof.
  unfold scan_line, next_state, is_fence_line. intros H.
  destruct (CODE_FENCE_PAT line) as [[[indent marker] info]|] eqn:Ef.
  - inv_bind H. injection H as <- <-.
    unfold fence_line in Ha. destruct marker as [|m0 m']; [discriminate|].
    injection Ha as <-. split; [reflexivity | left; split; reflexivity].
  - destruct (in_fence st) eqn:Ei.
    + injection H as <- <-. split; [reflexivity|]. right; left. auto.
    + inv_bind H. inv_bind H.
      destruct (heading path i line (last_heading_level st) (seen_h1 st))
        as [[headings level] seen] eqn:Eh.
      inv_bind H. inv_bind H. destruct a2 as [counts tables].
      injection H as <- <-.
      apply table_block_from in Ha2 as [-> Ht].
      pose proof (heading_heading_state i line (last_heading_level st) (seen_h1 st)) as [Hl Hs].
      rewrite Eh in Hl, Hs. simpl in Hl, Hs.
      destruct (heading_state line (last_heading_level st) (seen_h1 st)) as [level' seen'].
      simpl in Hl, Hs. subst level' seen'.
      split; [reflexivity|]. right; right. split; [reflexivity|]. split; [reflexivity|].
      exists a, a0, a1, tables.
      split; [assumption|].
      split; [eapply excess_blank_from; eassumption|].
      split; [eapply tab_use_from; eassumption|].
      split; [eapply for_each_from; [|eassumption]; intros x o; apply link_from|].
      split; [assumption | reflexivity].
Qed.

Lemma scan_line_from i line st st' out :
  scan_line R path max_len lines i line st = Ok (st', out) ->
  from_line i loop_codes out.
Proof.
  intros H. apply scan_line_cases in H as [_ [[_ ->]|[(_ & _ & ->)|(_ & _ & H)]]].
  - constructor.
  - eapply from_line_incl; [|apply trailing_space_from].
    intros c [<-|[]]; simpl; tauto.
  - destruct H as (mb & tabs & links & tables & Hex & Hmb & Htab & Hl & Ht & ->).
    repeat apply from_line_app;
      (eapply from_line_incl;
       [|first [apply trailing_space_from | exact Hmb | apply line_length_from
               | exact Htab | apply heading_from | exact Hl | exact Ht
               | apply list_indent_from]]);
      intros c Hc; simpl in Hc; simpl; tauto.
Qed.

End ScanFacts.

(** *** The loop *)

Section LoopFacts.

Variable R : Runtime.
Variable path : str.
Variable max_len : Z.
Variable lines : list str.

Let loop := scan_loop R path max_len lines.
Let step := scan_line R path max_len lines.

Lemma scan_loop_state i todo st st' out :
  loop i todo st = Ok (st', out) -> st' = fold_left next_state todo st.
Proof.
  subst loop. revert i st out. induction todo as [|l r IH]; simpl; intros i st out H.
  - now injection H as <- _.
  - inv_bind H. destruct a as [st1 o1]. inv_bind H. destruct a as [st2 o2].
    injection H as <- _.
    apply scan_line_cases in Ha as [-> _]. eapply IH; eassumption.
Qed.

Lemma from_line_within i out : from_line i loop_codes out -> within i (S i) out.
Proof.
  intros H. eapply Forall_impl; [|exact H]. intros x [Hl Hc]. split; [lia | exact Hc].
Qed.

Lemma within_weaken lo hi lo' hi' out :
  lo' <= lo -> hi <= hi' -> within lo hi out -> within lo' hi' out.
Proof.
  intros H1 H2 H. eapply Forall_impl; [|exact H]. intros x [Hl Hc]. split; [lia | exact Hc].
Qed.

Lemma scan_loop_within i todo st st' out :
  loop i todo st = Ok (st', out) -> within i (i + length todo) out.
Proof.
  subst loop. revert i st st' out.
  induction todo as [|l r IH]; simpl; intros i st st' out H.
  - injection H as _ <-. constructor.
  - inv_bind H. destruct a as [st1 o1]. inv_bind H. destruct a as [st2 o2].
    injection H as _ <-. apply Forall_app. split.
    + apply scan_line_from in Ha. apply from_line_within in Ha.
      eapply within_weaken; [| |exact Ha]; lia.
    + apply IH in Ha0. eapply within_weaken; [| |exact Ha0]; lia.
Qed.

Lemma scan_loop_split i a line b st st' out :
  loop i (a ++ line :: b) st = Ok (st', out) ->
  exists st1 o1 st2 o2 o3,
    loop i a st = Ok (st1, o1) /\
    step (i + length a) line st1 = Ok (st2, o2) /\
    loop (S (i + length a)) b st2 = Ok (st', o3) /\
    out = o1 ++ o2 ++ o3.
Proof.
  subst loop step. revert i st out. induction a as [|l r IH]; simpl; intros i st out H.
  - inv_bind H. destruct a as [st2 o2]. inv_bind H. destruct a as [st3 o3].
    injection H as <- <-. rewrite Nat.add_0_r.
    exists st, [], st2, o2, o3. auto.
  - inv_bind H. destruct a as [st1 o1]. inv_bind H. destruct a as [st2 o2].
    injection H as <- <-.
    apply IH in Ha0 as (sa & oa & sb & ob & oc & H1 & H2 & H3 & ->).
    exists sa, (o1 ++ oa), sb, ob, oc.
    replace (i + S (length r)) with (S i + length r) by lia.
    split; [simpl; rewrite Ha; simpl; rewrite H1; reflexivity|].
    rewrite app_assoc. auto.
Qed.

Lemma reported_outside c n lo hi out :
  within lo hi out -> n < lo \/ hi <= n -> reported c n out = [].
Proof.
  intros H Hn. unfold reported.
  induction H as [|x l [Hl _] _ IH]; simpl; [reflexivity|].
  rewrite IH. unfold at_line.
  destruct (Z.eqb_spec (Issue.line x) (Z.of_nat n)); [lia|].
  now rewrite andb_false_r.
Qed.

(** The issues of code [c] at line [k + 1] are those of that code which the
    body of the loop appends for that line, run in the state reached after
    the [k] lines before it. *)
Lemma scan_loop_reported c k line todo st0 stf out :
  loop 1 todo st0 = Ok (stf, out) ->
  nth_error todo k = Some line ->
  exists st' o,
    step (S k) line (fold_left next_state (firstn k todo) st0) = Ok (st', o) /\
    reported c (S k) out = filter (has_code c) o.
Proof.
  intros H Hk.
  destruct (nth_error_split todo k Hk) as (a & b & -> & <-).
  apply scan_loop_split in H as (st1 & o1 & st2 & o2 & o3 & H1 & H2 & H3 & ->).
  rewrite firstn_app, firstn_all, Nat.sub_diag. cbn [firstn]. rewrite app_nil_r.
  rewrite <- (scan_loop_state _ _ _ _ _ H1).
  simpl in H2. exists st2, o2. split; [exact H2|].
  rewrite !reported_app.
  rewrite (reported_outside c _ _ _ _ (scan_loop_within _ _ _ _ _ H1)) by lia.
  rewrite (reported_outside c _ _ _ _ (scan_loop_within _ _ _ _ _ H3)) by lia.
  rewrite app_nil_r. simpl.
  subst step. apply scan_line_from in H2.
  rewrite (reported_at_line _ _ _ _ _ H2), Nat.eqb_refl. reflexivity.
Qed.

End LoopFacts.

(** *** The whole scan *)

Lemma check_file_Text R path raw max_len issues :
  check_file R path (Text raw) max_len false = Ok issues ->
  exists st found tables,
    scan_loop R path max_len (splitlines raw) 1 (splitlines raw) initial_state
      = Ok (st, found) /\
    from_line (length (splitlines raw)) ["W-TABLEPIPES"%string] tables /\
    issues = crlf_check path raw ++ eof_newline_check path raw ++ found
               ++ open_fence_check path st (length (splitlines raw)) ++ tables.
Proof.
  unfold check_file, scan_text. intros H.
  inv_bind H. injection H as <-.
  inv_bind Ha. destruct a0 as [st found]. inv_bind Ha. injection Ha as <-.
  exists st, found, a0. split; [assumption|]. split; [|reflexivity].
  unfold open_table_check in Ha1.
  destruct (table_block_pipe_counts st); [injection Ha1 as <-; constructor|].
  eapply table_mismatches_from; eassumption.
Qed.

Lemma reported_one_other c n path l col c' msg ctx :
  c' <> c -> reported c n [issue path l col c' msg ctx] = [].
Proof.
  intros H. unfold reported, has_code. cbn [filter issue Issue.code].
  destruct (String.eqb_spec c' c); [contradiction | reflexivity].
Qed.

(** A code of the loop body is reported at a line by the body alone, for
    that line. *)
Lemma check_file_reported R path raw max_len issues c k line :
  check_file R path (Text raw) max_len false = Ok issues ->
  nth_error (splitlines raw) k = Some line ->
  ~ In c document_codes ->
  exists st' o,
    scan_line R path max_len (splitlines raw) (S k) line
      (state_before (splitlines raw) k) = Ok (st', o) /\
    reported c (S k) issues = filter (has_code c) o.
Proof.
  intros H Hk Hc.
  apply check_file_Text in H as (st & found & tables & Hloop & Ht & ->).
  destruct (scan_loop_reported R path max_len _ c k line _ _ _ _ Hloop Hk)
    as (st' & o & Hstep & Hrep).
  exists st', o. split; [exact Hstep|].
  rewrite !reported_app, Hrep.
  assert (E1 : reported c (S k) (crlf_check path raw) = []).
  { unfold crlf_check. destruct (CRLF_PAT raw); [|reflexivity].
    apply reported_one_other. intros <-. apply Hc. simpl. tauto. }
  assert (E2 : reported c (S k) (eof_newline_check path raw) = []).
  { unfold eof_newline_check. destruct (negb _); [|reflexivity].
    apply reported_one_other. intros <-. apply Hc. simpl. tauto. }
  assert (E3 : reported c (S k)
                 (open_fence_check path st (length (splitlines raw))) = []).
  { unfold open_fence_check. destruct (in_fence st); [|reflexivity].
    apply reported_one_other. intros <-. apply Hc. simpl. tauto. }
  assert (E4 : reported c (S k) tables = []).
  { eapply reported_other_code; [exact Ht|].
    intros [<-|[]]. apply Hc. simpl. tauto. }
  rewrite E1, E2, E3, E4, app_nil_r. reflexivity.
Qed.

(** ** Properties of the scan *)

Lemma splitlines_line_no_LF raw k line :
  nth_error (splitlines raw) k = Some line -> forallb (notchr LF) line = true.
Proof.
  intros H. apply nth_error_In in H.
  pose proof (splitlines_no_linebreak raw) as Hall.
  rewrite Forall_forall in Hall. apply no_linebreak_no_LF, Hall, H.
Qed.

Ltac not_in_codes := simpl; intuition discriminate.

Lemma within_other lo hi out c :
  within lo hi out -> ~ In c loop_codes -> filter (has_code c) out = [].
Proof.
  intros H Hn. induction H as [|x l [_ Hx] _ IH]; simpl; [reflexivity|].
  unfold has_code at 1. destruct (String.eqb_spec (Issue.code x) c) as [E|_].
  - subst c. contradiction.
  - exact IH.
Qed.

(** *** Trailing white space *)

Lemma trailing_space_length path i line msg :
  length (trailing_space path i line msg) = if TRAILING_SPACE_PAT line then 1 else 0.
Proof. unfold trailing_space. now destruct (TRAILING_SPACE_PAT line). Qed.

Lemma trailing_space_col path i line msg :
  Forall (fun x => Issue.col x = Z.of_nat (length line)) (trailing_space path i line msg).
Proof.
  unfold trailing_space. destruct (TRAILING_SPACE_PAT line); repeat constructor.
Qed.

Lemma scan_line_trail R path max_len lines i line st st' out :
  scan_line R path max_len lines i line st = Ok (st', out) ->
  exists msg,
    filter (has_code "W-TRAIL") out =
    if is_fence_line line then [] else trailing_space path i line msg.
Proof.
  intros H. apply scan_line_cases in H as [_ [[-> ->]|[(-> & _ & ->)|(-> & _ & H)]]].
  - exists []. reflexivity.
  - exists trail_in_fence_message. eapply from_line_same, trailing_space_from.
  - destruct H as (mb & tabs & links & tables & Hex & Hmb & Htab & Hl & Ht & ->).
    exists trail_message. rewrite !filter_app.
    rewrite (from_line_same _ _ _ (trailing_space_from path i line trail_message)).
    rewrite (from_line_other _ _ _ "W-TRAIL" Hmb) by not_in_codes.
    rewrite (from_line_other _ _ _ "W-TRAIL" (line_length_from path max_len i line))
      by not_in_codes.
    rewrite (from_line_other _ _ _ "W-TRAIL" Htab) by not_in_codes.
    rewrite (from_line_other _ _ _ "W-TRAIL" (heading_from path i line _ _))
      by not_in_codes.
    rewrite (from_line_other _ _ _ "W-TRAIL" Hl) by not_in_codes.
    rewrite (from_line_other _ _ _ "W-TRAIL" Ht) by not_in_codes.
    rewrite (from_line_other _ _ _ "W-TRAIL" (list_indent_from path i line))
      by not_in_codes.
    now rewrite !app_nil_r.
Qed.

(** C3, as the code has it: a line ending in a space or a tab gets exactly
    one W-TRAIL, at that line and with the length of the line as column,
    when it is scanned outside a fence or inside an open fence; a line of
    the fence pattern gets none, and neither does any other line. *)
Theorem trailing_space_reported R path raw max_len issues k line :
  check_file R path (Text raw) max_len false = Ok issues ->
  nth_error (splitlines raw) k = Some line ->
  length (reported "W-TRAIL" (S k) issues) =
    (if ends_in_space_or_tab line && negb (is_fence_line line) then 1 else 0)
  /\ Forall (fun x => Issue.col x = Z.of_nat (length line))
       (reported "W-TRAIL" (S k) issues).
Proof.
  intros H Hk.
  destruct (check_file_reported R path raw max_len issues "W-TRAIL" k line H Hk)
    as (st' & o & Hstep & ->); [not_in_codes|].
  apply scan_line_trail in Hstep as [msg ->].
  rewrite <- (TRAILING_SPACE_PAT_no_LF line (splitlines_line_no_LF raw k line Hk)).
  destruct (is_fence_line line); simpl.
  - rewrite andb_false_r. split; [reflexivity | constructor].
  - rewrite andb_true_r, trailing_space_length. split; [reflexivity|].
    apply trailing_space_col.
Qed.

(** C3, the claim as stated fails: the fence delimiter of line 1 ends in a
    space and no W-TRAIL is reported for it. *)
Lemma trailing_space_on_fence_delimiter :
  let raw := text_of ["``` "; "```"]%string in
  nth_error (splitlines raw) 0 = Some (lit "``` ")
  /\ ends_in_space_or_tab (lit "``` ") = true
  /\ is_fence_line (lit "``` ") = true
  /\ forall R path, check_file R path (Text raw) 120 false = Ok [].
Proof. repeat split. Qed.

Lemma trailing_space_reported_witness :
  let raw := text_of ["```"; "x "; "```"]%string in
  let issues :=
    [issue (lit "a.md") 2 2 "W-TRAIL" trail_in_fence_message (lit "x ")] in
  check_file plain_runtime (lit "a.md") (Text raw) 120 false = Ok issues
  /\ length (reported "W-TRAIL" 2 issues) = 1
  /\ Forall (fun x => Issue.col x = 2%Z) (reported "W-TRAIL" 2 issues).
Proof.
  split; [reflexivity|].
  apply (trailing_space_reported plain_runtime (lit "a.md")
           (text_of ["```"; "x "; "```"]%string) 120 _ 1 (lit "x "));
    reflexivity.
Defined.

(** *** Unclosed fences *)

Lemma fence_step_agrees st open indent m0 :
  fence_agrees st open ->
  fence_agrees (fence_step st indent m0)
    (match open with
     | None => Some (m0, indent)
     | Some (f, ind) => if N.eqb m0 f && str_eqb indent ind then None else open
     end).
Proof.
  unfold fence_agrees, fence_step. destruct open as [[f ind]|].
  - intros (Hi & Hm & Hd). rewrite Hi, Hm, Hd. simpl.
    destruct (N.eqb m0 f && str_eqb indent ind); simpl; auto.
  - intros Hi. rewrite Hi. simpl. auto.
Qed.

Lemma next_state_agrees st open line :
  fence_agrees st open -> fence_agrees (next_state st line) (fence_track open line).
Proof.
  intros H. unfold next_state, fence_track.
  destruct (CODE_FENCE_PAT line) as [[[indent marker] info]|].
  - destruct marker as [|m0 m']; [exact H|]. now apply fence_step_agrees.
  - destruct (in_fence st) eqn:Ei; [exact H|].
    destruct (heading_state line _ _) as [level seen].
    destruct open as [[f ind]|]; simpl in *;
      [destruct H as [H _]; congruence | reflexivity].
Qed.

Lemma fold_agrees ls st open :
  fence_agrees st open ->
  fence_agrees (fold_left next_state ls st) (fold_left fence_track ls open).
Proof.
  revert st open. induction ls as [|l r IH]; simpl; intros st open H; [exact H|].
  apply IH, next_state_agrees, H.
Qed.

Lemma in_fence_open_fence lines :
  in_fence (fold_left next_state lines initial_state) =
  match open_fence lines with Some _ => true | None => false end.
Proof.
  pose proof (fold_agrees lines initial_state None eq_refl) as H.
  unfold open_fence. destruct (fold_left fence_track lines None) as [[f ind]|];
    simpl in H; [apply H | exact H].
Qed.

(** Where the scan returns its list: when no fence is left open at the end
    of the lines no E-FENCE is reported; when one is, exactly one E-FENCE is
    reported, and it is at the last line of the document. *)
Lemma unclosed_fence_reported R path raw max_len issues :
  check_file R path (Text raw) max_len false = Ok issues ->
  match open_fence (splitlines raw) with
  | None => filter (has_code "E-FENCE") issues = []
  | Some _ =>
      exists x,
        filter (has_code "E-FENCE") issues = [x]
        /\ Issue.line x = Z.of_nat (length (splitlines raw))
        /\ nth_error (splitlines raw) (length (splitlines raw) - 1) <> None
  end.
Proof.
  intros H.
  apply check_file_Text in H as (st & found & tables & Hloop & Ht & ->).
  pose proof (scan_loop_state _ _ _ _ _ _ _ _ _ Hloop) as Hst.
  apply scan_loop_within in Hloop.
  rewrite !filter_app.
  rewrite (within_other _ _ _ "E-FENCE" Hloop) by not_in_codes.
  rewrite (from_line_other _ _ _ "E-FENCE" Ht) by not_in_codes.
  assert (E1 : filter (has_code "E-FENCE") (crlf_check path raw) = []).
  { unfold crlf_check. now destruct (CRLF_PAT raw). }
  assert (E2 : filter (has_code "E-FENCE") (eof_newline_check path raw) = []).
  { unfold eof_newline_check. now destruct (negb _). }
  rewrite E1, E2, app_nil_r. cbn [app].
  unfold open_fence_check. rewrite Hst, in_fence_open_fence.
  destruct (open_fence (splitlines raw)) as [[f ind]|] eqn:Eo; [|reflexivity].
  eexists. split; [reflexivity|]. split; [reflexivity|].
  destruct (splitlines raw) as [|l ls]; [discriminate Eo|].
  apply nth_error_Some. simpl. lia.
Qed.

Lemma unclosed_fence_reported_example :
  let raw := text_of ["a"; "~~~"; "b"]%string in
  let issues :=
    [issue (lit "a.md") 3 1 "E-FENCE" fence_message []] in
  check_file plain_runtime (lit "a.md") (Text raw) 120 false = Ok issues
  /\ open_fence (splitlines raw) = Some (TILDE, [])
  /\ exists x, filter (has_code "E-FENCE") issues = [x] /\ Issue.line x = 3%Z
       /\ nth_error (splitlines raw) 2 <> None.
Proof.
  split; [reflexivity|]. split; [reflexivity|].
  apply (unclosed_fence_reported plain_runtime (lit "a.md")
           (text_of ["a"; "~~~"; "b"]%string) 120 _ eq_refl).
Qed.

(** C5, on the code: a document that ends with a fence still open gets no
    E-FENCE when a link target on one of its lines makes [urlparse] raise:
    line 174 is outside any [try], so the scan raises before the test of
    lines 203-204 and no list is returned.  On every document for which the
    scan returns its list the claim holds: no E-FENCE when no fence is left
    open, exactly one, at the last line, when one is. *)
Theorem unclosed_fence_lost_on_raise R path :
  open_fence (splitlines (text_of ["[a](//[)"; "```"; "b"]%string))
  = Some (BACKTICK, [])
  /\ check_file R path (Text (text_of ["[a](//[)"; "```"; "b"]%string)) 120 false
     = Raise (ValueError (lit "Invalid IPv6 URL"))
  /\ forall raw max_len issues,
       check_file R path (Text raw) max_len false = Ok issues ->
       match open_fence (splitlines raw) with
       | None => filter (has_code "E-FENCE") issues = []
       | Some _ =>
           exists x,
             filter (has_code "E-FENCE") issues = [x]
             /\ Issue.line x = Z.of_nat (length (splitlines raw))
             /\ nth_error (splitlines raw) (length (splitlines raw) - 1) <> None
       end.
Proof.
  split; [reflexivity|]. split; [reflexivity|].
  intros raw max_len issues. apply unclosed_fence_reported.
Qed.

(** *** Headings *)

Lemma filter_if_other c c' (b : bool) path l col msg ctx :
  c' <> c ->
  filter (has_code c) (if b then [issue path l col c' msg ctx] else []) = [].
Proof.
  intros H. destruct b; [|reflexivity].
  cbn [filter]. unfold has_code, issue. cbn [Issue.code].
  destruct (String.eqb_spec c' c); [contradiction | reflexivity].
Qed.

Lemma filter_if_same c (b : bool) path l col msg ctx :
  filter (has_code c) (if b then [issue path l col c msg ctx] else []) =
  if b then [issue path l col c msg ctx] else [].
Proof.
  destruct b; [|reflexivity].
  cbn [filter]. unfold has_code, issue. cbn [Issue.code].
  now rewrite String.eqb_refl.
Qed.


Lemma heading_headspace path i line last seen hashes text :
  HEADING_PAT line = Some (hashes, text) ->
  filter (has_code "E-HEADSPACE") (fst (fst (heading path i line last seen))) =
  if negb (startswith (hashes ++ [SPACE]) line)
  then [issue path (Z.of_nat i) (Z.of_nat (length hashes) + 1) "E-HEADSPACE"
          headspace_message (slice_to line 80)]
  else [].
Proof.
  intros H. unfold heading. rewrite H. cbn [fst]. rewrite !filter_app.
  rewrite filter_if_same. rewrite !filter_if_other by discriminate.
  now rewrite !app_nil_r.
Qed.

Lemma heading_none path i line last seen :
  HEADING_PAT line = None -> fst (fst (heading path i line last seen)) = [].
Proof. intros H. unfold heading. now rewrite H. Qed.

(** The issues of a heading code [c] that one line adds: those of the
    heading check, when the line reaches the checks. *)
Lemma scan_line_heading R path max_len lines i line st st' out c :
  scan_line R path max_len lines i line st = Ok (st', out) ->
  In c heading_codes ->
  filter (has_code c) out =
  if checked st line
  then filter (has_code c)
         (fst (fst (heading path i line (last_heading_level st) (seen_h1 st))))
  else [].
Proof.
  intros H Hc. unfold checked.
  apply scan_line_cases in H as [_ [[-> ->]|[(-> & -> & ->)|(-> & -> & H)]]].
  - reflexivity.
  - simpl. eapply from_line_other; [apply trailing_space_from|].
    intros [<-|[]]. revert Hc. not_in_codes.
  - destruct H as (mb & tabs & links & tables & Hex & Hmb & Htab & Hl & Ht & ->).
    simpl. rewrite !filter_app.
    rewrite (from_line_other _ _ _ c (trailing_space_from path i line trail_message))
      by (intros [<-|[]]; revert Hc; not_in_codes).
    rewrite (from_line_other _ _ _ c Hmb)
      by (intros [<-|[]]; revert Hc; not_in_codes).
    rewrite (from_line_other _ _ _ c (line_length_from path max_len i line))
      by (intros [<-|[]]; revert Hc; not_in_codes).
    rewrite (from_line_other _ _ _ c Htab)
      by (intros [<-|[]]; revert Hc; not_in_codes).
    rewrite (from_line_other _ _ _ c Hl)
      by (unfold link_codes; intros Hin; simpl in Hin, Hc;
          intuition (subst; discriminate)).
    rewrite (from_line_other _ _ _ c Ht)
      by (intros [<-|[]]; revert Hc; not_in_codes).
    rewrite (from_line_other _ _ _ c (list_indent_from path i line))
      by (intros [<-|[]]; revert Hc; not_in_codes).
    now rewrite !app_nil_r.
Qed.

Lemma state_before_S lines k line :
  nth_error lines k = Some line ->
  state_before lines (S k) = next_state (state_before lines k) line.
Proof.
  intros H. unfold state_before.
  destruct (nth_error_split lines k H) as (a & b & -> & <-).
  assert (E0 : firstn (length a) (a ++ line :: b) = a).
  { rewrite <- (Nat.add_0_r (length a)), firstn_app_2. apply app_nil_r. }
  assert (E1 : firstn (S (length a)) (a ++ line :: b) = a ++ [line]).
  { replace (S (length a)) with (length a + 1) by lia. now rewrite firstn_app_2. }
  now rewrite E0, E1, fold_left_app.
Qed.

Lemma fence_step_heading st indent m0 :
  last_heading_level (fence_step st indent m0) = last_heading_level st.
Proof.
  unfold fence_step. destruct (negb (in_fence st)); [reflexivity|].
  destruct (fence_marker st); [|reflexivity].
  now destruct (N.eqb m0 c && str_eqb indent (fence_indent st)).
Qed.

(** [last_heading_level] is the level of the previous heading: the latest
    heading line scanned outside the fences, and 0 before the first one. *)
Lemma last_heading_level_spec ls st :
  last_heading_level (fold_left next_state ls st) =
  latest_heading_level (last_heading_level st) (checked_lines st ls).
Proof.
  revert st. induction ls as [|l r IH]; intros st; [reflexivity|].
  cbn [fold_left checked_lines]. rewrite IH. unfold latest_heading_level.
  rewrite fold_left_app. f_equal.
  unfold checked, is_fence_line, next_state.
  destruct (CODE_FENCE_PAT l) as [[[indent marker] info]|].
  - simpl. destruct marker; [reflexivity | apply fence_step_heading].
  - destruct (in_fence st); [reflexivity|]. simpl.
    unfold heading_state. now destruct (HEADING_PAT l) as [[hashes text]|].
Qed.




Lemma takeWhile_cons_length {A} (p : A -> bool) (l : list A) (n : nat) :
  S n <= length (takeWhile p l) ->
  exists c r, l = c :: r /\ p c = true /\ n <= length (takeWhile p r).
Proof.
  destruct l as [|c r]; simpl; [lia|].
  destruct (p c) eqn:E; simpl; [|lia].
  intros H. exists c, r. repeat split; [exact E | lia].
Qed.

Lemma seven_hashes line :
  7 <= length (takeWhile (ischr HASH) line) ->
  exists r, line = HASH :: HASH :: HASH :: HASH :: HASH :: HASH :: HASH :: r.
Proof.
  intros H.
  do 7 (apply takeWhile_cons_length in H as (? & ? & -> & ?%N.eqb_eq & H); subst).
  eexists. reflexivity.
Qed.

(** Where the scan returns its list: a line scanned outside the fences that begins with seven or more
    '#' matches the heading pattern with the first six '#' as its marker,
    leaves the heading level at 6, and gets exactly one E-HEADSPACE, at
    column 7. *)
Lemma seven_hashes_heading R path raw max_len issues k line :
  check_file R path (Text raw) max_len false = Ok issues ->
  nth_error (splitlines raw) k = Some line ->
  in_fence (state_before (splitlines raw) k) = false ->
  7 <= length (takeWhile (ischr HASH) line) ->
  HEADING_PAT line = Some (repeat HASH 6, skipn 6 line)
  /\ last_heading_level (state_before (splitlines raw) (S k)) = 6
  /\ exists x,
       reported "E-HEADSPACE" (S k) issues = [x] /\ Issue.col x = 7%Z.
Proof.
  intros H Hk Hout Hseven.
  pose proof (splitlines_line_no_LF raw k line Hk) as Hlf.
  destruct (seven_hashes line Hseven) as [r ->].
  assert (Hr : forallb (notchr LF) r = true).
  { cbn in Hlf. exact Hlf. }
  assert (Eh : HEADING_PAT (HASH :: HASH :: HASH :: HASH :: HASH :: HASH :: HASH :: r)
               = Some (repeat HASH 6, HASH :: r)).
  { unfold HEADING_PAT. cbn. now rewrite (dot_star_eol_no_LF r Hr). }
  assert (Ef : is_fence_line (HASH :: HASH :: HASH :: HASH :: HASH :: HASH :: HASH :: r)
               = false) by reflexivity.
  split; [exact Eh|]. split.
  - rewrite (state_before_S _ _ _ Hk). unfold next_state.
    unfold is_fence_line in Ef.
    destruct (CODE_FENCE_PAT _); [discriminate Ef|].
    rewrite Hout. unfold heading_state. rewrite Eh. reflexivity.
  - destruct (check_file_reported R path raw max_len issues "E-HEADSPACE" k _ H Hk)
      as (st' & o & Hstep & ->); [not_in_codes|].
    rewrite (scan_line_heading _ _ _ _ _ _ _ _ _ "E-HEADSPACE" Hstep)
      by (simpl; tauto).
    unfold checked. rewrite Ef, Hout. cbn [negb andb].
    rewrite (heading_headspace _ _ _ _ _ _ _ Eh).
    eexists. split; reflexivity.
Qed.

Lemma seven_hashes_heading_example :
  let raw := text_of ["########"]%string in
  let issues :=
    [issue (lit "a.md") 1 7 "E-HEADSPACE"
       headspace_message (lit "########")] in
  check_file plain_runtime (lit "a.md") (Text raw) 120 false = Ok issues
  /\ HEADING_PAT (lit "########") = Some (lit "######", lit "##")
  /\ last_heading_level (state_before (splitlines raw) 1) = 6
  /\ exists x, reported "E-HEADSPACE" 1 issues = [x] /\ Issue.col x = 7%Z.
Proof.
  split; [reflexivity|].
  apply (seven_hashes_heading plain_runtime (lit "a.md")
           (text_of ["########"]%string) 120 _ 0 (lit "########"));
    [reflexivity | reflexivity | reflexivity | vm_compute; lia].
Qed.

(** C10, on the code: a line that begins with seven '#' is read as a
    heading whose marker is the first six, but E-HEADSPACE is not always
    emitted for it: when a link target (here on the same line) makes
    [urlparse] raise at line 174, the scan raises and no list is returned.
    On every document for which the scan returns its list the claim holds:
    the marker is the first six '#', the level recorded is 6, and exactly
    one E-HEADSPACE is reported for the line, at column 7. *)
Theorem seven_hashes_lost_on_raise R path :
  HEADING_PAT (lit "####### [a](//[)") = Some (lit "######", lit "# [a](//[)")
  /\ check_file R path (Text (text_of ["####### [a](//[)"]%string)) 120 false
     = Raise (ValueError (lit "Invalid IPv6 URL"))
  /\ forall raw max_len issues k line,
       check_file R path (Text raw) max_len false = Ok issues ->
       nth_error (splitlines raw) k = Some line ->
       in_fence (state_before (splitlines raw) k) = false ->
       7 <= length (takeWhile (ischr HASH) line) ->
       HEADING_PAT line = Some (repeat HASH 6, skipn 6 line)
       /\ last_heading_level (state_before (splitlines raw) (S k)) = 6
       /\ exists x,
            reported "E-HEADSPACE" (S k) issues = [x] /\ Issue.col x = 7%Z.
Proof.
  split; [reflexivity|]. split; [reflexivity|].
  intros raw max_len issues k line. apply seven_hashes_heading.
Qed.

(** *** The scan state *)

Lemma fence_step_table st indent m0 :
  table_block_pipe_counts (fence_step st indent m0) = table_block_pipe_counts st.
Proof.
  unfold fence_step. destruct (negb (in_fence st)); [reflexivity|].
  destruct (fence_marker st); [|reflexivity].
  now destruct (N.eqb m0 c && str_eqb indent (fence_indent st)).
Qed.

Lemma table_counts_fold ls st :
  table_block_pipe_counts (fold_left next_state ls st) =
  fold_left (fun acc l => table_state l acc) (checked_lines st ls)
    (table_block_pipe_counts st).
Proof.
  revert st. induction ls as [|l r IH]; intros st; [reflexivity|].
  cbn [fold_left checked_lines]. rewrite IH, fold_left_app. f_equal.
  unfold checked, is_fence_line, next_state.
  destruct (CODE_FENCE_PAT l) as [[[indent marker] info]|].
  - simpl. destruct marker; [reflexivity | apply fence_step_table].
  - destruct (in_fence st); [reflexivity|]. simpl.
    now destruct (heading_state l _ _).
Qed.

Lemma table_state_fold cl :
  fold_left (fun acc l => table_state l acc) cl [] =
  map (count_char PIPE) (trailing_rows cl).
Proof.
  induction cl as [|l cl IH] using rev_ind; [reflexivity|].
  rewrite fold_left_app. cbn [fold_left]. rewrite IH.
  unfold trailing_rows, table_state. rewrite rev_app_distr. cbn [rev app takeWhile].
  destruct (TABLE_LINE_PAT l); [|reflexivity].
  cbn [rev]. now rewrite map_app.
Qed.





(** *** The newline at the end of the text *)









(** *** A file that cannot be read *)

(** C8: when reading the file fails, [check_file] returns, whatever the
    runtime, the threshold and the link option, the list of exactly one
    issue: it names the file, line 0 and column 0, has the code E-READ and
    no context, and its message is the fixed text of line 75 followed by
    the text of the exception, which can be read back from it (what follows
    the first 14 characters).  Nothing is scanned and nothing is raised. *)
Theorem unreadable_file_reported R path e max_len check_links :
  exists x,
    check_file R path (ReadFailed e) max_len check_links = Ok [x]
    /\ Issue.file x = path /\ Issue.line x = 0%Z /\ Issue.col x = 0%Z
    /\ Issue.code x = "E-READ"%string /\ Issue.context x = []
    /\ Issue.message x = lit "파일을 열 수 없습니다: " ++ e
    /\ skipn 14 (Issue.message x) = e.
Proof.
  eexists. split; [reflexivity|]. repeat (split; [reflexivity|]).
  reflexivity.
Qed.

(** *** Runs of the scan on the documents of the claims *)

(** C1, on the code: a run of exactly two blank lines (lines 2 and 3) gets
    W-MULTIBLANK at its second line.  Line 127 reads [lines[i-2]] and
    [lines[i-1]], the previous line and the current one, and not the line
    two before. *)
Theorem two_blank_lines_reported R path :
  check_file R path (Text (text_of ["a"; ""; ""; "b"]%string)) 120 false
  = Ok [issue path 3 1 "W-MULTIBLANK" multiblank_message []].
Proof. reflexivity. Qed.

(** C2, on the code: the image without alternative text and the link with
    the ftp scheme are reported as claimed; the link with the empty target
    is not a match of the link pattern, whose target group needs one
    character at least, and nothing is reported for it. *)
Theorem link_examples R path :
  check_file R path (Text (text_of ["![](img.png)"]%string)) 120 false
  = Ok [issue path 1 1 "E-NOALTTEXT"
          noalt_message (lit "![](img.png)")]
  /\ LINK_PAT_finditer (lit "[text]()") = []
  /\ check_file R path (Text (text_of ["[text]()"]%string)) 120 false = Ok []
  /\ check_file R path (Text (text_of ["[](ftp://host/x)"]%string)) 120 false
     = Ok [issue path 1 1 "W-EMPTYLINKTEXT" emptylinktext_message
             (lit "[](ftp://host/x)");
           issue path 1 1 "W-SCHEME" (scheme_message (lit "ftp"))
             (lit "ftp://host/x")].
Proof. repeat split. Qed.

(** C9, on the code: [urlparse] raises ValueError for a link target whose
    network location has an unbalanced bracket; line 174 is outside any
    [try], and the scan of the document raises instead of returning. *)
Theorem scan_raises_on_unbalanced_bracket R path :
  check_file R path (Text (text_of ["[a](//[)"]%string)) 120 false
  = Raise (ValueError (lit "Invalid IPv6 URL")).
Proof. reflexivity. Qed.

(** *** The guards of the partial operations *)


Lemma for_each_Raise {A B} (f : A -> result (list B)) xs e :
  for_each f xs = Raise e -> exists x, In x xs /\ f x = Raise e.
Proof.
  induction xs as [|x r IH]; simpl; [discriminate|].
  intros H. apply bind_Raise in H as [H|(ys & _ & H)].
  - exists x. auto.
  - apply bind_Raise in H as [H|(zs & _ & H)]; [|discriminate H].
    destruct (IH H) as (y & Hy & Hf). exists y. auto.
Qed.

Lemma str_find_contains c s : contains c s = true -> exists k, str_find c s = Some k.
Proof.
  induction s as [|d r IH]; simpl; [discriminate|].
  destruct (ischr c d); [eauto|]. simpl. intros H.
  destruct (IH H) as [k ->]. simpl. eauto.
Qed.

Section Guards.

Variable R : Runtime.
Variable path : str.
Variable max_len : Z.
Variable lines : list str.

(** [lines[i-2]] and [lines[i-1]] are in range whenever they are read:
    [i >= 3] guards both, and line [i] is a line of [lines]. *)
Lemma excess_blank_guarded i line :
  nth_error lines (i - 1) = Some line -> 1 <= i ->
  excess_blank path lines i line =
  Ok (if (3 <=? i) && blank (nth (i - 2) lines []) && blank line
      then [issue path (Z.of_nat i) 1 "W-MULTIBLANK"
              multiblank_message []]
      else []).
Proof.
  intros Hl Hi. unfold excess_blank.
  destruct (Nat.leb_spec 3 i) as [H3|_]; [|reflexivity].
  assert (Hlen : i - 1 < length lines) by (apply nth_error_Some; congruence).
  destruct (nth_error lines (i - 2)) as [before|] eqn:Eb;
    [|apply nth_error_None in Eb; lia].
  replace (Z.of_nat i - 2)%Z with (Z.of_nat (i - 2)) by lia.
  replace (Z.of_nat i - 1)%Z with (Z.of_nat (i - 1)) by lia.
  rewrite (list_get_nth _ _ _ Eb). cbn [bind].
  rewrite (nth_error_nth lines (i - 2) _ Eb). cbn [andb].
  destruct (blank before); [|reflexivity].
  rewrite (list_get_nth _ _ _ Hl). cbn [bind andb].
  now destruct (blank line).
Qed.







End Guards.




(** X3: what the code reports for blank lines: W-MULTIBLANK at a line
    scanned outside the fences, from the third line of the document on, when
    that line and the line before it are blank; the line two before is not
    looked at. *)
Theorem excess_blank_reported R path raw max_len issues k line :
  check_file R path (Text raw) max_len false = Ok issues ->
  nth_error (splitlines raw) k = Some line ->
  reported "W-MULTIBLANK" (S k) issues =
  if checked (state_before (splitlines raw) k) line
     && ((3 <=? S k) && blank (nth (k - 1) (splitlines raw) []) && blank line)
  then [issue path (Z.of_nat (S k)) 1 "W-MULTIBLANK"
          multiblank_message []]
  else [].
Proof.
  intros H Hk.
  destruct (check_file_reported R path raw max_len issues "W-MULTIBLANK" k line H Hk)
    as (st' & o & Hstep & ->); [not_in_codes|].
  unfold checked.
  apply scan_line_cases in Hstep as [_ [[-> ->]|[(-> & -> & ->)|(-> & -> & Hc)]]].
  - reflexivity.
  - eapply from_line_other; [apply trailing_space_from | not_in_codes].
  - destruct Hc as (mb & tabs & links & tables & Hex & Hmb & Htab & Hl & Ht & ->).
    pose proof (excess_blank_guarded path (splitlines raw) (S k) line) as Eg.
    replace (S k - 1) with k in Eg by lia.
    replace (S k - 2) with (k - 1) in Eg by lia.
    rewrite (Eg Hk ltac:(lia)) in Hex. injection Hex as <-.
    rewrite !filter_app.
    rewrite (from_line_other _ _ _ "W-MULTIBLANK"
               (trailing_space_from path (S k) line trail_message)) by not_in_codes.
    rewrite (from_line_same _ _ _ Hmb).
    rewrite (from_line_other _ _ _ "W-MULTIBLANK"
               (line_length_from path max_len (S k) line)) by not_in_codes.
    rewrite (from_line_other _ _ _ "W-MULTIBLANK" Htab) by not_in_codes.
    rewrite (from_line_other _ _ _ "W-MULTIBLANK" (heading_from path (S k) line _ _))
      by not_in_codes.
    rewrite (from_line_other _ _ _ "W-MULTIBLANK" Hl) by not_in_codes.
    rewrite (from_line_other _ _ _ "W-MULTIBLANK" Ht) by not_in_codes.
    rewrite (from_line_other _ _ _ "W-MULTIBLANK" (list_indent_from path (S k) line))
      by not_in_codes.
    rewrite !app_nil_r. reflexivity.
Qed.


Lemma excess_blank_reported_witness :
  let raw := text_of ["a"; ""; ""; "b"]%string in
  let issues := [issue (lit "a.md") 3 1 "W-MULTIBLANK" multiblank_message []] in
  check_file plain_runtime (lit "a.md") (Text raw) 120 false = Ok issues
  /\ reported "W-MULTIBLANK" 3 issues = issues.
Proof.
  split; [reflexivity|].
  exact (excess_blank_reported plain_runtime (lit "a.md")
           (text_of ["a"; ""; ""; "b"]%string) 120 _ 2 [] eq_refl eq_refl).
Defined.

(** ** More about the scan of a text *)

(** The scan of one line, taken apart. *)
Lemma scan_line_inv R path max_len lines i line st st' out :
  scan_line R path max_len lines i line st = Ok (st', out) ->
  (is_fence_line line = true /\ out = [])
  \/ (is_fence_line line = false /\ in_fence st = true
      /\ out = trailing_space path i line trail_in_fence_message)
  \/ (is_fence_line line = false /\ in_fence st = false
      /\ exists multiblank tabs links counts tables,
           excess_blank path lines i line = Ok multiblank
           /\ tab_use path i line = Ok tabs
           /\ for_each (link R path i line) (LINK_PAT_finditer line) = Ok links
           /\ table_block R path i line (table_block_pipe_counts st)
              = Ok (counts, tables)
           /\ out = trailing_space path i line trail_message ++ multiblank
                      ++ line_length path max_len i line ++ tabs
                      ++ fst (fst (heading path i line (last_heading_level st)
                                     (seen_h1 st)))
                      ++ links ++ tables ++ list_indent path i line).
Proof.
  unfold scan_line, is_fence_line. intros H.
  destruct (CODE_FENCE_PAT line) as [[[indent marker] info]|].
  - inv_bind H. injection H as _ <-. left. auto.
  - destruct (in_fence st); [injection H as _ <-; right; left; auto|].
    inv_bind H. inv_bind H.
    destruct (heading path i line (last_heading_level st) (seen_h1 st))
      as [[headings level] seen] eqn:Eh.
    inv_bind H. inv_bind H. destruct a2 as [counts tables].
    injection H as _ <-. right; right. split; [reflexivity|]. split; [reflexivity|].
    exists a, a0, a1, counts, tables. cbn [fst]. auto 10.
Qed.

(** *** Every issue names its document and a line of it *)

Lemma of_document_app path a b :
  of_document path a -> of_document path b -> of_document path (a ++ b).
Proof. intros; apply Forall_app; split; assumption. Qed.

Lemma of_document_if path (b : bool) l col c msg ctx :
  of_document path (if b then [issue path l col c msg ctx] else []).
Proof. destruct b; repeat constructor. Qed.

Lemma for_each_Forall {A B} (P : B -> Prop) (f : A -> result (list B)) xs out :
  (forall x o, f x = Ok o -> Forall P o) ->
  for_each f xs = Ok out -> Forall P out.
Proof.
  intros Hf. revert out. induction xs as [|x r IH]; simpl; intros out H.
  - injection H as <-. constructor.
  - inv_bind H. inv_bind H. injection H as <-.
    apply Forall_app. split; [eapply Hf; eassumption | apply IH; assumption].
Qed.

Lemma table_mismatches_of_document R path n counts out :
  table_mismatches R path n counts = Ok out -> of_document path out.
Proof.
  unfold table_mismatches. intros H. inv_bind H. injection H as <-. clear Ha.
  induction counts as [|c r IH]; cbn [flat_map]; [constructor|].
  apply of_document_app; [apply of_document_if | exact IH].
Qed.

Lemma scan_line_of_document R path max_len lines i line st st' out :
  scan_line R path max_len lines i line st = Ok (st', out) -> of_document path out.
Proof.
  intros H. apply scan_line_inv in H as [[_ ->]|[(_ & _ & ->)|(_ & _ & H)]].
  - constructor.
  - apply of_document_if.
  - destruct H as (mb & tabs & links & counts & tables & Hmb & Htab & Hl & Ht & ->).
    repeat apply of_document_app.
    + apply of_document_if.
    + unfold excess_blank in Hmb.
      destruct (3 <=? i); [|injection Hmb as <-; constructor].
      inv_bind Hmb. destruct (blank a); [|injection Hmb as <-; constructor].
      inv_bind Hmb. destruct (blank a0 && blank line); injection Hmb as <-;
        repeat constructor.
    + apply of_document_if.
    + unfold tab_use in Htab.
      destruct (contains TAB line); [|injection Htab as <-; constructor].
      inv_bind Htab. injection Htab as <-. repeat constructor.
    + unfold heading. destruct (HEADING_PAT line) as [[hashes text]|]; cbn [fst];
        [|constructor].
      repeat apply of_document_app; apply of_document_if.
    + eapply for_each_Forall; [|exact Hl].
      intros lm o Ho. unfold link in Ho. inv_bind Ho. inv_bind Ho.
      injection Ho as <-. repeat apply of_document_app.
      * apply of_document_if.
      * apply of_document_if.
      * destruct (scheme a0); [constructor | apply of_document_if].
    + unfold table_block in Ht. destruct (TABLE_LINE_PAT line).
      * injection Ht as _ <-. constructor.
      * destruct (table_block_pipe_counts st) as [|c r].
        -- injection Ht as _ <-. constructor.
        -- inv_bind Ht. injection Ht as _ <-.
           eapply table_mismatches_of_document; eassumption.
    + unfold list_indent. destruct (LIST_MARKER_PAT line) as [indent|];
        [apply of_document_if | constructor].
Qed.

Lemma scan_loop_of_document R path max_len lines i todo st st' out :
  scan_loop R path max_len lines i todo st = Ok (st', out) -> of_document path out.
Proof.
  revert i st st' out. induction todo as [|l r IH]; simpl; intros i st st' out H.
  - injection H as _ <-. constructor.
  - inv_bind H. destruct a as [st1 o1]. inv_bind H. destruct a as [st2 o2].
    injection H as _ <-. apply of_document_app.
    + eapply scan_line_of_document; eassumption.
    + eapply IH; eassumption.
Qed.

Lemma splitlines_nonempty raw : raw <> [] -> splitlines raw <> [].
Proof.
  destruct raw as [|c r]; [contradiction|]. intros _. cbn [splitlines].
  destruct (islinebreak c); [discriminate|].
  destruct (splitlines r); discriminate.
Qed.

Lemma check_file_inv R path raw max_len issues :
  check_file R path (Text raw) max_len false = Ok issues ->
  exists st found tables,
    scan_loop R path max_len (splitlines raw) 1 (splitlines raw) initial_state
      = Ok (st, found)
    /\ open_table_check R path st (length (splitlines raw)) = Ok tables
    /\ issues = crlf_check path raw ++ eof_newline_check path raw ++ found
                  ++ open_fence_check path st (length (splitlines raw)) ++ tables.
Proof.
  unfold check_file, scan_text. intros H.
  inv_bind H. injection H as <-.
  inv_bind Ha. destruct a0 as [st found]. inv_bind Ha. injection Ha as <-.
  exists st, found, a0. auto.
Qed.

(** X4: every issue of the scan of a document carries the path of that
    document and a line number from 0 to the number of lines; only
    W-NOEOFNL is at line 0. *)
Theorem issues_name_document_and_line R path raw max_len issues :
  check_file R path (Text raw) max_len false = Ok issues ->
  Forall (fun x =>
            Issue.file x = path
            /\ (0 <= Issue.line x <= Z.of_nat (length (splitlines raw)))%Z
            /\ (Issue.line x = 0%Z -> Issue.code x = "W-NOEOFNL"%string))
         issues.
Proof.
  intros H.
  apply check_file_inv in H as (st & found & tables & Hloop & Ht & ->).
  pose proof (scan_loop_state _ _ _ _ _ _ _ _ _ Hloop) as Hst.
  assert (Hpos : in_fence st = true \/ table_block_pipe_counts st <> []
                 \/ CRLF_PAT raw = true -> 1 <= length (splitlines raw)).
  { intros Hc. destruct (splitlines raw) as [|l ls] eqn:E; [|simpl; lia].
    destruct raw as [|c r]; [|now apply splitlines_nonempty in E].
    subst st. simpl in Hc. destruct Hc as [Hc|[Hc|Hc]];
      [discriminate | contradiction | discriminate]. }
  repeat rewrite Forall_app. repeat split.
  - unfold crlf_check. destruct (CRLF_PAT raw) eqn:Ec; [|constructor].
    constructor; [|constructor]. cbn.
    assert (1 <= length (splitlines raw)) by auto.
    repeat split; intros; try lia; discriminate.
  - unfold eof_newline_check. destruct (negb _); [|constructor].
    constructor; [|constructor]. cbn.
    repeat split; intros; try lia; reflexivity.
  - pose proof (scan_loop_of_document _ _ _ _ _ _ _ _ _ Hloop) as Hdoc.
    apply scan_loop_within in Hloop. unfold within in Hloop.
    unfold of_document in Hdoc. rewrite Forall_forall in *. intros x Hx.
    destruct (Hloop x Hx) as [Hl _]. split; [apply Hdoc, Hx|].
    split; lia.
  - unfold open_fence_check. destruct (in_fence st) eqn:Ei; [|constructor].
    constructor; [|constructor]. cbn.
    assert (1 <= length (splitlines raw)) by auto.
    repeat split; intros; try lia.
  - unfold open_table_check in Ht.
    destruct (table_block_pipe_counts st) as [|c r] eqn:Ec;
      [injection Ht as <-; constructor|].
    assert (1 <= length (splitlines raw)) by (apply Hpos; right; left; congruence).
    pose proof (table_mismatches_of_document _ _ _ _ _ Ht) as Hdoc.
    pose proof (table_mismatches_from _ _ _ _ _ Ht) as Hfrom.
    unfold of_document in Hdoc. unfold from_line in Hfrom.
    rewrite Forall_forall in *. intros x Hx.
    destruct (Hfrom x Hx) as [Hl _]. split; [apply Hdoc, Hx|].
    split; lia.
Qed.

Lemma issues_name_document_and_line_witness :
  let raw := lit "a " in
  let issues :=
    [issue (lit "a.md") 0 0 "W-NOEOFNL" noeofnl_message [];
     issue (lit "a.md") 1 2 "W-TRAIL" trail_message (lit "a ")] in
  check_file plain_runtime (lit "a.md") (Text raw) 120 false = Ok issues
  /\ Forall (fun x =>
               Issue.file x = lit "a.md"
               /\ (0 <= Issue.line x <= Z.of_nat (length (splitlines raw)))%Z
               /\ (Issue.line x = 0%Z -> Issue.code x = "W-NOEOFNL"%string))
            issues.
Proof.
  split; [reflexivity|].
  exact (issues_name_document_and_line plain_runtime (lit "a.md") (lit "a ") 120 _
           eq_refl).
Defined.

(** *** The order of the issues *)

Lemma in_line_order_app a b :
  in_line_order a -> in_line_order b ->
  (forall x y, In x a -> In y b -> (Issue.line x <= Issue.line y)%Z) ->
  in_line_order (a ++ b).
Proof.
  unfold in_line_order. intros Ha Hb Hab.
  induction Ha as [|x l Hl IH Hx]; [exact Hb|].
  cbn [app]. constructor.
  - apply IH. intros u v Hu Hv. apply Hab; [right; exact Hu | exact Hv].
  - apply Forall_app. split; [exact Hx|].
    apply Forall_forall. intros y Hy. apply Hab; [left; reflexivity | exact Hy].
Qed.

Lemma from_line_in_line_order i cs out : from_line i cs out -> in_line_order out.
Proof.
  unfold in_line_order. intros H.
  induction H as [|x l [Hx _] Hl IH]; constructor; [exact IH|].
  eapply Forall_impl; [|exact Hl]. intros y [Hy _]. cbv beta. lia.
Qed.

Lemma scan_loop_in_line_order R path max_len lines i todo st st' out :
  scan_loop R path max_len lines i todo st = Ok (st', out) -> in_line_order out.
Proof.
  revert i st st' out. induction todo as [|l r IH]; simpl; intros i st st' out H.
  - injection H as _ <-. constructor.
  - inv_bind H. destruct a as [st1 o1]. inv_bind H. destruct a as [st2 o2].
    injection H as _ <-.
    pose proof (scan_line_from _ _ _ _ _ _ _ _ _ Ha) as H1.
    pose proof (scan_loop_within _ _ _ _ _ _ _ _ _ Ha0) as H2.
    apply in_line_order_app.
    + eapply from_line_in_line_order; exact H1.
    + eapply IH; eassumption.
    + intros x y Hx Hy. unfold from_line, within in *. rewrite Forall_forall in *.
      destruct (H1 x Hx) as [E1 _]. destruct (H2 y Hy) as [E2 _]. lia.
Qed.

(** X5: after the two findings about the whole text (W-CRLF, W-NOEOFNL)
    the issues of a document come in the order of the lines: their line
    numbers never decrease. *)
Theorem issues_in_line_order R path raw max_len issues :
  check_file R path (Text raw) max_len false = Ok issues ->
  exists rest,
    issues = crlf_check path raw ++ eof_newline_check path raw ++ rest
    /\ in_line_order rest.
Proof.
  intros H.
  apply check_file_Text in H as (st & found & tables & Hloop & Ht & ->).
  eexists. split; [reflexivity|].
  pose proof (scan_loop_within _ _ _ _ _ _ _ _ _ Hloop) as Hw.
  apply in_line_order_app; [eapply scan_loop_in_line_order; exact Hloop | |].
  - apply in_line_order_app.
    + unfold open_fence_check. destruct (in_fence st); repeat constructor.
    + eapply from_line_in_line_order; exact Ht.
    + intros x y Hx Hy. unfold from_line in Ht. rewrite Forall_forall in Ht.
      destruct (Ht y Hy) as [Ey _]. unfold open_fence_check in Hx.
      destruct (in_fence st); [|destruct Hx].
      destruct Hx as [<-|[]]. cbn. lia.
  - intros x y Hx Hy. unfold within in Hw. rewrite Forall_forall in Hw.
    destruct (Hw x Hx) as [Ex _]. apply in_app_or in Hy as [Hy|Hy].
    + unfold open_fence_check in Hy. destruct (in_fence st); [|destruct Hy].
      destruct Hy as [<-|[]]. cbn. lia.
    + unfold from_line in Ht. rewrite Forall_forall in Ht.
      destruct (Ht y Hy) as [Ey _]. lia.
Qed.

Lemma issues_in_line_order_witness :
  let raw := lit "# a " ++ [LF] ++ lit "#b" in
  let issues :=
    [issue (lit "a.md") 0 0 "W-NOEOFNL" noeofnl_message [];
     issue (lit "a.md") 1 4 "W-TRAIL" trail_message (lit "# a ");
     issue (lit "a.md") 2 2 "E-HEADSPACE" headspace_message (lit "#b");
     issue (lit "a.md") 2 1 "W-MULTIH1" multih1_message (lit "#b")] in
  check_file plain_runtime (lit "a.md") (Text raw) 120 false = Ok issues
  /\ exists rest,
       issues = crlf_check (lit "a.md") raw ++ eof_newline_check (lit "a.md") raw
                  ++ rest
       /\ in_line_order rest.
Proof.
  split; [reflexivity|].
  exact (issues_in_line_order plain_runtime (lit "a.md")
           (lit "# a " ++ [LF] ++ lit "#b") 120 _ eq_refl).
Defined.

(** *** Fenced lines *)

(** X6: a line that does not reach the checks (a fence delimiter, or a line
    inside an open fence) is reported for nothing but trailing white space:
    no heading, link, tab, length, blank-run or list issue names it. *)
Theorem fenced_line_only_trail R path raw max_len issues k line c :
  check_file R path (Text raw) max_len false = Ok issues ->
  nth_error (splitlines raw) k = Some line ->
  checked (state_before (splitlines raw) k) line = false ->
  ~ In c document_codes -> c <> "W-TRAIL"%string ->
  reported c (S k) issues = [].
Proof.
  intros H Hk Hc Hdoc Htrail.
  destruct (check_file_reported R path raw max_len issues c k line H Hk Hdoc)
    as (st' & o & Hstep & ->).
  unfold checked in Hc.
  apply scan_line_inv in Hstep as [[_ ->]|[(_ & _ & ->)|(Ef & Ei & _)]].
  - reflexivity.
  - eapply from_line_other; [apply trailing_space_from|].
    intros [E|[]]. congruence.
  - rewrite Ef, Ei in Hc. discriminate Hc.
Qed.

Lemma fenced_line_only_trail_witness :
  let raw := text_of ["~~~"; "#a "; "~~~"]%string in
  let issues :=
    [issue (lit "a.md") 2 3 "W-TRAIL" trail_in_fence_message (lit "#a ")] in
  check_file plain_runtime (lit "a.md") (Text raw) 120 false = Ok issues
  /\ checked (state_before (splitlines raw) 1) (lit "#a ") = false
  /\ reported "E-HEADSPACE" 2 issues = [].
Proof.
  split; [reflexivity|]. split; [reflexivity|].
  apply (fenced_line_only_trail plain_runtime (lit "a.md")
           (text_of ["~~~"; "#a "; "~~~"]%string) 120 _ 1 (lit "#a ")
           "E-HEADSPACE" eq_refl eq_refl eq_refl).
  - simpl. intuition discriminate.
  - discriminate.
Defined.

(** *** Top-level headings *)

Lemma fence_step_seen st indent m0 :
  seen_h1 (fence_step st indent m0) = seen_h1 st.
Proof.
  unfold fence_step. destruct (negb (in_fence st)); [reflexivity|].
  destruct (fence_marker st); [|reflexivity].
  now destruct (N.eqb m0 c && str_eqb indent (fence_indent st)).
Qed.

Lemma next_state_seen st line :
  seen_h1 (next_state st line) = seen_h1 st || (checked st line && is_h1 line).
Proof.
  unfold next_state, checked, is_fence_line, is_h1, heading_state.
  destruct (CODE_FENCE_PAT line) as [[[indent marker] info]|].
  - cbn [negb andb]. rewrite orb_false_r.
    destruct marker; [reflexivity | apply fence_step_seen].
  - destruct (in_fence st); cbn [negb andb]; [now rewrite orb_false_r|].
    destruct (HEADING_PAT line) as [[hashes text]|]; cbn;
      [|now rewrite orb_false_r].
    destruct (length hashes =? 1); [now rewrite orb_true_r | now rewrite orb_false_r].
Qed.

Lemma heading_multih1 path i line last seen :
  length (filter (has_code "W-MULTIH1") (fst (fst (heading path i line last seen))))
  = if is_h1 line && seen then 1 else 0.
Proof.
  unfold heading, is_h1. destruct (HEADING_PAT line) as [[hashes text]|];
    [|reflexivity].
  cbn [fst]. rewrite !filter_app.
  rewrite (filter_if_other "W-MULTIH1" "E-HEADSPACE") by discriminate.
  rewrite (filter_if_other "W-MULTIH1" "E-EMPTYHEAD") by discriminate.
  rewrite (filter_if_other "W-MULTIH1" "W-HEADJUMP") by discriminate.
  rewrite filter_if_same, app_nil_r. cbn [app].
  now destruct ((length hashes =? 1) && seen).
Qed.

Lemma scan_loop_multih1 R path max_len lines i todo st st' out :
  scan_loop R path max_len lines i todo st = Ok (st', out) ->
  length (filter (has_code "W-MULTIH1") out)
  = length (filter is_h1 (checked_lines st todo)) - (if seen_h1 st then 0 else 1).
Proof.
  revert i st st' out. induction todo as [|l r IH]; simpl; intros i st st' out H.
  - injection H as _ <-. now destruct (seen_h1 st).
  - inv_bind H. destruct a as [st1 o1]. inv_bind H. destruct a as [st2 o2].
    injection H as _ <-.
    pose proof (scan_line_cases _ _ _ _ _ _ _ _ _ Ha) as [-> _].
    rewrite filter_app, !length_app, (IH _ _ _ _ Ha0), next_state_seen.
    rewrite (scan_line_heading _ _ _ _ _ _ _ _ _ "W-MULTIH1" Ha) by (simpl; tauto).
    destruct (checked st l); cbn [andb app length filter].
    + rewrite heading_multih1.
      destruct (is_h1 l), (seen_h1 st); cbn [andb orb length]; lia.
    + rewrite orb_false_r. reflexivity.
Qed.

(** X7: the number of W-MULTIH1 issues of a document is the number of its
    level-1 headings scanned outside the fences, less one: the first is
    exempt and every later one is reported. *)
Theorem multih1_count R path raw max_len issues :
  check_file R path (Text raw) max_len false = Ok issues ->
  length (filter (has_code "W-MULTIH1") issues)
  = length (filter is_h1 (checked_lines initial_state (splitlines raw))) - 1.
Proof.
  intros H.
  apply check_file_Text in H as (st & found & tables & Hloop & Ht & ->).
  rewrite !filter_app, !length_app.
  rewrite (from_line_other _ _ _ "W-MULTIH1" Ht) by not_in_codes.
  rewrite (scan_loop_multih1 _ _ _ _ _ _ _ _ _ Hloop).
  unfold crlf_check, eof_newline_check, open_fence_check.
  destruct (CRLF_PAT raw), (negb (ends_with_newline raw)), (in_fence st);
    cbn; lia.
Qed.

Lemma multih1_count_witness :
  let raw := text_of ["# a"; "# b"; "~~~"; "# c"; "~~~"; "# d"]%string in
  let issues :=
    [issue (lit "a.md") 2 1 "W-MULTIH1" multih1_message (lit "# b");
     issue (lit "a.md") 6 1 "W-MULTIH1" multih1_message (lit "# d")] in
  check_file plain_runtime (lit "a.md") (Text raw) 120 false = Ok issues
  /\ filter is_h1 (checked_lines initial_state (splitlines raw))
     = [lit "# a"; lit "# b"; lit "# d"]
  /\ length (filter (has_code "W-MULTIH1") issues)
     = length (filter is_h1 (checked_lines initial_state (splitlines raw))) - 1.
Proof.
  split; [reflexivity|]. split; [reflexivity|].
  exact (multih1_count plain_runtime (lit "a.md")
           (text_of ["# a"; "# b"; "~~~"; "# c"; "~~~"; "# d"]%string) 120 _
           eq_refl).
Defined.

(** *** Tabs and long lines *)

(** The issues of code [c] among those of a checked line: a component of
    another code gives none, a component of that code alone gives all. *)
Ltac keep_component c :=
  rewrite !filter_app;
  repeat match goal with
    | H : from_line _ _ ?l |- context [filter (has_code c) ?l] =>
        first [ rewrite (from_line_other _ _ _ c H) by not_in_codes
              | rewrite (from_line_same _ _ _ H) ]
    end;
  rewrite ?app_nil_r; cbn [app].

Lemma checked_line_components R path max_len lines i line st multiblank tabs links
    counts tables :
  excess_blank path lines i line = Ok multiblank ->
  tab_use path i line = Ok tabs ->
  for_each (link R path i line) (LINK_PAT_finditer line) = Ok links ->
  table_block R path i line (table_block_pipe_counts st) = Ok (counts, tables) ->
  from_line i ["W-TRAIL"%string] (trailing_space path i line trail_message)
  /\ from_line i ["W-MULTIBLANK"%string] multiblank
  /\ from_line i ["W-LINELEN"%string] (line_length path max_len i line)
  /\ from_line i ["W-TAB"%string] tabs
  /\ from_line i heading_codes
       (fst (fst (heading path i line (last_heading_level st) (seen_h1 st))))
  /\ from_line i link_codes links
  /\ from_line i ["W-TABLEPIPES"%string] tables
  /\ from_line i ["W-LISTTAB"%string] (list_indent path i line).
Proof.
  intros Hmb Htab Hl Ht.
  split; [apply trailing_space_from|].
  split; [eapply excess_blank_from; eassumption|].
  split; [apply line_length_from|].
  split; [eapply tab_use_from; eassumption|].
  split; [apply heading_from|].
  split; [eapply for_each_from; [|eassumption]; intros x o; apply link_from|].
  split; [eapply table_block_from; eassumption | apply list_indent_from].
Qed.

Ltac checked_components H :=
  let Hmb := fresh "Hmb" in
  let Htab := fresh "Htab" in
  let Hl := fresh "Hl" in
  let Ht := fresh "Ht" in
  destruct H as (?mb & ?tabs & ?links & ?counts & ?tables & Hmb & Htab & Hl & Ht & ->);
  let F := fresh "F" in
  match goal with
  | |- context [line_length _ ?ml _ _] =>
      pose proof (checked_line_components _ _ ml _ _ _ _ _ _ _ _ _ Hmb Htab Hl Ht)
        as F
  end;
  destruct F as (?Ftrail & ?Fmb & ?Flen & ?Ftab & ?Fhead & ?Flink & ?Ftable & ?Flist).

Lemma str_find_first c s j :
  str_find c s = Some j ->
  nth_error s j = Some c /\ forallb (notchr c) (firstn j s) = true.
Proof.
  revert j. induction s as [|d r IH]; intros j; simpl; [discriminate|].
  unfold ischr, notchr. destruct (N.eqb_spec d c) as [->|Hne].
  - intros [= <-]. auto.
  - destruct (str_find c r) as [k|]; simpl; [|discriminate].
    intros [= <-]. destruct (IH k eq_refl) as [H1 H2]. simpl.
    destruct (N.eqb_spec d c); [contradiction|]. auto.
Qed.

Lemma str_find_None c s : str_find c s = None -> contains c s = false.
Proof.
  induction s as [|d r IH]; simpl; [reflexivity|].
  destruct (ischr c d); [discriminate|].
  destruct (str_find c r); simpl; [discriminate | auto].
Qed.

(** X8: W-TAB is reported for a line exactly when the line reaches the
    checks and holds a tab, once, and its column is that of the first tab
    of the line (counted from 1). *)
Theorem tab_reported R path raw max_len issues k line :
  check_file R path (Text raw) max_len false = Ok issues ->
  nth_error (splitlines raw) k = Some line ->
  match str_find TAB line with
  | Some j =>
      nth_error line j = Some TAB
      /\ forallb (notchr TAB) (firstn j line) = true
      /\ reported "W-TAB" (S k) issues =
         if checked (state_before (splitlines raw) k) line
         then [issue path (Z.of_nat (S k)) (Z.of_nat j + 1) "W-TAB" tab_message
                 (slice_to (escape_tabs line) 80)]
         else []
  | None =>
      forallb (notchr TAB) line = true /\ reported "W-TAB" (S k) issues = []
  end.
Proof.
  intros H Hk.
  destruct (check_file_reported R path raw max_len issues "W-TAB" k line H Hk)
    as (st' & o & Hstep & ->); [not_in_codes|].
  assert (Hrep : filter (has_code "W-TAB") o =
                 if checked (state_before (splitlines raw) k) line
                 then match str_find TAB line with
                      | Some j =>
                          [issue path (Z.of_nat (S k)) (Z.of_nat j + 1) "W-TAB"
                             tab_message (slice_to (escape_tabs line) 80)]
                      | None => []
                      end
                 else []).
  { unfold checked.
    apply scan_line_inv in Hstep as [[-> ->]|[(-> & -> & ->)|(-> & -> & Hc)]].
    - reflexivity.
    - eapply from_line_other; [apply trailing_space_from | not_in_codes].
    - checked_components Hc. keep_component "W-TAB"%string.
      unfold tab_use in Htab. destruct (contains TAB line) eqn:Ec.
      + destruct (str_find_contains _ _ Ec) as [j Hj].
        unfold str_index in Htab. rewrite Hj in Htab |- *. cbn [bind] in Htab.
        now injection Htab as <-.
      + injection Htab as <-.
        destruct (str_find TAB line) as [j|] eqn:Ej; [|reflexivity].
        apply str_find_first in Ej as [Ej _].
        apply nth_error_In in Ej.
        assert (contains TAB line = true)
          by (apply existsb_exists; exists TAB; split; [exact Ej | reflexivity]).
        congruence. }
  rewrite Hrep.
  destruct (str_find TAB line) as [j|] eqn:Ej.
  - destruct (str_find_first _ _ _ Ej) as [H1 H2]. auto.
  - split; [|now destruct (checked _ _)].
    apply str_find_None in Ej. unfold contains in Ej.
    apply forallb_forall. intros c Hc. unfold notchr.
    destruct (N.eqb_spec c TAB) as [->|]; [|reflexivity].
    assert (existsb (ischr TAB) line = true)
      by (apply existsb_exists; exists TAB; split; [exact Hc | reflexivity]).
    congruence.
Qed.

Lemma tab_reported_witness :
  let line := lit "a" ++ [TAB] ++ lit "b" ++ [TAB] in
  let raw := line ++ [LF] in
  let issues :=
    [issue (lit "a.md") 1 4 "W-TRAIL" trail_message line;
     issue (lit "a.md") 1 2 "W-TAB" tab_message (lit "a\tb\t")] in
  check_file plain_runtime (lit "a.md") (Text raw) 120 false = Ok issues
  /\ str_find TAB line = Some 1
  /\ reported "W-TAB" 1 issues
     = [issue (lit "a.md") 1 2 "W-TAB" tab_message (lit "a\tb\t")].
Proof.
  split; [reflexivity|]. split; [reflexivity|].
  exact (proj2 (proj2 (tab_reported plain_runtime (lit "a.md")
                         ((lit "a" ++ [TAB] ++ lit "b" ++ [TAB]) ++ [LF]) 120 _ 0
                         (lit "a" ++ [TAB] ++ lit "b" ++ [TAB]) eq_refl eq_refl))).
Defined.

Lemma inline_code_removed_length skip s :
  length (inline_code_removed skip s) <= length s.
Proof.
  revert skip. induction s as [|c r IH]; intros skip; simpl; [lia|].
  destruct skip as [|k]; [|specialize (IH k); lia].
  destruct (ischr BACKTICK c); [|specialize (IH 0); simpl; lia].
  unfold span. destruct (dropWhile (notchr BACKTICK) r).
  - specialize (IH 0). simpl. lia.
  - specialize (IH (S (length (takeWhile (notchr BACKTICK) r)))). lia.
Qed.

Lemma inline_code_removed_none s :
  contains BACKTICK s = false -> inline_code_removed 0 s = s.
Proof.
  induction s as [|c r IH]; simpl; [reflexivity|].
  destruct (ischr BACKTICK c); simpl; [discriminate|].
  intros H. now rewrite IH.
Qed.

(** X9: W-LINELEN is reported for a line exactly when the line reaches the
    checks and its length without the inline code spans exceeds the
    threshold.  Removing the spans never lengthens a line, so a line of at
    most [max_len] characters is never reported, and a line without
    backtick is measured as it is. *)
Theorem line_length_reported R path raw max_len issues k line :
  check_file R path (Text raw) max_len false = Ok issues ->
  nth_error (splitlines raw) k = Some line ->
  reported "W-LINELEN" (S k) issues =
    (if checked (state_before (splitlines raw) k) line
        && (Z.of_nat (length (INLINE_CODE_PAT_sub line)) >? max_len)%Z
     then [issue path (Z.of_nat (S k)) (max_len + 1) "W-LINELEN"
             (linelen_message (length (INLINE_CODE_PAT_sub line)) max_len)
             (slice_to line (max_len + 20))]
     else [])
  /\ ((Z.of_nat (length line) <= max_len)%Z -> reported "W-LINELEN" (S k) issues = [])
  /\ (contains BACKTICK line = false -> INLINE_CODE_PAT_sub line = line).
Proof.
  intros H Hk.
  destruct (check_file_reported R path raw max_len issues "W-LINELEN" k line H Hk)
    as (st' & o & Hstep & ->); [not_in_codes|].
  assert (Hrep : filter (has_code "W-LINELEN") o =
                 if checked (state_before (splitlines raw) k) line
                 then line_length path max_len (S k) line else []).
  { unfold checked.
    apply scan_line_inv in Hstep as [[-> ->]|[(-> & -> & ->)|(-> & -> & Hc)]].
    - reflexivity.
    - eapply from_line_other; [apply trailing_space_from | not_in_codes].
    - checked_components Hc. keep_component "W-LINELEN"%string. reflexivity. }
  rewrite Hrep. unfold line_length. split; [|split].
  - destruct (checked _ _); [reflexivity|]. reflexivity.
  - intros Hshort.
    pose proof (inline_code_removed_length 0 line) as Hle.
    fold (INLINE_CODE_PAT_sub line) in Hle.
    destruct (Z.gtb_spec (Z.of_nat (length (INLINE_CODE_PAT_sub line))) max_len);
      [lia|]. now destruct (checked _ _).
  - apply inline_code_removed_none.
Qed.

Lemma line_length_reported_witness :
  let line := lit "abcdefgh `x`" in
  let raw := text_of ["abcdefgh `x`"; "ab `cdefgh`"]%string in
  let issues :=
    [issue (lit "a.md") 1 6 "W-LINELEN" (linelen_message 9 5) line] in
  check_file plain_runtime (lit "a.md") (Text raw) 5 false = Ok issues
  /\ reported "W-LINELEN" 1 issues = issues.
Proof.
  split; [reflexivity|].
  exact (proj1 (line_length_reported plain_runtime (lit "a.md")
                  (text_of ["abcdefgh `x`"; "ab `cdefgh`"]%string) 5 _ 0
                  (lit "abcdefgh `x`") eq_refl eq_refl)).
Defined.

(** *** Table blocks *)

Lemma max_from_spec {A} (key : A -> nat) best xs :
  (max_from key best xs = best \/ In (max_from key best xs) xs)
  /\ key best <= key (max_from key best xs)
  /\ forall x, In x xs -> key x <= key (max_from key best xs).
Proof.
  revert best. induction xs as [|x r IH]; intros best; simpl.
  - split; [auto|]. split; [lia | tauto].
  - destruct (Nat.ltb_spec (key best) (key x)) as [Hlt|Hge].
    + destruct (IH x) as (Hin & Hb & Hall).
      split; [destruct Hin as [E|Hin]; [right; left; symmetry; exact E | tauto]|].
      split; [lia|].
      intros y [<-|Hy]; [exact Hb | apply Hall, Hy].
    + destruct (IH best) as (Hin & Hb & Hall). split; [tauto|]. split; [lia|].
      intros y [<-|Hy]; [lia | apply Hall, Hy].
Qed.

Lemma fold_max_bound (f : nat -> nat) l m :
  (forall x, In x l -> f x <= m) -> fold_right Nat.max 0 (map f l) <= m.
Proof.
  induction l as [|x r IH]; simpl; intros H; [lia|].
  assert (f x <= m) by (apply H; auto).
  assert (fold_right Nat.max 0 (map f r) <= m) by (apply IH; intros; apply H; auto).
  lia.
Qed.

Lemma fold_max_reached (f : nat -> nat) l x :
  In x l -> f x <= fold_right Nat.max 0 (map f l).
Proof.
  induction l as [|y r IH]; simpl; [tauto|].
  intros [->|H]; [lia | specialize (IH H); lia].
Qed.


Lemma table_mismatches_exp R path n counts out :
  table_mismatches R path n counts = Ok out ->
  exists exp,
    In exp counts
    /\ count_occ Nat.eq_dec counts exp = max_multiplicity counts
    /\ out = flat_map
               (fun cnt =>
                  if negb (cnt =? exp) then
                    [issue path (Z.of_nat n) 1 "W-TABLEPIPES"
                       (tablepipes_message exp cnt) []]
                  else [])
               counts.
Proof.
  unfold table_mismatches. intros H. inv_bind H. injection H as <-.
  exists a. unfold py_max in Ha.
  destruct (set_iter R counts) as [|x xs] eqn:Es; [discriminate|].
  injection Ha as <-.
  destruct (max_from_spec (count_occ Nat.eq_dec counts) x xs) as (Hin & _ & Hall).
  set (exp := max_from (count_occ Nat.eq_dec counts) x xs) in *.
  assert (Hset : In exp (set_iter R counts)).
  { rewrite Es. destruct Hin as [->|Hin]; [left; reflexivity | right; exact Hin]. }
  assert (Hexp : In exp counts) by (apply set_iter_In in Hset; exact Hset).
  split; [exact Hexp|]. split; [|reflexivity].
  apply Nat.le_antisymm.
  - apply fold_max_reached. exact Hexp.
  - apply fold_max_bound. intros y Hy.
    apply (set_iter_In R) in Hy. rewrite Es in Hy.
    destruct Hy as [<-|Hy]; [|apply Hall, Hy].
    destruct (max_from_spec (count_occ Nat.eq_dec counts) x xs) as (_ & Hb & _).
    exact Hb.
Qed.



Lemma table_mismatches_uniform R path n c counts out :
  Forall (eq c) counts ->
  table_mismatches R path n counts = Ok out -> out = [].
Proof.
  intros Hu H. apply table_mismatches_exp in H as (exp & Hin & _ & ->).
  rewrite Forall_forall in Hu. rewrite <- (Hu exp Hin). clear Hin.
  induction counts as [|d r IH]; cbn [flat_map]; [reflexivity|].
  rewrite <- (Hu d) by (left; reflexivity). rewrite Nat.eqb_refl. cbn.
  apply IH. intros x Hx. apply Hu. right. exact Hx.
Qed.

Lemma scan_loop_uniform_tables R path max_len lines c i todo st st' out :
  (forall line, In line todo -> TABLE_LINE_PAT line = true ->
                count_char PIPE line = c) ->
  Forall (eq c) (table_block_pipe_counts st) ->
  scan_loop R path max_len lines i todo st = Ok (st', out) ->
  filter (has_code "W-TABLEPIPES") out = []
  /\ Forall (eq c) (table_block_pipe_counts st').
Proof.
  revert i st st' out. induction todo as [|l r IH]; simpl; intros i st st' out Hc Hu H.
  - injection H as <- <-. auto.
  - inv_bind H. destruct a as [st1 o1]. inv_bind H. destruct a as [st2 o2].
    injection H as <- <-.
    assert (H1 : filter (has_code "W-TABLEPIPES") o1 = []
                 /\ Forall (eq c) (table_block_pipe_counts st1)).
    { pose proof (scan_line_cases _ _ _ _ _ _ _ _ _ Ha) as [-> _].
      apply scan_line_inv in Ha as [[Ef ->]|[(Ef & Ei & ->)|(Ef & Ei & Hk)]].
      - split; [reflexivity|]. unfold next_state. unfold is_fence_line in Ef.
        destruct (CODE_FENCE_PAT l) as [[[indent marker] info]|]; [|discriminate].
        destruct marker; [exact Hu | now rewrite fence_step_table].
      - split; [eapply from_line_other; [apply trailing_space_from | not_in_codes]|].
        unfold next_state. unfold is_fence_line in Ef.
        destruct (CODE_FENCE_PAT l); [discriminate|]. now rewrite Ei.
      - unfold next_state. unfold is_fence_line in Ef.
        destruct (CODE_FENCE_PAT l); [discriminate|]. rewrite Ei.
        destruct (heading_state l _ _) as [level seen]. cbn [table_block_pipe_counts].
        destruct Hk as (mb & tabs & links & counts & tables & Hmb & Htab & Hl & Ht & ->).
        pose proof (checked_line_components _ _ max_len _ _ _ _ _ _ _ _ _ Hmb Htab Hl Ht)
          as (Ftrail & Fmb & Flen & Ftab & Fhead & Flink & Ftable & Flist).
        keep_component "W-TABLEPIPES"%string.
        unfold table_block in Ht. unfold table_state.
        destruct (TABLE_LINE_PAT l) eqn:Et.
        + injection Ht as _ <-. split; [reflexivity|].
          apply Forall_app. split; [exact Hu|].
          constructor; [|constructor]. symmetry. apply Hc; auto.
        + split; [|constructor].
          destruct (table_block_pipe_counts st) as [|d ds] eqn:Ed.
          * now injection Ht as _ <-.
          * inv_bind Ht. injection Ht as _ <-.
            eapply table_mismatches_uniform; eassumption. }
    destruct H1 as [E1 Hu1].
    destruct (IH _ _ _ _ (fun line Hin => Hc line (or_intror Hin)) Hu1 Ha0) as [E2 Hu2].
    split; [|exact Hu2]. now rewrite filter_app, E1, E2.
Qed.

(** X11: a document whose table-row lines all hold the same number of
    pipes gets no W-TABLEPIPES, wherever its table blocks begin and end. *)
Theorem uniform_tables_unreported R path raw max_len issues c :
  check_file R path (Text raw) max_len false = Ok issues ->
  (forall line, In line (splitlines raw) -> TABLE_LINE_PAT line = true ->
                count_char PIPE line = c) ->
  filter (has_code "W-TABLEPIPES") issues = [].
Proof.
  intros H Hc.
  apply check_file_inv in H as (st & found & tables & Hloop & Ht & ->).
  destruct (scan_loop_uniform_tables R path max_len (splitlines raw) c 1
              (splitlines raw) initial_state st found Hc (Forall_nil _) Hloop)
    as [E Hu].
  rewrite !filter_app, E.
  unfold open_table_check in Ht.
  assert (tables = []) as ->.
  { destruct (table_block_pipe_counts st); [now injection Ht as <-|].
    eapply table_mismatches_uniform; eassumption. }
  unfold crlf_check, eof_newline_check, open_fence_check.
  destruct (CRLF_PAT raw), (negb (ends_with_newline raw)), (in_fence st);
    reflexivity.
Qed.

Lemma uniform_tables_unreported_witness :
  let raw := text_of ["|a|b|"; "|c|d|"; "x "; "|e|f|"]%string in
  let issues := [issue (lit "a.md") 3 2 "W-TRAIL" trail_message (lit "x ")] in
  check_file plain_runtime (lit "a.md") (Text raw) 120 false = Ok issues
  /\ filter (has_code "W-TABLEPIPES") issues = [].
Proof.
  split; [reflexivity|].
  apply (uniform_tables_unreported plain_runtime (lit "a.md")
           (text_of ["|a|b|"; "|c|d|"; "x "; "|e|f|"]%string) 120 _ 3 eq_refl).
  intros line Hin. vm_compute in Hin.
  repeat (destruct Hin as [<-|Hin]; [vm_compute; congruence|]). destruct Hin.
Defined.

Lemma count_char_app c a b :
  count_char c (a ++ b) = count_char c a + count_char c b.
Proof. unfold count_char. now rewrite filter_app, length_app. Qed.

Lemma table_tail_pipe r : table_tail r = true -> 1 <= count_char PIPE r.
Proof.
  induction r as [|c r IH]; simpl; [discriminate|].
  unfold count_char in *. cbn [filter].
  destruct (ischr PIPE c); simpl; [lia|].
  intros H. destruct (notchr LF c); simpl in H; [auto | discriminate].
Qed.

Lemma TABLE_LINE_PAT_two_pipes line :
  TABLE_LINE_PAT line = true -> 2 <= count_char PIPE line.
Proof.
  unfold TABLE_LINE_PAT.
  rewrite <- (takeWhile_dropWhile isspace line) at 2.
  rewrite count_char_app.
  destruct (dropWhile isspace line) as [|c r]; [discriminate|].
  intros H. apply andb_prop in H as [Hc Hr]. apply table_tail_pipe in Hr.
  unfold count_char in *. cbn [filter]. rewrite Hc. simpl. lia.
Qed.

(** X12: every count the scan holds for the open table block is 2 or more:
    a line of the table-row pattern has two pipes at least (a lone pipe is
    no table row). *)
Theorem table_counts_at_least_two R path max_len lines pre st out :
  scan_loop R path max_len lines 1 pre initial_state = Ok (st, out) ->
  Forall (fun n => 2 <= n) (table_block_pipe_counts st).
Proof.
  intros H. apply scan_loop_state in H. subst st.
  rewrite table_counts_fold, table_state_fold.
  apply Forall_forall. intros n Hn. apply in_map_iff in Hn as (row & <- & Hin).
  apply TABLE_LINE_PAT_two_pipes. unfold trailing_rows in Hin. apply in_rev in Hin.
  pose proof (takeWhile_all TABLE_LINE_PAT (rev (checked_lines initial_state pre))) as Ha.
  rewrite forallb_forall in Ha. apply Ha, Hin.
Qed.

Lemma table_counts_at_least_two_witness :
  let pre := [lit "x"; lit "|a|b|"; lit "||"] in
  let st := mkState false None [] 0 false [3; 2] in
  scan_loop plain_runtime (lit "a.md") 120 pre 1 pre initial_state = Ok (st, [])
  /\ Forall (fun n => 2 <= n) (table_block_pipe_counts st).
Proof.
  split; [reflexivity|].
  exact (table_counts_at_least_two plain_runtime (lit "a.md") 120
           [lit "x"; lit "|a|b|"; lit "||"] [lit "x"; lit "|a|b|"; lit "||"]
           _ _ eq_refl).
Defined.

(** *** The heading state *)

Lemma HEADING_PAT_level line hashes text :
  HEADING_PAT line = Some (hashes, text) -> 1 <= length hashes <= 6.
Proof.
  unfold HEADING_PAT.
  destruct (firstn 6 (takeWhile (ischr HASH) line)) as [|h hs] eqn:E; [discriminate|].
  destruct (dot_star_eol _); simpl; [|discriminate].
  intros [= <- _]. split; [simpl; lia|].
  rewrite <- E, length_firstn. lia.
Qed.

Lemma latest_heading_level_snoc last cl l :
  latest_heading_level last (cl ++ [l]) =
  match HEADING_PAT l with
  | Some (hashes, _) => length hashes
  | None => latest_heading_level last cl
  end.
Proof. unfold latest_heading_level. now rewrite fold_left_app. Qed.

Lemma seen_h1_fold ls st :
  seen_h1 (fold_left next_state ls st) =
  seen_h1 st || existsb is_h1 (checked_lines st ls).
Proof.
  revert st. induction ls as [|l r IH]; intros st; cbn [fold_left checked_lines].
  - now rewrite orb_false_r.
  - rewrite IH, next_state_seen, existsb_app.
    destruct (checked st l); cbn [andb existsb]; [|now rewrite orb_false_r].
    now rewrite orb_false_r, orb_assoc.
Qed.

(** X13: at every point of the scan [last_heading_level] is at most 6, it
    is 0 exactly while no heading line has been scanned outside the fences,
    and [seen_h1] is set exactly when one of level 1 has. *)
Theorem heading_state_invariant R path max_len lines pre st out :
  scan_loop R path max_len lines 1 pre initial_state = Ok (st, out) ->
  last_heading_level st <= 6
  /\ (last_heading_level st = 0
      <-> Forall (fun l => HEADING_PAT l = None) (checked_lines initial_state pre))
  /\ (seen_h1 st = true
      <-> Exists (fun l => is_h1 l = true) (checked_lines initial_state pre)).
Proof.
  intros H. apply scan_loop_state in H. subst st.
  rewrite last_heading_level_spec, seen_h1_fold. cbn [initial_state last_heading_level seen_h1 orb].
  split; [|split].
  - induction (checked_lines initial_state pre) as [|l cl IH] using rev_ind;
      [cbn; lia|].
    rewrite latest_heading_level_snoc.
    destruct (HEADING_PAT l) as [[hashes text]|] eqn:E; [|exact IH].
    apply HEADING_PAT_level in E. lia.
  - induction (checked_lines initial_state pre) as [|l cl IH] using rev_ind.
    + split; [constructor | reflexivity].
    + rewrite latest_heading_level_snoc, Forall_app.
      destruct (HEADING_PAT l) as [[hashes text]|] eqn:E.
      * pose proof (HEADING_PAT_level _ _ _ E). split; [lia|].
        intros [_ Hl]. inversion Hl; subst. congruence.
      * rewrite IH. split; [intros Hc; split; [exact Hc | repeat constructor; exact E]
                           | tauto].
  - rewrite existsb_exists, Exists_exists. reflexivity.
Qed.

Lemma heading_state_invariant_witness :
  let pre := [lit "### a"; lit "x"; lit "# b"] in
  let st := mkState false None [] 1 true [] in
  scan_loop plain_runtime (lit "a.md") 120 pre 1 pre initial_state = Ok (st, [])
  /\ last_heading_level st <= 6
  /\ (last_heading_level st = 0
      <-> Forall (fun l => HEADING_PAT l = None) (checked_lines initial_state pre))
  /\ (seen_h1 st = true
      <-> Exists (fun l => is_h1 l = true) (checked_lines initial_state pre)).
Proof.
  split; [reflexivity|].
  exact (heading_state_invariant plain_runtime (lit "a.md") 120
           [lit "### a"; lit "x"; lit "# b"] [lit "### a"; lit "x"; lit "# b"]
           _ _ eq_refl).
Defined.

(** *** Lines and text *)

Lemma splitlines_line l rest :
  forallb (fun c => negb (islinebreak c)) l = true ->
  splitlines (l ++ LF :: rest) = l :: splitlines rest.
Proof.
  induction l as [|c r IH]; intros H.
  - reflexivity.
  - cbn [forallb] in H. apply andb_prop in H as [Hc Hr].
    cbn [app splitlines]. apply negb_true_iff in Hc. rewrite Hc.
    now rewrite (IH Hr).
Qed.

(** X14: cutting a text into lines undoes joining lines with line feeds:
    for lines that hold no line boundary, [splitlines] of their join gives
    the lines back; and no line [splitlines] returns holds a line
    boundary. *)
Theorem splitlines_join_lines :
  (forall ls,
     Forall (fun l => forallb (fun c => negb (islinebreak c)) l = true) ls ->
     splitlines (join_lines ls) = ls)
  /\ (forall raw,
        Forall (fun l => forallb (fun c => negb (islinebreak c)) l = true)
          (splitlines raw)).
Proof.
  split; [|apply splitlines_no_linebreak].
  intros ls H. induction H as [|l ls Hl _ IH]; [reflexivity|].
  unfold join_lines in *. cbn [flat_map]. rewrite <- app_assoc. cbn [app].
  now rewrite (splitlines_line l _ Hl), IH.
Qed.

Lemma splitlines_join_lines_witness :
  let ls := [lit "a"; []; lit "b "] in
  join_lines ls = text_of ["a"; ""; "b "]%string
  /\ splitlines (join_lines ls) = ls.
Proof.
  split; [reflexivity|].
  apply (proj1 splitlines_join_lines [lit "a"; []; lit "b "]).
  repeat constructor.
Defined.

(** *** Inline code spans *)

Lemma inline_code_removed_skip inner n rest :
  inline_code_removed (length inner + n) (inner ++ rest) = inline_code_removed n rest.
Proof.
  induction inner as [|c r IH]; [reflexivity|]. cbn [length app Nat.add].
  cbn [inline_code_removed]. exact IH.
Qed.

Lemma dropWhile_head {A} (p : A -> bool) l x r :
  dropWhile p l = x :: r -> p x = false.
Proof.
  induction l as [|y l IH]; simpl; [discriminate|].
  destruct (p y) eqn:E; [exact IH|]. now intros [= <- _].
Qed.

Lemma count_char_none c s : forallb (notchr c) s = true -> count_char c s = 0.
Proof.
  unfold count_char. induction s as [|d r IH]; simpl; [reflexivity|].
  unfold notchr, ischr. destruct (N.eqb d c); simpl; [discriminate | exact IH].
Qed.

Lemma inline_code_backticks n :
  forall s, length s <= n ->
  count_char BACKTICK (inline_code_removed 0 s) = count_char BACKTICK s mod 2.
Proof.
  induction n as [|n IH]; intros s Hn.
  - destruct s; [reflexivity | simpl in Hn; lia].
  - destruct s as [|c r]; [reflexivity|]. simpl in Hn.
    cbn [inline_code_removed]. unfold span.
    destruct (ischr BACKTICK c) eqn:Ec.
    + pose proof (takeWhile_dropWhile (notchr BACKTICK) r) as Hr.
      pose proof (takeWhile_all (notchr BACKTICK) r) as Hinner.
      set (inner := takeWhile (notchr BACKTICK) r) in *.
      destruct (dropWhile (notchr BACKTICK) r) as [|b rest] eqn:Ed.
      * rewrite app_nil_r in Hr. rewrite <- Hr.
        rewrite inline_code_removed_none.
        2:{ unfold contains. clear -Hinner. induction inner as [|d l IHl];
              [reflexivity|]. cbn in *. apply andb_prop in Hinner as [Hd Hl].
            unfold notchr in Hd. unfold ischr.
            apply negb_true_iff in Hd. rewrite Hd. auto. }
        unfold count_char. cbn [filter]. rewrite Ec. cbn [length].
        fold (count_char BACKTICK inner). now rewrite (count_char_none _ _ Hinner).
      * apply dropWhile_head in Ed as Hb. unfold notchr in Hb.
        apply negb_false_iff in Hb.
        rewrite <- Hr at 1.
        replace (S (length inner)) with (length inner + 1) by lia.
        rewrite inline_code_removed_skip. cbn [inline_code_removed].
        rewrite IH.
        2:{ rewrite <- Hr, length_app in Hn. simpl in Hn. lia. }
        rewrite <- Hr.
        change (c :: inner ++ b :: rest) with ([c] ++ inner ++ [b] ++ rest).
        rewrite !count_char_app, (count_char_none _ _ Hinner).
        unfold count_char at 2 3. cbn [filter]. unfold ischr at 2. rewrite Ec, Hb.
        cbn [length].
        replace (1 + (0 + (1 + count_char BACKTICK rest)))
          with (count_char BACKTICK rest + 1 * 2) by lia.
        now rewrite Nat.Div0.mod_add.
    + unfold count_char. cbn [filter]. rewrite Ec.
      fold (count_char BACKTICK (inline_code_removed 0 r)).
      fold (count_char BACKTICK r). apply IH. lia.
Qed.

(** X15: removing the inline code spans of a line takes the backticks away
    in pairs, leftmost first: what is left holds one backtick when the line
    has an odd number of them and none otherwise; it is never longer than
    the line, and it is the line itself when the line has no backtick. *)
Theorem inline_code_spans_removed line :
  count_char BACKTICK (INLINE_CODE_PAT_sub line) = count_char BACKTICK line mod 2
  /\ length (INLINE_CODE_PAT_sub line) <= length line
  /\ (contains BACKTICK line = false -> INLINE_CODE_PAT_sub line = line).
Proof.
  split; [exact (inline_code_backticks (length line) line (Nat.le_refl _))|].
  split; [apply inline_code_removed_length | apply inline_code_removed_none].
Qed.

(** *** Links *)

Lemma link_at_sound s n text url :
  link_at s = Some (n, text, url) ->
  exists bang rest,
    (bang = [] \/ bang = [BANG])
    /\ s = bang ++ LBRACKET :: text ++ RBRACKET :: LPAREN :: url ++ RPAREN :: rest
    /\ n = length bang + length text + length url + 4
    /\ url <> []
    /\ forallb (notchr RBRACKET) text = true
    /\ forallb (notchr RPAREN) url = true.
Proof.
  unfold link_at. intros H.
  assert (Hgen : exists bang r0,
            (bang = [] \/ bang = [BANG]) /\ s = bang ++ r0
            /\ match r0 with
               | c :: r1 =>
                   if ischr LBRACKET c then
                     let (text0, r2) := span (notchr RBRACKET) r1 in
                     match r2 with
                     | _ :: d :: r3 =>
                         if ischr LPAREN d then
                           let (url0, r4) := span (notchr RPAREN) r3 in
                           match url0, r4 with
                           | _ :: _, _ :: _ =>
                               Some (length bang + 1 + length text0 + 2
                                     + length url0 + 1, text0, url0)
                           | _, _ => None
                           end
                         else None
                     | _ => None
                     end
                   else None
               | [] => None
               end = Some (n, text, url)).
  { destruct s as [|c r]; [discriminate H|].
    destruct (ischr BANG c) eqn:Eb.
    - exists [BANG], r. split; [auto|]. split; [|exact H].
      unfold ischr in Eb. apply N.eqb_eq in Eb. now subst c.
    - exists [], (c :: r). auto. }
  clear H. destruct Hgen as (bang & r0 & Hbang & -> & H).
  destruct r0 as [|c r1]; [discriminate H|].
  destruct (ischr LBRACKET c) eqn:Ec; [|discriminate H].
  unfold ischr in Ec. apply N.eqb_eq in Ec. subst c.
  unfold span in H.
  pose proof (takeWhile_dropWhile (notchr RBRACKET) r1) as E1.
  pose proof (takeWhile_all (notchr RBRACKET) r1) as A1.
  destruct (dropWhile (notchr RBRACKET) r1) as [|rb [|d r3]] eqn:Ed1;
    [discriminate H | discriminate H |].
  apply dropWhile_head in Ed1 as Hrb. unfold notchr in Hrb.
  apply negb_false_iff, N.eqb_eq in Hrb. subst rb.
  destruct (ischr LPAREN d) eqn:Ed; [|discriminate H].
  unfold ischr in Ed. apply N.eqb_eq in Ed. subst d.
  pose proof (takeWhile_dropWhile (notchr RPAREN) r3) as E2.
  pose proof (takeWhile_all (notchr RPAREN) r3) as A2.
  destruct (takeWhile (notchr RPAREN) r3) as [|u us] eqn:Eu; [discriminate H|].
  destruct (dropWhile (notchr RPAREN) r3) as [|rp rest] eqn:Ed2; [discriminate H|].
  apply dropWhile_head in Ed2 as Hrp. unfold notchr in Hrp.
  apply negb_false_iff, N.eqb_eq in Hrp. subst rp.
  injection H as <- <- <-.
  exists bang, rest. split; [exact Hbang|].
  split; [now rewrite E2, E1|].
  split; [cbn [length]; lia|].
  split; [discriminate|]. auto.
Qed.

Lemma finditer_from_sound pos skip s lm :
  In lm (finditer_from pos skip s) ->
  exists n,
    pos <= lm_start lm
    /\ link_at (skipn (lm_start lm - pos) s) = Some (n, lm_text lm, lm_url lm).
Proof.
  revert pos skip. induction s as [|c r IH]; intros pos skip H; [destruct H|].
  cbn [finditer_from] in H.
  assert (Hrec : forall k, In lm (finditer_from (S pos) k r) ->
            exists n, pos <= lm_start lm
              /\ link_at (skipn (lm_start lm - pos) (c :: r))
                 = Some (n, lm_text lm, lm_url lm)).
  { intros k Hk. destruct (IH _ _ Hk) as (n & Hle & Hn). exists n.
    split; [lia|].
    replace (lm_start lm - pos) with (S (lm_start lm - S pos)) by lia.
    exact Hn. }
  destruct skip as [|k]; [|eapply Hrec; exact H].
  destruct (link_at (c :: r)) as [[[n text] url]|] eqn:E; [|eapply Hrec; exact H].
  destruct H as [<-|H]; [|eapply Hrec; exact H].
  exists n. cbn [lm_start lm_text lm_url]. rewrite Nat.sub_diag. auto.
Qed.

Lemma link_match_occurrence line lm :
  In lm (LINK_PAT_finditer line) ->
  exists bang rest,
    (bang = [] \/ bang = [BANG])
    /\ skipn (lm_start lm) line
       = bang ++ LBRACKET :: lm_text lm ++ RBRACKET :: LPAREN :: lm_url lm
              ++ RPAREN :: rest
    /\ lm_url lm <> []
    /\ forallb (notchr RBRACKET) (lm_text lm) = true
    /\ forallb (notchr RPAREN) (lm_url lm) = true.
Proof.
  intros H. apply finditer_from_sound in H as (n & _ & H).
  rewrite Nat.sub_0_r in H.
  apply link_at_sound in H as (bang & rest & Hb & Hs & _ & Hu & Ht & Hp).
  exists bang, rest. auto.
Qed.

(** X16: every match the scan takes from a line is an occurrence of the
    link construct in it: from the position of the match the line reads an
    optional '!', '[', the text, ']', '(', the target, ')'; the text holds
    no ']', the target holds no ')' and is not empty. *)
Theorem link_match_sound line lm :
  In lm (LINK_PAT_finditer line) ->
  exists bang rest,
    (bang = [] \/ bang = [BANG])
    /\ skipn (lm_start lm) line
       = bang ++ LBRACKET :: lm_text lm ++ RBRACKET :: LPAREN :: lm_url lm
              ++ RPAREN :: rest
    /\ lm_url lm <> []
    /\ forallb (notchr RBRACKET) (lm_text lm) = true
    /\ forallb (notchr RPAREN) (lm_url lm) = true.
Proof. apply link_match_occurrence. Qed.

Lemma link_match_sound_witness :
  let line := lit "x ![a](b) [c](d)" in
  let lm := mkLinkMatch 2 (lit "a") (lit "b") in
  LINK_PAT_finditer line = [lm; mkLinkMatch 10 (lit "c") (lit "d")]
  /\ exists bang rest,
       (bang = [] \/ bang = [BANG])
       /\ skipn (lm_start lm) line
          = bang ++ LBRACKET :: lm_text lm ++ RBRACKET :: LPAREN :: lm_url lm
                 ++ RPAREN :: rest
       /\ lm_url lm <> []
       /\ forallb (notchr RBRACKET) (lm_text lm) = true
       /\ forallb (notchr RPAREN) (lm_url lm) = true.
Proof.
  split; [reflexivity|].
  apply (link_match_sound (lit "x ![a](b) [c](d)")
           (mkLinkMatch 2 (lit "a") (lit "b"))).
  left. reflexivity.
Defined.

Lemma scan_loop_In R path max_len lines i todo st st' out x :
  scan_loop R path max_len lines i todo st = Ok (st', out) ->
  In x out ->
  exists k line st1 st2 o,
    nth_error todo k = Some line
    /\ scan_line R path max_len lines (i + k) line st1 = Ok (st2, o)
    /\ In x o.
Proof.
  revert i st st' out. induction todo as [|l r IH]; simpl; intros i st st' out H Hx.
  - injection H as _ <-. destruct Hx.
  - inv_bind H. destruct a as [st1 o1]. inv_bind H. destruct a as [st2 o2].
    injection H as _ <-. apply in_app_or in Hx as [Hx|Hx].
    + exists 0, l, st, st1, o1. rewrite Nat.add_0_r. auto.
    + destruct (IH _ _ _ _ Ha0 Hx) as (k & line & sa & sb & o & Hk & Hs & Ho).
      exists (S k), line, sa, sb, o. rewrite Nat.add_succ_r. auto.
Qed.

Lemma for_each_In {A B} (f : A -> result (list B)) xs out y :
  for_each f xs = Ok out -> In y out ->
  exists x o, In x xs /\ f x = Ok o /\ In y o.
Proof.
  revert out. induction xs as [|x r IH]; simpl; intros out H Hy.
  - injection H as <-. destruct Hy.
  - inv_bind H. inv_bind H. injection H as <-. apply in_app_or in Hy as [Hy|Hy].
    + exists x, a. auto.
    + destruct (IH _ Ha0 Hy) as (z & o & Hz & Hf & Ho). exists z, o. auto.
Qed.

Ltac disjoint_codes :=
  let c := fresh "c" in
  let H1 := fresh "H" in
  let H2 := fresh "H" in
  intros c H1 H2; unfold heading_codes, link_codes in *; simpl in H1, H2;
  intuition (subst; discriminate).

Lemma link_In R path i line lm out x :
  In lm (LINK_PAT_finditer line) ->
  link R path i line lm = Ok out -> In x out ->
  Issue.col x = (Z.of_nat (lm_start lm) + 1)%Z /\ link_cause R line lm x.
Proof.
  intros Hlm H Hx.
  destruct (link_match_occurrence line lm Hlm) as (bang & rest & Hb & Hs & Hu & _ & _).
  unfold link in H. inv_bind H. inv_bind H. injection H as <-.
  unfold list_get in Ha.
  destruct (Z.ltb_spec (Z.of_nat (lm_start lm)) 0); [lia|].
  destruct (Z.leb_spec 0 (Z.of_nat (lm_start lm))); [|lia].
  rewrite Nat2Z.id in Ha.
  destruct (nth_error line (lm_start lm)) as [c|] eqn:Ec; [|discriminate Ha].
  injection Ha as <-.
  assert (Hfirst : nth_error line (lm_start lm) = hd_error (skipn (lm_start lm) line)).
  { clear. generalize (lm_start lm). intros n. revert n.
    induction line as [|d l IH]; intros [|n]; try reflexivity. apply IH. }
  rewrite Hs, Ec in Hfirst.
  unfold link_cause.
  apply in_app_or in Hx as [Hx|Hx]; [|apply in_app_or in Hx as [Hx|Hx]].
  - destruct (blank (lm_text lm)) eqn:Et; [|destruct Hx].
    destruct Hx as [<-|[]]. split; [reflexivity|].
    destruct Hb as [-> | ->]; cbn in Hfirst; injection Hfirst as ->; cbn.
    + right. left. auto.
    + left. auto.
  - destruct (blank (lm_url lm)) eqn:Eu; [|destruct Hx].
    destruct Hx as [<-|[]]. split; [reflexivity|]. right. right. left. cbn. auto.
  - destruct (scheme a0) as [|s0 ss] eqn:Es; [destruct Hx|].
    destruct (negb (standard_scheme (s0 :: ss))) eqn:En; [|destruct Hx].
    destruct Hx as [<-|[]]. split; [reflexivity|]. right. right. right. cbn.
    split; [reflexivity|]. exists a0. rewrite Es.
    apply negb_true_iff in En. repeat split; [exact Ha0 | discriminate | exact En].
Qed.

(** X17: every link or image issue of a document has its cause in a match
    of the link pattern on the line it names, at the column it names:
    E-NOALTTEXT a match that starts with '!' and whose text is blank,
    W-EMPTYLINKTEXT one that starts with '[' and whose text is blank,
    E-EMPTYURL one whose target is white space only (and not empty), and
    W-SCHEME one whose target has a scheme other than http, https and
    mailto, which the message names. *)
Theorem link_issue_sound R path raw max_len issues x :
  check_file R path (Text raw) max_len false = Ok issues ->
  In x issues -> In (Issue.code x) link_codes ->
  exists k line lm,
    nth_error (splitlines raw) k = Some line
    /\ Issue.line x = Z.of_nat (S k)
    /\ In lm (LINK_PAT_finditer line)
    /\ Issue.col x = (Z.of_nat (lm_start lm) + 1)%Z
    /\ link_cause R line lm x.
Proof.
  intros H Hx Hc.
  apply check_file_Text in H as (st & found & tables & Hloop & Ht & ->).
  assert (Hf : In x found).
  { apply in_app_or in Hx as [Hx|Hx].
    { unfold crlf_check in Hx. destruct (CRLF_PAT raw); [|destruct Hx].
      destruct Hx as [<-|[]]. revert Hc. cbn. not_in_codes. }
    apply in_app_or in Hx as [Hx|Hx].
    { unfold eof_newline_check in Hx. destruct (negb _); [|destruct Hx].
      destruct Hx as [<-|[]]. revert Hc. cbn. not_in_codes. }
    apply in_app_or in Hx as [Hx|Hx]; [exact Hx|].
    apply in_app_or in Hx as [Hx|Hx].
    { unfold open_fence_check in Hx. destruct (in_fence st); [|destruct Hx].
      destruct Hx as [<-|[]]. revert Hc. cbn. not_in_codes. }
    unfold from_line in Ht. rewrite Forall_forall in Ht.
    destruct (Ht x Hx) as [_ [E|[]]]. rewrite <- E in Hc. revert Hc. cbn.
    not_in_codes. }
  destruct (scan_loop_In _ _ _ _ _ _ _ _ _ _ Hloop Hf)
    as (k & line & st1 & st2 & o & Hk & Hstep & Ho).
  pose proof (scan_line_from _ _ _ _ _ _ _ _ _ Hstep) as Hfrom.
  unfold from_line in Hfrom. rewrite Forall_forall in Hfrom.
  destruct (Hfrom x Ho) as [Hline _].
  exists k, line.
  apply scan_line_inv in Hstep as [[_ ->]|[(_ & _ & ->)|(_ & _ & Hcase)]].
  - destruct Ho.
  - exfalso. pose proof (trailing_space_from path (1 + k) line trail_in_fence_message) as F.
    unfold from_line in F. rewrite Forall_forall in F.
    destruct (F x Ho) as [_ [E|[]]]. rewrite <- E in Hc. revert Hc. cbn.
    not_in_codes.
  - destruct Hcase as (mb & tabs & links & counts & tables' & Hmb & Htab & Hl & Htb & ->).
    pose proof (checked_line_components _ _ max_len _ _ _ _ _ _ _ _ _ Hmb Htab Hl Htb)
      as (Ftrail & Fmb & Flen & Ftab & Fhead & Flink & Ftable & Flist).
    assert (Hother : forall cs l, from_line (1 + k) cs l -> In x l ->
                       (forall c, In c cs -> ~ In c link_codes) -> False).
    { intros cs l F Hin Hcs. unfold from_line in F. rewrite Forall_forall in F.
      destruct (F x Hin) as [_ E]. exact (Hcs _ E Hc). }
    assert (Hlinks : In x links).
    { apply in_app_or in Ho as [Ho|Ho]; [exfalso; apply (Hother _ _ Ftrail Ho); disjoint_codes|].
      apply in_app_or in Ho as [Ho|Ho]; [exfalso; apply (Hother _ _ Fmb Ho); disjoint_codes|].
      apply in_app_or in Ho as [Ho|Ho]; [exfalso; apply (Hother _ _ Flen Ho); disjoint_codes|].
      apply in_app_or in Ho as [Ho|Ho]; [exfalso; apply (Hother _ _ Ftab Ho); disjoint_codes|].
      apply in_app_or in Ho as [Ho|Ho]; [exfalso; apply (Hother _ _ Fhead Ho); disjoint_codes|].
      apply in_app_or in Ho as [Ho|Ho]; [exact Ho|].
      apply in_app_or in Ho as [Ho|Ho]; [exfalso; apply (Hother _ _ Ftable Ho); disjoint_codes|].
      exfalso. apply (Hother _ _ Flist Ho). disjoint_codes. }
    destruct (for_each_In _ _ _ _ Hl Hlinks) as (lm & o & Hlm & Hlink & Hxo).
    exists lm. destruct (link_In _ _ _ _ _ _ _ Hlm Hlink Hxo) as [Hcol Hcause].
    split; [exact Hk|]. split; [exact Hline|]. auto.
Qed.

Lemma link_issue_sound_witness :
  let line := lit "[](ftp://x)" in
  let raw := text_of ["[](ftp://x)"]%string in
  let x := issue (lit "a.md") 1 1 "W-SCHEME" (scheme_message (lit "ftp"))
             (lit "ftp://x") in
  let issues :=
    [issue (lit "a.md") 1 1 "W-EMPTYLINKTEXT" emptylinktext_message line; x] in
  check_file plain_runtime (lit "a.md") (Text raw) 120 false = Ok issues
  /\ exists k line lm,
       nth_error (splitlines raw) k = Some line
       /\ Issue.line x = Z.of_nat (S k)
       /\ In lm (LINK_PAT_finditer line)
       /\ Issue.col x = (Z.of_nat (lm_start lm) + 1)%Z
       /\ link_cause plain_runtime line lm x.
Proof.
  split; [reflexivity|].
  apply (link_issue_sound plain_runtime (lit "a.md")
           (text_of ["[](ftp://x)"]%string) 120 _ _ eq_refl).
  - right. left. reflexivity.
  - simpl. auto.
Defined.

(** *** The targets [urlparse] accepts, and the scheme it finds *)

Lemma dropWhile_incl {A} (p : A -> bool) l : incl (dropWhile p l) l.
Proof.
  induction l as [|x r IH]; simpl; [apply incl_refl|].
  destruct (p x); [apply incl_tl, IH | apply incl_refl].
Qed.

Lemma takeWhile_incl {A} (p : A -> bool) l : incl (takeWhile p l) l.
Proof.
  induction l as [|x r IH]; simpl; [apply incl_refl|].
  destruct (p x); [|intros y []].
  intros y [<-|Hy]; [now left | right; apply IH, Hy].
Qed.

Lemma skipn_incl {A} n (l : list A) : incl (skipn n l) l.
Proof.
  intros x Hx. rewrite <- (firstn_skipn n l). apply in_or_app. now right.
Qed.

Lemma firstn_incl {A} n (l : list A) : incl (firstn n l) l.
Proof.
  intros x Hx. rewrite <- (firstn_skipn n l). apply in_or_app. now left.
Qed.

Lemma contains_incl c s t : incl s t -> contains c t = false -> contains c s = false.
Proof.
  unfold contains. intros Hi Ht.
  destruct (existsb (ischr c) s) eqn:E; [|reflexivity].
  apply existsb_exists in E as (x & Hx & Hc).
  rewrite <- Ht. symmetry. apply existsb_exists. exists x. auto.
Qed.

Lemma forallb_incl {A} (p : A -> bool) s t :
  incl s t -> forallb p t = true -> forallb p s = true.
Proof.
  intros Hi Ht. apply forallb_forall. intros x Hx.
  rewrite forallb_forall in Ht. auto.
Qed.

(** The network location [urlparse] splits off is made of characters of the
    URL, and so is what the scheme is read from. *)
Lemma urlparse_cleaned_incl url :
  incl (filter (fun c => negb (ischr TAB c || ischr CR c || ischr LF c))
          (dropWhile (fun c => (c <=? 32)%N) url)) url.
Proof.
  intros x Hx. apply filter_In in Hx as [Hx _]. exact (dropWhile_incl _ _ _ Hx).
Qed.




(** X19: the scheme [urlparse] finds.  A target without ':' has none (so
    W-SCHEME is not reported for it); a scheme that is found is what stands
    before the first ':' of the target (leading controls and spaces
    stripped, tabs and line ends removed), made of letters, digits, '+', '-'
    and '.', put in lower case. *)
Theorem urlparse_scheme R url p :
  urlparse R url = Ok p ->
  (contains COLON url = false -> scheme p = [])
  /\ (scheme p <> [] ->
      exists pre rest,
        filter (fun c => negb (ischr TAB c || ischr CR c || ischr LF c))
          (dropWhile (fun c => (c <=? 32)%N) url) = pre ++ COLON :: rest
        /\ forallb (notchr COLON) pre = true
        /\ forallb is_scheme_char pre = true
        /\ scheme p = map lower pre).
Proof.
  unfold urlparse. intros H.
  pose proof (urlparse_cleaned_incl url) as Hincl.
  set (url2 := filter (fun c => negb (ischr TAB c || ischr CR c || ischr LF c))
                 (dropWhile (fun c => (c <=? 32)%N) url)) in *.
  assert (Hs : forall sch rest,
            match str_find COLON url2, url2 with
            | Some (S i), c0 :: _ =>
                if is_ascii_alpha c0 && forallb is_scheme_char (firstn (S i) url2)
                then (map lower (firstn (S i) url2), skipn (S (S i)) url2)
                else ([], url2)
            | _, _ => ([], url2)
            end = (sch, rest) ->
            (contains COLON url = false -> sch = [])
            /\ (sch <> [] ->
                exists pre rest',
                  url2 = pre ++ COLON :: rest'
                  /\ forallb (notchr COLON) pre = true
                  /\ forallb is_scheme_char pre = true
                  /\ sch = map lower pre)).
  { intros sch rest E.
    destruct (str_find COLON url2) as [[|i]|] eqn:Ef;
      try (injection E as <- _; split; [reflexivity | congruence]).
    destruct url2 as [|c0 r] eqn:E2;
      [injection E as <- _; split; [reflexivity | congruence]|].
    rewrite <- E2 in *.
    destruct (is_ascii_alpha c0 && forallb is_scheme_char (firstn (S i) url2)) eqn:Ea;
      [|injection E as <- _; split; [reflexivity | congruence]].
    injection E as <- _.
    apply str_find_first in Ef as [Hnth Hbefore].
    apply andb_prop in Ea as [_ Hchars].
    split.
    - intros Hno. exfalso.
      assert (Hc : contains COLON url2 = false) by exact (contains_incl _ _ _ Hincl Hno).
      unfold contains in Hc.
      assert (Hin : In COLON url2) by (eapply nth_error_In; exact Hnth).
      assert (Ht : existsb (ischr COLON) url2 = true).
      { apply existsb_exists. exists COLON. split; [exact Hin | reflexivity]. }
      congruence.
    - intros _. apply nth_error_split in Hnth as (l1 & l2 & Hsplit & Hlen).
      exists l1, l2.
      assert (Hf : firstn (S i) url2 = l1).
      { rewrite Hsplit, <- Hlen. rewrite firstn_app, Nat.sub_diag, firstn_all.
        simpl. apply app_nil_r. }
      rewrite Hf in *.
      change (match url2 with [] => [] | a :: l => a :: firstn i l end)
        with (firstn (S i) url2).
      rewrite Hf. auto. }
  destruct (match str_find COLON url2, url2 with
            | Some (S i), c0 :: _ => _ | _, _ => _ end) as [sch url3] eqn:E.
  specialize (Hs sch url3 eq_refl).
  assert (Hp : scheme p = sch).
  { destruct (startswith [SLASH; SLASH] url3).
    - destruct (_ || _); [discriminate H|].
      inv_bind H. inv_bind H. now injection H as <-.
    - inv_bind H. now injection H as <-. }
  rewrite Hp. exact Hs.
Qed.

Lemma urlparse_scheme_witness :
  let url := lit " HTTP://x" in
  let p := mkParseResult (lit "http") (lit "x") in
  urlparse plain_runtime url = Ok p
  /\ (contains COLON url = false -> scheme p = [])
  /\ (scheme p <> [] ->
      exists pre rest,
        filter (fun c => negb (ischr TAB c || ischr CR c || ischr LF c))
          (dropWhile (fun c => (c <=? 32)%N) url) = pre ++ COLON :: rest
        /\ forallb (notchr COLON) pre = true
        /\ forallb is_scheme_char pre = true
        /\ scheme p = map lower pre).
Proof.
  split; [reflexivity|].
  exact (urlparse_scheme plain_runtime (lit " HTTP://x") _ eq_refl).
Defined.

(** ** Finding the documents *)

(** *** Extensions *)

Lemma str_rfind_spec c s :
  match str_rfind c s with
  | Some k => nth_error s k = Some c
              /\ forallb (notchr c) (skipn (S k) s) = true
  | None => forallb (notchr c) s = true
  end.
Proof.
  induction s as [|d r IH]; simpl; [reflexivity|].
  destruct (str_rfind c r) as [k|].
  - exact IH.
  - unfold ischr, notchr in *. destruct (N.eqb_spec d c) as [->|Hne].
    + simpl. auto.
    + simpl. exact IH.
Qed.

Lemma str_rfind_lt c s k : str_rfind c s = Some k -> k < length s.
Proof.
  intros E. pose proof (str_rfind_spec c s) as H. rewrite E in H.
  apply nth_error_Some. destruct H as [-> _]. discriminate.
Qed.

Lemma str_rfind_app_none c s t :
  forallb (notchr c) t = true -> str_rfind c (s ++ t) = str_rfind c s.
Proof.
  intros Ht. induction s as [|d r IH]; simpl.
  - induction t as [|x t IHt]; simpl; [reflexivity|].
    simpl in Ht. apply andb_prop in Ht as [Hx Ht]. rewrite (IHt Ht).
    unfold notchr in Hx. apply negb_true_iff in Hx. unfold ischr. now rewrite Hx.
  - now rewrite IH.
Qed.

Lemma str_rfind_app_last c s t :
  forallb (notchr c) t = true -> str_rfind c (s ++ c :: t) = Some (length s).
Proof.
  intros Ht. induction s as [|d r IH]; simpl.
  - pose proof (str_rfind_app_none c [] t Ht) as E. simpl in E. rewrite E.
    unfold ischr. now rewrite N.eqb_refl.
  - now rewrite IH.
Qed.

Lemma forallb_notchr_nth c s k :
  forallb (notchr c) s = true -> nth_error s k <> Some c.
Proof.
  intros Hs Hk. apply nth_error_In in Hk.
  rewrite forallb_forall in Hs. specialize (Hs c Hk).
  unfold notchr in Hs. now rewrite N.eqb_refl in Hs.
Qed.

Lemma nth_error_skipn_shift {A} (l : list A) n k :
  nth_error (skipn n l) k = nth_error l (n + k).
Proof.
  revert l. induction n as [|n IH]; intros l; [reflexivity|].
  destruct l as [|x r]; [now destruct k|]. apply IH.
Qed.

(** A path whose last component holds no dot has no extension. *)
Lemma splitext_no_dot p :
  forallb (notchr DOT) (basename p) = true -> splitext p = (p, []).
Proof.
  unfold splitext, basename. intros Hb.
  pose proof (str_rfind_spec DOT p) as Hd.
  destruct (str_rfind DOT p) as [d|].
  - destruct Hd as [Hd _].
    destruct (str_rfind SLASH p) as [k|] eqn:Ek.
    + assert (d < S k).
      { destruct (Nat.lt_ge_cases d (S k)) as [Hlt|Hge]; [exact Hlt|].
        exfalso. apply (forallb_notchr_nth DOT (skipn (S k) p) (d - S k) Hb).
        rewrite nth_error_skipn_shift. now replace (S k + (d - S k)) with d by lia. }
      destruct (Z.gtb_spec (Z.of_nat d) (Z.of_nat k)); [lia | reflexivity].
    + exfalso. exact (forallb_notchr_nth DOT p d Hb Hd).
  - destruct (str_rfind SLASH p) as [k|]; [|reflexivity].
    destruct (Z.gtb_spec (-1) (Z.of_nat k)); [lia | reflexivity].
Qed.

(** A path that ends in a dot and a part with neither dot nor slash: that
    part is the extension, unless only dots stand before it in the last
    component. *)
Lemma splitext_dot root e :
  forallb (notchr DOT) e = true -> forallb (notchr SLASH) e = true ->
  splitext (root ++ DOT :: e)
  = if existsb (notchr DOT) (basename root) then (root, DOT :: e)
    else (root ++ DOT :: e, []).
Proof.
  intros Hdot Hslash. unfold splitext, basename.
  rewrite (str_rfind_app_last DOT root e Hdot).
  assert (Hs : forallb (notchr SLASH) (DOT :: e) = true) by (simpl; exact Hslash).
  rewrite (str_rfind_app_none SLASH root (DOT :: e) Hs).
  assert (Hfirst : firstn (length root) (root ++ DOT :: e) = root).
  { rewrite firstn_app, Nat.sub_diag, firstn_all. simpl. apply app_nil_r. }
  assert (Hskip : skipn (length root) (root ++ DOT :: e) = DOT :: e).
  { rewrite skipn_app, Nat.sub_diag, skipn_all. reflexivity. }
  rewrite Nat2Z.id, Hfirst, Hskip.
  destruct (str_rfind SLASH root) as [k|] eqn:Ek.
  - apply str_rfind_lt in Ek as Hk.
    destruct (Z.gtb_spec (Z.of_nat (length root)) (Z.of_nat k)); [|lia].
    replace (Z.to_nat (Z.of_nat k + 1)) with (S k) by lia. reflexivity.
  - destruct (Z.gtb_spec (Z.of_nat (length root)) (-1)); [|lia].
    reflexivity.
Qed.

Lemma str_eqb_eq a b : str_eqb a b = true <-> a = b.
Proof.
  revert b. induction a as [|x a IH]; intros [|y b]; simpl;
    try (split; [discriminate | discriminate]); [tauto|].
  rewrite andb_true_iff, N.eqb_eq, IH. split; [intros [-> ->] | intros [= -> ->]]; auto.
Qed.

Lemma basename_app s t :
  forallb (notchr SLASH) t = true -> basename (s ++ t) = basename s ++ t.
Proof.
  intros Ht. unfold basename. rewrite (str_rfind_app_none SLASH s t Ht).
  destruct (str_rfind SLASH s) as [k|] eqn:Ek; [|reflexivity].
  apply str_rfind_lt in Ek. rewrite skipn_app.
  replace (S k - length s) with 0 by lia. reflexivity.
Qed.

Lemma basename_slash s t :
  forallb (notchr SLASH) t = true -> basename (s ++ SLASH :: t) = t.
Proof.
  intros Ht. unfold basename. rewrite (str_rfind_app_last SLASH s t Ht).
  rewrite skipn_app, skipn_all2 by lia.
  replace (S (length s) - length s) with 1 by lia. reflexivity.
Qed.

Lemma basename_no_slash p : forallb (notchr SLASH) (basename p) = true.
Proof.
  unfold basename. pose proof (str_rfind_spec SLASH p) as H.
  destruct (str_rfind SLASH p); [apply H | exact H].
Qed.

Lemma basename_idem p : basename (basename p) = basename p.
Proof. exact (basename_app [] (basename p) (basename_no_slash p)). Qed.

(** A path whose last component holds a dot ends in a dot and a part with
    neither dot nor slash. *)
Lemma last_dot p :
  existsb (ischr DOT) (basename p) = true ->
  exists root e,
    p = root ++ DOT :: e
    /\ forallb (notchr DOT) e = true /\ forallb (notchr SLASH) e = true.
Proof.
  intros Hb. pose proof (basename_no_slash p) as Hns. unfold basename in *.
  pose proof (str_rfind_spec DOT p) as Hd.
  apply existsb_exists in Hb as (x & Hx & Hdot).
  unfold ischr in Hdot. apply N.eqb_eq in Hdot. subst x.
  assert (Hin : In DOT p).
  { destruct (str_rfind SLASH p); [|exact Hx].
    rewrite <- (firstn_skipn (S n) p). apply in_or_app. now right. }
  destruct (str_rfind DOT p) as [d|].
  2:{ exfalso. rewrite forallb_forall in Hd. specialize (Hd DOT Hin).
      unfold notchr in Hd. now rewrite N.eqb_refl in Hd. }
  destruct Hd as [Hnth Hafter].
  apply nth_error_split in Hnth as (l1 & l2 & Hp & Hlen).
  exists l1, l2. split; [exact Hp|].
  assert (Hl2 : skipn (S d) p = l2).
  { rewrite Hp, <- Hlen, skipn_app, skipn_all2 by lia.
    replace (S (length l1) - length l1) with 1 by lia. reflexivity. }
  rewrite Hl2 in Hafter. split; [exact Hafter|].
  destruct (str_rfind SLASH p) as [k|] eqn:Ek.
  - (* the last dot stands after the last slash *)
    apply In_nth_error in Hx as [j Hj]. rewrite nth_error_skipn_shift in Hj.
    assert (Hle : S k + j <= d).
    { destruct (Nat.le_gt_cases (S k + j) d) as [H|H]; [exact H|]. exfalso.
      apply (forallb_notchr_nth DOT l2 (S k + j - S d) Hafter).
      rewrite <- Hl2, nth_error_skipn_shift.
      now replace (S d + (S k + j - S d)) with (S k + j) by lia. }
    apply forallb_forall. intros x Hxin.
    rewrite forallb_forall in Hns. apply Hns.
    rewrite <- Hl2 in Hxin.
    replace (S d) with ((S d - S k) + S k) in Hxin by lia.
    rewrite <- skipn_skipn in Hxin.
    rewrite <- (firstn_skipn (S d - S k) (skipn (S k) p)).
    apply in_or_app. now right.
  - apply forallb_forall. intros x Hxin. rewrite forallb_forall in Hns.
    apply Hns. rewrite Hp. apply in_or_app. right. now right.
Qed.

Lemma has_dot_or_not s :
  forallb (notchr DOT) s = true \/ existsb (ischr DOT) s = true.
Proof.
  induction s as [|c r [IH|IH]]; simpl; [now left | |].
  - unfold notchr, ischr. destruct (N.eqb c DOT); simpl; [now right | now left].
  - right. rewrite IH. apply orb_true_r.
Qed.

(** The extension of a path is that of its last component. *)
Lemma splitext_basename p : snd (splitext p) = snd (splitext (basename p)).
Proof.
  destruct (has_dot_or_not (basename p)) as [Hno|Hdot].
  - rewrite (splitext_no_dot p Hno).
    rewrite (splitext_no_dot (basename p)); [reflexivity|].
    now rewrite basename_idem.
  - destruct (last_dot p Hdot) as (root & e & -> & He & Hs).
    assert (Hs' : forallb (notchr SLASH) (DOT :: e) = true) by exact Hs.
    rewrite (basename_app root (DOT :: e) Hs').
    rewrite !splitext_dot by assumption. rewrite basename_idem.
    now destruct (existsb (notchr DOT) (basename root)).
Qed.

Lemma endswith_slash a : endswith [SLASH] a = true -> exists r, a = r ++ [SLASH].
Proof.
  unfold endswith. change (rev [SLASH]) with [SLASH].
  destruct (rev a) as [|x l] eqn:E; cbn [startswith]; [discriminate|].
  rewrite andb_true_r. intros Hx. apply N.eqb_eq in Hx. subst x.
  exists (rev l). rewrite <- (rev_involutive a), E. reflexivity.
Qed.

Lemma basename_path_join root f :
  forallb (notchr SLASH) f = true -> basename (path_join root f) = f.
Proof.
  intros Hf. unfold path_join.
  assert (Hstart : startswith [SLASH] f = false).
  { destruct f as [|c r]; [reflexivity|]. cbn [forallb startswith] in *.
    apply andb_prop in Hf as [Hc _]. unfold notchr in Hc.
    apply negb_true_iff in Hc. rewrite N.eqb_sym, Hc. reflexivity. }
  rewrite Hstart.
  destruct (str_eqb root []) eqn:Er.
  - apply str_eqb_eq in Er. subst root. simpl.
    exact (basename_app [] f Hf).
  - simpl. destruct (endswith [SLASH] root) eqn:Ee.
    + apply endswith_slash in Ee as [r ->]. rewrite <- app_assoc. simpl.
      now apply basename_slash.
    + now apply basename_slash.
Qed.

Lemma is_markdown_file_basename H p :
  is_markdown_file H p = is_markdown_file H (basename p).
Proof. unfold is_markdown_file. now rewrite splitext_basename. Qed.

Lemma str_lower_nil H : str_lower H [] = [].
Proof. exact (str_lower_ascii H [] eq_refl). Qed.

(** X20: a path is taken for a markdown file only when it ends in a dot and
    an extension without dot or slash which, in lower case, is one of md,
    markdown, mdown and mkdn, and when the last component holds a character
    other than a dot before that dot: a file named ".md" is no markdown
    file. *)
Theorem is_markdown_file_sound H path :
  is_markdown_file H path = true ->
  exists root e,
    path = root ++ DOT :: e
    /\ forallb (notchr DOT) e = true /\ forallb (notchr SLASH) e = true
    /\ existsb (notchr DOT) (basename root) = true
    /\ In (str_lower H (DOT :: e)) markdown_extensions.
Proof.
  unfold is_markdown_file. intros Hm.
  destruct (has_dot_or_not (basename path)) as [Hno|Hdot].
  - rewrite (splitext_no_dot path Hno) in Hm. cbn [snd] in Hm.
    rewrite str_lower_nil in Hm. discriminate Hm.
  - destruct (last_dot path Hdot) as (root & e & -> & He & Hs).
    rewrite (splitext_dot root e He Hs) in Hm.
    destruct (existsb (notchr DOT) (basename root)) eqn:Eb.
    + cbn [snd] in Hm. exists root, e. repeat split; try assumption.
      apply existsb_exists in Hm as (x & Hx & Heq).
      apply str_eqb_eq in Heq. now subst x.
    + cbn [snd] in Hm. rewrite str_lower_nil in Hm. discriminate Hm.
Qed.

Lemma is_markdown_file_sound_witness :
  exists root e,
    lit "docs/a.b.MD" = root ++ DOT :: e
    /\ forallb (notchr DOT) e = true /\ forallb (notchr SLASH) e = true
    /\ existsb (notchr DOT) (basename root) = true
    /\ In (map lower (DOT :: e)) markdown_extensions.
Proof.
  apply (is_markdown_file_sound example_host (lit "docs/a.b.MD")).
  reflexivity.
Defined.

(** X21: for a path that ends in a dot and an ASCII part without dot or
    slash, the test is decided by that part and by what stands before the
    dot in the last component: the part, in lower case, is md, markdown,
    mdown or mkdn, and not only dots stand before the dot. *)
Theorem is_markdown_file_extension H root e :
  forallb (notchr DOT) e = true -> forallb (notchr SLASH) e = true ->
  forallb (fun c => (c <? 128)%N) e = true ->
  is_markdown_file H (root ++ DOT :: e)
  = existsb (notchr DOT) (basename root)
    && existsb (str_eqb (DOT :: map lower e)) markdown_extensions.
Proof.
  intros He Hs Ha. unfold is_markdown_file. rewrite (splitext_dot root e He Hs).
  destruct (existsb (notchr DOT) (basename root)); cbn [snd andb].
  - rewrite (str_lower_ascii H (DOT :: e)) by exact Ha. reflexivity.
  - now rewrite str_lower_nil.
Qed.

Lemma is_markdown_file_extension_witness :
  is_markdown_file example_host (lit "docs/.md" ++ DOT :: lit "Markdown") = true
  /\ is_markdown_file example_host (lit "docs/" ++ DOT :: lit "md") = false.
Proof.
  split.
  - rewrite (is_markdown_file_extension example_host (lit "docs/.md") (lit "Markdown"));
      reflexivity.
  - rewrite (is_markdown_file_extension example_host (lit "docs/") (lit "md"));
      reflexivity.
Defined.

(** *** The order of the result *)

Lemma str_compare_eq a b : str_compare a b = Eq <-> a = b.
Proof.
  revert b. induction a as [|x a IH]; intros [|y b]; simpl;
    try (split; discriminate); [tauto|].
  destruct (N.compare_spec x y) as [->|Hlt|Hgt].
  - rewrite IH. split; [now intros -> | now intros [= ->]].
  - split; [discriminate | intros [= -> _]; lia].
  - split; [discriminate | intros [= -> _]; lia].
Qed.

Lemma str_compare_antisym a b : str_compare b a = CompOpp (str_compare a b).
Proof.
  revert b. induction a as [|x a IH]; intros [|y b]; simpl; try reflexivity.
  rewrite (N.compare_antisym x y).
  destruct (N.compare x y); simpl; [apply IH | reflexivity | reflexivity].
Qed.

Lemma str_lt_trans a b c : str_lt a b -> str_lt b c -> str_lt a c.
Proof.
  unfold str_lt. revert b c.
  induction a as [|x a IH]; intros [|y b] [|z c]; simpl; try discriminate;
    try reflexivity.
  destruct (N.compare_spec x y) as [->|Hxy|Hxy]; try discriminate.
  - destruct (N.compare y z); try discriminate; [apply IH | reflexivity].
  - intros _. destruct (N.compare_spec y z) as [->|Hyz|Hyz]; try discriminate.
    + intros _. destruct (N.compare_spec x z); [lia | reflexivity | lia].
    + intros _. destruct (N.compare_spec x z); [lia | reflexivity | lia].
Qed.

Lemma str_lt_irrefl a : ~ str_lt a a.
Proof.
  unfold str_lt. intros H.
  assert (E : str_compare a a = Eq) by now apply str_compare_eq.
  congruence.
Qed.

Lemma insert_sorted_In x l y : In y (insert_sorted x l) <-> y = x \/ In y l.
Proof.
  induction l as [|z r IH]; simpl; [intuition|].
  destruct (str_compare x z) eqn:E; simpl.
  - apply str_compare_eq in E. subst z. intuition.
  - intuition.
  - rewrite IH. intuition.
Qed.

Lemma insert_sorted_Sorted x l :
  Sorted str_lt l -> Sorted str_lt (insert_sorted x l).
Proof.
  induction l as [|z r IH]; simpl; intros Hs; [repeat constructor|].
  destruct (str_compare x z) eqn:E.
  - exact Hs.
  - constructor; [exact Hs | constructor; exact E].
  - inversion Hs as [|? ? Hr Hhd]; subst. constructor; [apply IH, Hr|].
    assert (Hzx : str_lt z x).
    { unfold str_lt. rewrite str_compare_antisym, E. reflexivity. }
    destruct r as [|w r']; simpl; [now constructor|].
    destruct (str_compare x w); constructor; try assumption;
      now inversion Hhd.
Qed.

Lemma sorted_set_In l y : In y (sorted_set l) <-> In y l.
Proof.
  induction l as [|x r IH]; simpl; [tauto|].
  rewrite insert_sorted_In, IH. intuition.
Qed.

Lemma sorted_set_StronglySorted l : StronglySorted str_lt (sorted_set l).
Proof.
  apply Sorted_StronglySorted; [exact str_lt_trans|].
  induction l as [|x r IH]; simpl; [constructor|].
  apply insert_sorted_Sorted, IH.
Qed.

(** Two increasing lists with the same members are the same list. *)
Lemma StronglySorted_unique l l' :
  StronglySorted str_lt l -> StronglySorted str_lt l' ->
  (forall x, In x l <-> In x l') -> l = l'.
Proof.
  revert l'. induction l as [|x r IH]; intros [|y r'] Hl Hl' Hin.
  - reflexivity.
  - exfalso. apply (proj2 (Hin y)). now left.
  - exfalso. apply (proj1 (Hin x)). now left.
  - inversion Hl as [|? ? Hr Hx]; subst. inversion Hl' as [|? ? Hr' Hy]; subst.
    rewrite Forall_forall in Hx, Hy.
    assert (x = y).
    { destruct (proj1 (Hin x) (or_introl eq_refl)) as [->|Hxr']; [reflexivity|].
      destruct (proj2 (Hin y) (or_introl eq_refl)) as [->|Hyr]; [reflexivity|].
      exfalso. apply (str_lt_irrefl x).
      exact (str_lt_trans _ _ _ (Hx _ Hyr) (Hy _ Hxr')). }
    subst y. f_equal. apply IH; try assumption.
    intros z. split; intros Hz.
    + destruct (proj1 (Hin z) (or_intror Hz)) as [<-|H']; [|exact H'].
      exfalso. exact (str_lt_irrefl _ (Hx _ Hz)).
    + destruct (proj2 (Hin z) (or_intror Hz)) as [<-|H']; [|exact H'].
      exfalso. exact (str_lt_irrefl _ (Hy _ Hz)).
Qed.

Lemma sorted_set_ext l l' :
  (forall x, In x l <-> In x l') -> sorted_set l = sorted_set l'.
Proof.
  intros Hin. apply StronglySorted_unique; try apply sorted_set_StronglySorted.
  intros x. now rewrite !sorted_set_In.
Qed.

(** *** What [iter_md_files] returns *)

Lemma node_induction (P : node -> Prop) :
  P File -> P Opaque ->
  (forall entries, Forall (fun e => P (snd e)) entries -> P (Dir entries)) ->
  forall n, P n.
Proof.
  intros HF HO HD. fix IH 1. intros [|entries|]; [exact HF | | exact HO].
  apply HD. induction entries as [|[name sub] r IHr]; constructor;
    [apply IH | exact IHr].
Qed.

Lemma select_files_In H ign root files f :
  In f (select_files H ign root files)
  <-> exists name, In name files /\ f = path_join root name
                   /\ is_ignored H f ign = false /\ is_markdown_file H f = true.
Proof.
  unfold select_files. rewrite in_flat_map. split.
  - intros (name & Hname & Hf). exists name.
    destruct (is_ignored H (path_join root name) ign) eqn:Ei; [destruct Hf|].
    destruct (is_markdown_file H (path_join root name)) eqn:Em; [|destruct Hf].
    destruct Hf as [<-|[]]. auto.
  - intros (name & Hname & -> & Hi & Hm). exists name. rewrite Hi, Hm.
    split; [exact Hname | now left].
Qed.

Lemma in_flat_map_flat_map {A B C} (g : B -> list C) (h : A -> list B) l y :
  In y (flat_map g (flat_map h l)) <-> exists x, In x l /\ In y (flat_map g (h x)).
Proof.
  rewrite in_flat_map. split.
  - intros (t & Ht & Hy). apply in_flat_map in Ht as (x & Hx & Ht).
    exists x. split; [exact Hx|]. apply in_flat_map. eauto.
  - intros (x & Hx & Hy). apply in_flat_map in Hy as (t & Ht & Hy).
    exists t. split; [|exact Hy]. apply in_flat_map. eauto.
Qed.

(** The files the loop takes from the walk of a directory: the entries that
    are no directories, below chains of directories none of which is
    hidden. *)
Lemma walk_select H ign n : forall top f,
  In f (flat_map (fun '(root, _, files) => select_files H ign root files)
          (walk (fun d => negb (hidden d)) top n))
  <-> exists ds name,
        file_below ds n name
        /\ Forall (fun d => hidden d = false) ds
        /\ f = fold_left path_join (ds ++ [name]) top
        /\ is_ignored H f ign = false /\ is_markdown_file H f = true.
Proof.
  induction n as [| |entries IH] using node_induction; intros top f.
  - simpl. split; [intros [] | intros (ds & name & Hb & _)]. now destruct ds.
  - simpl. split; [intros [] | intros (ds & name & Hb & _)]. now destruct ds.
  - cbn [walk flat_map]. rewrite in_app_iff, select_files_In.
    rewrite in_flat_map_flat_map. rewrite Forall_forall in IH. split.
    + intros [(name & Hname & -> & Hi & Hm)|((d, sub) & He & Hf)].
      * exists [], name. apply in_map_iff in Hname as ((name', sub) & <- & Hsub).
        apply filter_In in Hsub as [Hsub Hnd]. cbn [fst snd] in *.
        split; [exists sub; split; [exact Hsub | now apply negb_true_iff]|].
        split; [constructor|]. auto.
      * cbn [fst snd] in Hf.
        destruct (is_dir sub && negb (hidden d)) eqn:Ec; [|destruct Hf].
        apply andb_prop in Ec as [Hd Hh]. apply negb_true_iff in Hh.
        apply (IH _ He) in Hf as (ds & name & Hb & Hds & -> & Hi & Hm).
        exists (d :: ds), name.
        split; [exists sub; auto|]. split; [now constructor|]. auto.
    + intros ([|d ds] & name & Hb & Hds & -> & Hi & Hm).
      * left. destruct Hb as (sub & Hsub & Hnd). exists name.
        split; [|auto]. apply in_map_iff. exists (name, sub).
        split; [reflexivity|]. apply filter_In. split; [exact Hsub|].
        cbn [snd]. now rewrite Hnd.
      * right. destruct Hb as (sub & Hsub & Hd & Hb). exists (d, sub).
        split; [exact Hsub|]. cbn [fst snd].
        inversion Hds as [|? ? Hh Hds']; subst. rewrite Hd, Hh. cbn [negb andb].
        apply (IH _ Hsub). exists ds, name. auto.
Qed.

Lemma file_below_Dir ds n name : file_below ds n name -> is_dir n = true.
Proof. destruct n, ds; simpl; try tauto; reflexivity. Qed.

(** X22: what [iter_md_files] selects.  A path is returned exactly when it
    has a markdown extension, no ignore pattern matches it, and either it
    is an argument that is no directory (whether it exists or not), or it
    is an entry that is no directory, joined to a directory argument
    through directories none of which has a name starting with a dot.  The
    argument itself may be hidden, and so may the file. *)
Theorem iter_md_files_selects H paths ignore_patterns f :
  In f (iter_md_files H paths ignore_patterns)
  <-> is_ignored H f ignore_patterns = false
      /\ is_markdown_file H f = true
      /\ exists p,
           In p paths
           /\ ((isdir H p = false /\ f = p)
               \/ exists n ds name,
                    at_path H p = Some n /\ file_below ds n name
                    /\ Forall (fun d => hidden d = false) ds
                    /\ f = fold_left path_join (ds ++ [name]) p).
Proof.
  unfold iter_md_files. rewrite sorted_set_In, in_flat_map. split.
  - intros (p & Hp & Hf). destruct (isdir H p) eqn:Ed.
    + destruct (at_path H p) as [n|] eqn:En; [|destruct Hf].
      apply walk_select in Hf as (ds & name & Hb & Hds & -> & Hi & Hm).
      split; [exact Hi|]. split; [exact Hm|]. exists p. split; [exact Hp|].
      right. exists n, ds, name. auto.
    + destruct (is_ignored H p ignore_patterns) eqn:Ei; [destruct Hf|].
      destruct (is_markdown_file H p) eqn:Em; [|destruct Hf].
      destruct Hf as [<-|[]]. split; [exact Ei|]. split; [exact Em|].
      exists p. auto.
  - intros (Hi & Hm & p & Hp & [[Hd ->]|(n & ds & name & Hn & Hb & Hds & ->)]).
    + exists p. split; [exact Hp|]. rewrite Hd, Hi, Hm. now left.
    + exists p. split; [exact Hp|].
      unfold isdir. rewrite Hn, (file_below_Dir _ _ _ Hb).
      apply walk_select. exists ds, name. auto.
Qed.

(** X23: the result of [iter_md_files] is in increasing order of code
    points and holds no path twice; and it depends on the path arguments as
    a set: neither the order in which the paths are given nor naming one
    twice (or naming both a directory and a file in it) changes it. *)
Theorem iter_md_files_sorted H paths ignore_patterns :
  StronglySorted str_lt (iter_md_files H paths ignore_patterns)
  /\ NoDup (iter_md_files H paths ignore_patterns)
  /\ forall paths',
       (forall p, In p paths <-> In p paths') ->
       iter_md_files H paths' ignore_patterns = iter_md_files H paths ignore_patterns.
Proof.
  assert (Hs : StronglySorted str_lt (iter_md_files H paths ignore_patterns))
    by apply sorted_set_StronglySorted.
  split; [exact Hs|]. split.
  - induction Hs as [|x l Hl IH Hx]; constructor; [|exact IH].
    intros Hin. rewrite Forall_forall in Hx. exact (str_lt_irrefl _ (Hx _ Hin)).
  - intros paths' Hsame. unfold iter_md_files. apply sorted_set_ext.
    intros f. rewrite !in_flat_map.
    split; intros (p & Hp & Hf); exists p; (split; [now apply Hsame | exact Hf]).
Qed.

Lemma iter_md_files_sorted_witness :
  iter_md_files example_host [lit "x.md"; lit "docs"; lit "x.md"] []
  = iter_md_files example_host [lit "docs"; lit "x.md"] []
  /\ iter_md_files example_host [lit "docs"; lit "x.md"] []
     = [lit "docs/.hidden.md"; lit "docs/a.md"; lit "docs/b.md";
        lit "docs/sub/a.MD"; lit "x.md"].
Proof.
  split; [|reflexivity].
  apply (proj2 (proj2 (iter_md_files_sorted example_host [lit "docs"; lit "x.md"] []))
           [lit "x.md"; lit "docs"; lit "x.md"]).
  intros p. simpl. tauto.
Defined.

(** *** [get_md_files] *)

Lemma is_markdown_file_path_join H root name :
  forallb (notchr SLASH) name = true ->
  is_markdown_file H (path_join root name) = is_markdown_file H name.
Proof.
  intros Hn. rewrite (is_markdown_file_basename H (path_join root name)).
  now rewrite basename_path_join.
Qed.

(** X25: on a directory that holds no directory, [get_md_files] and
    [iter_md_files] (with no ignore pattern) find the same files:
    [iter_md_files] returns the paths of [get_md_files], sorted.  (The test
    of the extension is made on the name by the one and on the joined path
    by the other; entry names hold no slash.) *)
Theorem get_md_files_flat H path entries :
  at_path H path = Some (Dir entries) ->
  Forall (fun e => is_dir (snd e) = false
                   /\ forallb (notchr SLASH) (fst e) = true) entries ->
  exists l,
    get_md_files H path = Some l
    /\ iter_md_files H [path] [] = sorted_set l.
Proof.
  intros Hat Hflat. unfold get_md_files, iter_md_files, isdir.
  cbn [flat_map]. rewrite Hat. cbn [is_dir]. eexists. split; [reflexivity|].
  apply sorted_set_ext. intros f. rewrite app_nil_r, walk_select.
  rewrite Forall_forall in Hflat. rewrite in_map_iff. split.
  - intros ([|d ds] & name & Hb & _ & -> & _ & Hm).
    + destruct Hb as (sub & Hsub & _). exists name. split; [reflexivity|].
      destruct (Hflat _ Hsub) as [_ Hname]. cbn [fst] in Hname.
      cbn [app fold_left] in Hm. rewrite is_markdown_file_path_join in Hm by exact Hname.
      apply filter_In. split; [|exact Hm].
      apply in_map_iff. exists (name, sub). auto.
    + exfalso. destruct Hb as (sub & Hsub & Hd & _).
      destruct (Hflat _ Hsub) as [Hnd _]. cbn [snd] in Hnd. congruence.
  - intros (name & <- & Hname). apply filter_In in Hname as [Hname Hm].
    apply in_map_iff in Hname as ((name', sub) & <- & Hsub). cbn [fst] in *.
    destruct (Hflat _ Hsub) as [Hnd Hns]. cbn [fst snd] in *.
    exists [], name'. split; [exists sub; auto|]. split; [constructor|].
    split; [reflexivity|]. split; [reflexivity|].
    cbn [app fold_left]. now rewrite is_markdown_file_path_join.
Qed.

Lemma get_md_files_flat_witness :
  exists l,
    get_md_files example_host (lit "docs/sub") = Some l
    /\ iter_md_files example_host [lit "docs/sub"] [] = sorted_set l.
Proof.
  apply (get_md_files_flat example_host (lit "docs/sub")
           [(lit "a.MD", File); (lit "c.txt", File)]).
  - reflexivity.
  - repeat constructor.
Defined.

(** ** The probe of the links *)

Lemma probe_In R N path i lm out x :
  Http.probe R N path i lm = Ok out -> In x out ->
  exists p,
    urlparse R (lm_url lm) = Ok p
    /\ (scheme p = lit "http" \/ scheme p = lit "https")
    /\ netloc p <> []
    /\ Issue.file x = path /\ Issue.line x = Z.of_nat i
    /\ Issue.col x = (Z.of_nat (lm_start lm) + 1)%Z
    /\ Issue.context x = lm_url lm
    /\ ((Issue.code x = "W-LINK"%string
         /\ exists status reason,
              (400 <= status)%Z /\ Issue.message x = link_message status reason)
        \/ (Issue.code x = "W-LINKERR"%string
            /\ exists e, Issue.message x = linkerr_message e)).
Proof.
  unfold Http.probe. intros H Hx. inv_bind H. rename a into p.
  destruct (str_eqb (scheme p) (lit "http") || str_eqb (scheme p) (lit "https"))
    eqn:Es; cbn [negb] in H; [|injection H as <-; destruct Hx].
  destruct (netloc p) as [|h host] eqn:Eh; [injection H as <-; destruct Hx|].
  destruct (path_and_query (lm_url lm)) as [pth query].
  injection H as <-.
  exists p. split; [exact Ha|].
  split.
  { apply orb_prop in Es as [Es|Es]; apply str_eqb_eq in Es; auto. }
  split; [rewrite Eh; discriminate|].
  assert (Hanswer : forall status reason,
            In x (if (status >=? 400)%Z
                  then [issue path (Z.of_nat i) (Z.of_nat (lm_start lm) + 1) "W-LINK"
                          (link_message status reason) (lm_url lm)]
                  else []) ->
            Issue.file x = path /\ Issue.line x = Z.of_nat i
            /\ Issue.col x = (Z.of_nat (lm_start lm) + 1)%Z
            /\ Issue.context x = lm_url lm
            /\ ((Issue.code x = "W-LINK"%string
                 /\ exists status reason,
                      (400 <= status)%Z
                      /\ Issue.message x = link_message status reason)
                \/ (Issue.code x = "W-LINKERR"%string
                    /\ exists e, Issue.message x = linkerr_message e))).
  { intros status reason Hin.
    destruct (Z.geb_spec status 400) as [Hge|Hlt]; [|destruct Hin].
    destruct Hin as [<-|[]]. cbn. repeat split. left. split; [reflexivity|].
    exists status, reason. split; [lia | reflexivity]. }
  assert (Hfailure : forall e,
            In x [issue path (Z.of_nat i) (Z.of_nat (lm_start lm) + 1) "W-LINKERR"
                    (linkerr_message e) (lm_url lm)] ->
            Issue.file x = path /\ Issue.line x = Z.of_nat i
            /\ Issue.col x = (Z.of_nat (lm_start lm) + 1)%Z
            /\ Issue.context x = lm_url lm
            /\ ((Issue.code x = "W-LINK"%string
                 /\ exists status reason,
                      (400 <= status)%Z
                      /\ Issue.message x = link_message status reason)
                \/ (Issue.code x = "W-LINKERR"%string
                    /\ exists e, Issue.message x = linkerr_message e))).
  { intros e [<-|[]]. cbn. repeat split. right. split; [reflexivity|].
    exists e. reflexivity. }
  destruct (N i (lm_start lm) (scheme p) (h :: host) _) as [st rs|st rs e|e].
  - exact (Hanswer _ _ Hx).
  - apply in_app_or in Hx as [Hx|Hx]; [exact (Hanswer _ _ Hx) | exact (Hfailure _ Hx)].
  - exact (Hfailure _ Hx).
Qed.

Lemma probe_lines_In R N path lines : forall i out x,
  Http.probe_lines R N path i lines = Ok out -> In x out ->
  exists k line lm o,
    nth_error lines k = Some line /\ In lm (LINK_PAT_finditer line)
    /\ Http.probe R N path (i + k) lm = Ok o /\ In x o.
Proof.
  induction lines as [|l r IH]; simpl; intros i out x H Hx.
  - injection H as <-. destruct Hx.
  - inv_bind H. inv_bind H. injection H as <-.
    apply in_app_or in Hx as [Hx|Hx].
    + destruct (for_each_In _ _ _ _ Ha Hx) as (lm & o & Hlm & Ho & Hxo).
      exists 0, l, lm, o. rewrite Nat.add_0_r. auto.
    + destruct (IH _ _ _ Ha0 Hx) as (k & line & lm & o & Hk & Hlm & Ho & Hxo).
      exists (S k), line, lm, o. rewrite Nat.add_succ_r. auto.
Qed.



(** X26: what the probe reports.  Every issue of [check_http_links] comes
    from a match of the link pattern on the line it names, at the column of
    the match, whose target [urlparse] gives the scheme http or https and a
    host; its context is the whole target; it is W-LINK with a status of
    400 or more, or W-LINKERR.  Targets of other schemes (mailto, relative
    links) and targets without host are not requested. *)
Theorem probe_issues_sound R N path lines out x :
  Http.check_http_links R N path lines = Ok out -> In x out ->
  exists k line lm p,
    nth_error lines k = Some line /\ In lm (LINK_PAT_finditer line)
    /\ urlparse R (lm_url lm) = Ok p
    /\ (scheme p = lit "http" \/ scheme p = lit "https")
    /\ netloc p <> []
    /\ Issue.file x = path /\ Issue.line x = Z.of_nat (S k)
    /\ Issue.col x = (Z.of_nat (lm_start lm) + 1)%Z
    /\ Issue.context x = lm_url lm
    /\ ((Issue.code x = "W-LINK"%string
         /\ exists status reason,
              (400 <= status)%Z /\ Issue.message x = link_message status reason)
        \/ (Issue.code x = "W-LINKERR"%string
            /\ exists e, Issue.message x = linkerr_message e)).
Proof.
  unfold Http.check_http_links. intros H Hx.
  destruct (probe_lines_In _ _ _ _ _ _ _ H Hx) as (k & line & lm & o & Hk & Hlm & Ho & Hxo).
  destruct (probe_In _ _ _ _ _ _ _ Ho Hxo) as (p & Hp & Hs & Hn & Hrest).
  exists k, line, lm, p. repeat (split; [assumption|]). exact Hrest.
Qed.

Lemma probe_issues_sound_witness :
  let lines := [lit "x"; lit "[a](http://h/missing) [b](mailto:c@d) [e](/f)"] in
  let x := issue (lit "a.md") 2 1 "W-LINK" (link_message 404 (lit "Not Found"))
             (lit "http://h/missing") in
  Http.check_http_links plain_runtime example_network (lit "a.md") lines = Ok [x]
  /\ exists k line lm p,
       nth_error lines k = Some line /\ In lm (LINK_PAT_finditer line)
       /\ urlparse plain_runtime (lm_url lm) = Ok p
       /\ (scheme p = lit "http" \/ scheme p = lit "https")
       /\ netloc p <> []
       /\ Issue.file x = lit "a.md" /\ Issue.line x = Z.of_nat (S k)
       /\ Issue.col x = (Z.of_nat (lm_start lm) + 1)%Z
       /\ Issue.context x = lm_url lm
       /\ ((Issue.code x = "W-LINK"%string
            /\ exists status reason,
                 (400 <= status)%Z
                 /\ Issue.message x = link_message status reason)
           \/ (Issue.code x = "W-LINKERR"%string
               /\ exists e, Issue.message x = linkerr_message e)).
Proof.
  split; [vm_compute; reflexivity|].
  apply (probe_issues_sound plain_runtime example_network (lit "a.md")
           [lit "x"; lit "[a](http://h/missing) [b](mailto:c@d) [e](/f)"]
           [issue (lit "a.md") 2 1 "W-LINK" (link_message 404 (lit "Not Found"))
              (lit "http://h/missing")]
           (issue (lit "a.md") 2 1 "W-LINK" (link_message 404 (lit "Not Found"))
              (lit "http://h/missing"))).
  - vm_compute. reflexivity.
  - left. reflexivity.
Defined.

Lemma scan_text_with_network R N path raw max_len :
  scan_text (with_network R N) path raw max_len = scan_text R path raw max_len.
Proof. reflexivity. Qed.



Lemma probe_quiet R N path i lm out :
  (forall i s sch host target,
     exists status reason,
       N i s sch host target = Answered status reason /\ (status < 400)%Z) ->
  Http.probe R N path i lm = Ok out -> out = [].
Proof.
  unfold Http.probe. intros Hq H. inv_bind H.
  destruct (negb _); [now injection H as <-|].
  destruct (netloc a) as [|h host]; [now injection H as <-|].
  destruct (path_and_query (lm_url lm)) as [pth query].
  injection H as <-.
  match goal with
  | |- context [N ?a ?b ?c ?d ?t] =>
      destruct (Hq a b c d t) as (status & reason & -> & Hlt)
  end.
  destruct (Z.geb_spec status 400); [lia | reflexivity].
Qed.

Lemma for_each_nil {A B} (f : A -> result (list B)) xs out :
  (forall x o, f x = Ok o -> o = []) -> for_each f xs = Ok out -> out = [].
Proof.
  intros Hf. revert out. induction xs as [|x r IH]; simpl; intros out H.
  - now injection H as <-.
  - inv_bind H. inv_bind H. injection H as <-.
    rewrite (Hf _ _ Ha), (IH _ Ha0). reflexivity.
Qed.

(** X28: when the network answers every request with a status below 400,
    switching the probe on changes nothing in the issues [check_file]
    returns. *)
Theorem quiet_network_adds_nothing R N path raw max_len issues :
  (forall i s sch host target,
     exists status reason,
       N i s sch host target = Answered status reason /\ (status < 400)%Z) ->
  check_file (with_network R N) path (Text raw) max_len true = Ok issues ->
  check_file R path (Text raw) max_len false = Ok issues.
Proof.
  intros Hq H. unfold check_file in *. rewrite scan_text_with_network in H.
  inv_bind H. inv_bind H. injection H as <-.
  assert (a0 = []) as ->.
  { cbn [check_http_links with_network] in Ha0.
    unfold Http.check_http_links in Ha0. revert Ha0. generalize 1.
    generalize (splitlines raw). intros lines. revert a0.
    induction lines as [|l r IH]; simpl; intros out i H.
    - now injection H as <-.
    - inv_bind H. inv_bind H. injection H as <-.
      rewrite (IH _ _ Ha1).
      rewrite (for_each_nil _ _ _ (fun lm o => probe_quiet R N path i lm o Hq) Ha0).
      reflexivity. }
  rewrite Ha, app_nil_r. reflexivity.
Qed.

Lemma quiet_network_adds_nothing_witness :
  let raw := text_of ["[a](http://h/x) "]%string in
  let issues :=
    [issue (lit "a.md") 1 16 "W-TRAIL" trail_message (lit "[a](http://h/x) ")] in
  check_file (with_network plain_runtime (fun _ _ _ _ _ => Answered 200 (lit "OK")))
    (lit "a.md") (Text raw) 120 true = Ok issues
  /\ check_file plain_runtime (lit "a.md") (Text raw) 120 false = Ok issues.
Proof.
  split; [reflexivity|].
  apply (quiet_network_adds_nothing plain_runtime
           (fun _ _ _ _ _ => Answered 200 (lit "OK")) (lit "a.md")
           (text_of ["[a](http://h/x) "]%string) 120).
  - intros. exists 200%Z, (lit "OK"). split; [reflexivity | lia].
  - reflexivity.
Defined.

(** ** The command *)

Lemma for_each_Ok_inv {A B} (f : A -> result (list B)) xs out :
  for_each f xs = Ok out ->
  Forall (fun x => exists o, f x = Ok o) xs
  /\ (out = [] <-> Forall (fun x => f x = Ok []) xs).
Proof.
  revert out. induction xs as [|x r IH]; simpl; intros out H.
  - injection H as <-. split; [constructor|]. split; [constructor | reflexivity].
  - inv_bind H. inv_bind H. injection H as <-.
    destruct (IH _ Ha0) as [Hall Hnil].
    split; [constructor; [eauto | exact Hall]|]. split.
    + intros E. apply app_eq_nil in E as [-> ->].
      constructor; [exact Ha | now apply Hnil].
    + intros Hf. inversion Hf as [|? ? Hx Hr]; subst.
      rewrite Ha in Hx. injection Hx as ->. now rewrite (proj2 Hnil Hr).
Qed.

(** X29: how a run ends.  [main] returns when [check_file] returns for
    every file [iter_md_files] selects, and then the exit status is 0 when
    none of them has an issue and 1 otherwise; when [check_file] raises for
    a selected file, the exception leaves [main] and nothing is printed, of
    that file or of any other. *)
Theorem main_outcome H R json_dumps args :
  let files := iter_md_files H (arg_paths args) (arg_ignore args) in
  let check f := check_file R f (read_text H f) (arg_max_line_length args)
                   (arg_check_links args) in
  match main H R json_dumps args with
  | Ok (out, status) =>
      Forall (fun f => exists issues, check f = Ok issues) files
      /\ (status = 0%Z \/ status = 1%Z)
      /\ (status = 0%Z <-> Forall (fun f => check f = Ok []) files)
  | Raise e => exists f, In f files /\ check f = Raise e
  end.
Proof.
  intros files check. unfold main, collect. fold files. fold check.
  destruct (for_each check files) as [all_issues|e] eqn:E; simpl.
  - destruct (for_each_Ok_inv _ _ _ E) as [Hall Hnil].
    split; [exact Hall|]. destruct all_issues as [|x r].
    + split; [now left|]. split; [intros _; now apply Hnil | reflexivity].
    + split; [now right|]. split; [discriminate|].
      intros Hf. apply Hnil in Hf. discriminate Hf.
  - exact (for_each_Raise _ _ _ E).
Qed.

(** ** Tabs in the indentation of a list item *)

Lemma LIST_MARKER_PAT_indent line indent :
  LIST_MARKER_PAT line = Some indent -> indent = takeWhile isspace line.
Proof.
  unfold LIST_MARKER_PAT, span. destruct (_ || _); [|discriminate].
  now intros [= <-].
Qed.

(** X30: W-LISTTAB is reported for a line exactly when the line reaches the
    checks, reads as a list item (white space, then a bullet or digits and a
    dot, then white space) and has a tab in that leading white space; and a
    line reported for W-LISTTAB is reported for W-TAB too. *)
Theorem list_tab_reported R path raw max_len issues k line :
  check_file R path (Text raw) max_len false = Ok issues ->
  nth_error (splitlines raw) k = Some line ->
  reported "W-LISTTAB" (S k) issues
  = (if checked (state_before (splitlines raw) k) line
        && match LIST_MARKER_PAT line with
           | Some indent => contains TAB indent
           | None => false
           end
     then [issue path (Z.of_nat (S k)) 1 "W-LISTTAB" listtab_message
             (slice_to line 80)]
     else [])
  /\ (reported "W-LISTTAB" (S k) issues <> [] ->
      reported "W-TAB" (S k) issues <> []).
Proof.
  intros H Hk.
  destruct (check_file_reported R path raw max_len issues "W-LISTTAB" k line H Hk)
    as (st' & o & Hstep & ->); [not_in_codes|].
  destruct (check_file_reported R path raw max_len issues "W-TAB" k line H Hk)
    as (st2 & o2 & Hstep2 & ->); [not_in_codes|].
  rewrite Hstep in Hstep2. injection Hstep2 as <- <-.
  unfold checked.
  apply scan_line_inv in Hstep as [[-> ->]|[(-> & -> & ->)|(-> & -> & Hc)]].
  - split; [reflexivity | intros []; reflexivity].
  - assert (E : filter (has_code "W-LISTTAB")
                  (trailing_space path (S k) line trail_in_fence_message) = []).
    { eapply from_line_other; [apply trailing_space_from | not_in_codes]. }
    rewrite E. split; [reflexivity | intros []; reflexivity].
  - checked_components Hc.
    assert (Hlist : filter (has_code "W-LISTTAB")
                      (trailing_space path (S k) line trail_message ++ mb
                       ++ line_length path max_len (S k) line ++ tabs
                       ++ fst (fst (heading path (S k) line
                                      (last_heading_level
                                         (state_before (splitlines raw) k))
                                      (seen_h1 (state_before (splitlines raw) k))))
                       ++ links ++ tables ++ list_indent path (S k) line)
                    = list_indent path (S k) line).
    { keep_component "W-LISTTAB"%string. reflexivity. }
    assert (Htabs : filter (has_code "W-TAB")
                      (trailing_space path (S k) line trail_message ++ mb
                       ++ line_length path max_len (S k) line ++ tabs
                       ++ fst (fst (heading path (S k) line
                                      (last_heading_level
                                         (state_before (splitlines raw) k))
                                      (seen_h1 (state_before (splitlines raw) k))))
                       ++ links ++ tables ++ list_indent path (S k) line)
                    = tabs).
    { keep_component "W-TAB"%string. reflexivity. }
    rewrite Hlist, Htabs. cbn [negb andb]. unfold list_indent.
    destruct (LIST_MARKER_PAT line) as [indent|] eqn:El;
      [|split; [reflexivity | intros []; reflexivity]].
    destruct (contains TAB indent) eqn:Ec;
      [|split; [reflexivity | intros []; reflexivity]].
    split; [reflexivity|]. intros _.
    assert (Hline : contains TAB line = true).
    { apply LIST_MARKER_PAT_indent in El. subst indent.
      unfold contains in *. apply existsb_exists in Ec as (x & Hx & Hxt).
      apply existsb_exists. exists x. split; [|exact Hxt].
      exact (takeWhile_incl _ _ _ Hx). }
    unfold tab_use in Htab. rewrite Hline in Htab.
    destruct (str_find_contains _ _ Hline) as [j Hj].
    unfold str_index in Htab. rewrite Hj in Htab. cbn [bind] in Htab.
    injection Htab as <-. discriminate.
Qed.

Lemma list_tab_reported_witness :
  let line := [TAB] ++ lit "- a" in
  let raw := line ++ [LF] in
  let issues :=
    [issue (lit "a.md") 1 1 "W-TAB" tab_message (lit "\t- a");
     issue (lit "a.md") 1 1 "W-LISTTAB" listtab_message line] in
  check_file plain_runtime (lit "a.md") (Text raw) 120 false = Ok issues
  /\ reported "W-LISTTAB" 1 issues
     = [issue (lit "a.md") 1 1 "W-LISTTAB" listtab_message line]
  /\ (reported "W-LISTTAB" 1 issues <> [] -> reported "W-TAB" 1 issues <> []).
Proof.
  split; [reflexivity|].
  exact (list_tab_reported plain_runtime (lit "a.md") (([TAB] ++ lit "- a") ++ [LF])
           120 _ 0 ([TAB] ++ lit "- a") eq_refl eq_refl).
Defined.

(** ** Line ends of the text read *)

Lemma universal_newlines_no_CR s :
  forallb (notchr CR) (universal_newlines s) = true.
Proof.
  assert (H : forall n s, length s <= n ->
                forallb (notchr CR) (universal_newlines s) = true).
  { clear s. induction n as [|n IH]; intros [|c r] Hlen; try reflexivity;
      simpl in Hlen; [lia|].
    cbn [universal_newlines]. unfold ischr at 1.
    destruct (N.eqb_spec c CR) as [->|Hc].
    - destruct r as [|d r']; [reflexivity|].
      destruct (ischr LF d); cbn [forallb]; rewrite IH; simpl in *;
        try reflexivity; lia.
    - cbn [forallb]. rewrite IH by lia. unfold notchr.
      apply N.eqb_neq in Hc. now rewrite Hc. }
  exact (H (length s) s (le_n _)).
Qed.

Lemma CRLF_PAT_no_CR raw : forallb (notchr CR) raw = true -> CRLF_PAT raw = false.
Proof.
  induction raw as [|c r IH]; [reflexivity|].
  cbn [forallb]. intros H. apply andb_prop in H as [Hc Hr].
  cbn [CRLF_PAT]. destruct r as [|d r']; [reflexivity|].
  rewrite (IH Hr). unfold notchr in Hc. apply negb_true_iff in Hc.
  unfold ischr. now rewrite Hc.
Qed.

Lemma has_code_within c lo hi out :
  within lo hi out -> ~ In c loop_codes -> filter (has_code c) out = [].
Proof.
  intros H Hn. induction H as [|x l [_ Hx] _ IH]; simpl; [reflexivity|].
  unfold has_code at 1. destruct (String.eqb_spec (Issue.code x) c) as [E|_].
  - subst c. contradiction.
  - exact IH.
Qed.

(** X2: the text read from a file opened in text mode has its line ends
    translated, so it holds no carriage return, and W-CRLF is never reported
    for it: the test of line 79 cannot succeed on what line 73 read. *)
Theorem crlf_unreported_after_translation R path s max_len issues :
  check_file R path (Text (universal_newlines s)) max_len false = Ok issues ->
  contains CR (universal_newlines s) = false
  /\ filter (has_code "W-CRLF") issues = [].
Proof.
  intros H. pose proof (universal_newlines_no_CR s) as Hcr.
  split.
  { unfold contains. destruct (existsb _ _) eqn:E; [|reflexivity].
    apply existsb_exists in E as (x & Hx & Hc).
    rewrite forallb_forall in Hcr. specialize (Hcr x Hx).
    unfold notchr, ischr in *. rewrite Hc in Hcr. discriminate Hcr. }
  apply check_file_Text in H as (st & found & tables & Hloop & Ht & ->).
  unfold crlf_check. rewrite (CRLF_PAT_no_CR _ Hcr). cbn [app].
  rewrite !filter_app.
  rewrite (has_code_within _ _ _ _ (scan_loop_within _ _ _ _ _ _ _ _ _ Hloop))
    by not_in_codes.
  rewrite (from_line_other _ _ _ "W-CRLF" Ht) by not_in_codes.
  unfold eof_newline_check, open_fence_check.
  destruct (negb _), (in_fence st); reflexivity.
Qed.

Lemma crlf_unreported_after_translation_witness :
  let s := lit "a" ++ [CR; LF] ++ lit "b " ++ [CR] in
  let issues := [issue (lit "a.md") 2 2 "W-TRAIL" trail_message (lit "b ")] in
  CRLF_PAT s = true
  /\ universal_newlines s = text_of ["a"; "b "]%string
  /\ check_file plain_runtime (lit "a.md") (Text (universal_newlines s)) 120 false
     = Ok issues
  /\ contains CR (universal_newlines s) = false
  /\ filter (has_code "W-CRLF") issues = [].
Proof.
  split; [reflexivity|]. split; [reflexivity|]. split; [reflexivity|].
  exact (crlf_unreported_after_translation plain_runtime (lit "a.md")
           (lit "a" ++ [CR; LF] ++ lit "b " ++ [CR]) 120 _ eq_refl).
Defined.

(** ** The marker and the text of a heading *)

Lemma dropWhile_nil {A} (p : A -> bool) l :
  dropWhile p l = [] <-> forallb p l = true.
Proof.
  induction l as [|x r IH]; simpl; [tauto|].
  destruct (p x); simpl; [exact IH|]. split; discriminate.
Qed.

Lemma blank_forallb s : blank s = forallb isspace s.
Proof.
  unfold blank, strip, lstrip, rstrip.
  destruct (forallb isspace s) eqn:E.
  - rewrite <- forallb_rev in E. apply dropWhile_nil in E. rewrite E. reflexivity.
  - destruct (dropWhile isspace (rev s)) as [|x r] eqn:Ed.
    + apply dropWhile_nil in Ed. rewrite forallb_rev in Ed. congruence.
    + apply dropWhile_head in Ed as Hx.
      destruct (dropWhile isspace (rev (x :: r))) as [|y t] eqn:Ed2; [|reflexivity].
      apply dropWhile_nil in Ed2. rewrite forallb_rev in Ed2. simpl in Ed2.
      rewrite Hx in Ed2. discriminate Ed2.
Qed.

Lemma forallb_dropWhile {A} (p : A -> bool) l :
  forallb p (dropWhile p l) = forallb p l.
Proof.
  induction l as [|x r IH]; simpl; [reflexivity|].
  destruct (p x) eqn:E; simpl; [exact IH | now rewrite E].
Qed.

Lemma heading_emptyhead path i line last seen hashes text :
  HEADING_PAT line = Some (hashes, text) ->
  filter (has_code "E-EMPTYHEAD") (fst (fst (heading path i line last seen))) =
  if blank text
  then [issue path (Z.of_nat i) (Z.of_nat (length hashes) + 2) "E-EMPTYHEAD"
          emptyhead_message (slice_to line 80)]
  else [].
Proof.
  intros H. unfold heading. rewrite H. cbn [fst]. rewrite !filter_app.
  rewrite (filter_if_other "E-EMPTYHEAD" "E-HEADSPACE") by discriminate.
  rewrite filter_if_same. rewrite !filter_if_other by discriminate.
  now rewrite !app_nil_r.
Qed.

Lemma HEADING_PAT_line line :
  forallb (notchr LF) line = true ->
  HEADING_PAT line
  = match firstn 6 (takeWhile (ischr HASH) line) with
    | [] => None
    | hashes =>
        Some (hashes, dropWhile isspace (skipn (length hashes) line))
    end.
Proof.
  intros Hlf. unfold HEADING_PAT.
  destruct (firstn 6 (takeWhile (ischr HASH) line)) as [|h hs]; [reflexivity|].
  rewrite dot_star_eol_no_LF; [reflexivity|].
  eapply forallb_incl; [|exact Hlf].
  eapply incl_tran; [apply dropWhile_incl | apply skipn_incl].
Qed.

(** X24: the two checks of the form of a heading.  For a line that reaches
    the checks and begins with '#', the marker being its first hashes, six
    at most: E-HEADSPACE is reported exactly when the marker is not followed
    by a space (the line ends there, or a tab, a seventh '#' or the text
    follows), at the column after the marker; E-EMPTYHEAD is reported
    exactly when only white space follows the marker, one column further.
    No other line gets either. *)
Theorem heading_form_reported R path raw max_len issues k line :
  check_file R path (Text raw) max_len false = Ok issues ->
  nth_error (splitlines raw) k = Some line ->
  let hashes := firstn 6 (takeWhile (ischr HASH) line) in
  let is_heading :=
    checked (state_before (splitlines raw) k) line && negb (length hashes =? 0) in
  reported "E-HEADSPACE" (S k) issues
  = (if is_heading && negb (startswith (hashes ++ [SPACE]) line)
     then [issue path (Z.of_nat (S k)) (Z.of_nat (length hashes) + 1) "E-HEADSPACE"
             headspace_message (slice_to line 80)]
     else [])
  /\ reported "E-EMPTYHEAD" (S k) issues
     = (if is_heading && forallb isspace (skipn (length hashes) line)
        then [issue path (Z.of_nat (S k)) (Z.of_nat (length hashes) + 2)
                "E-EMPTYHEAD" emptyhead_message (slice_to line 80)]
        else []).
Proof.
  intros H Hk hashes is_heading.
  pose proof (HEADING_PAT_line line (splitlines_line_no_LF raw k line Hk)) as Eh.
  fold hashes in Eh. subst is_heading.
  destruct (check_file_reported R path raw max_len issues "E-HEADSPACE" k _ H Hk)
    as (st' & o & Hstep & ->); [not_in_codes|].
  destruct (check_file_reported R path raw max_len issues "E-EMPTYHEAD" k _ H Hk)
    as (st2 & o2 & Hstep2 & ->); [not_in_codes|].
  rewrite Hstep in Hstep2. injection Hstep2 as <- <-.
  rewrite (scan_line_heading _ _ _ _ _ _ _ _ _ "E-HEADSPACE" Hstep) by (simpl; tauto).
  rewrite (scan_line_heading _ _ _ _ _ _ _ _ _ "E-EMPTYHEAD" Hstep) by (simpl; tauto).
  destruct (checked (state_before (splitlines raw) k) line); [|split; reflexivity].
  cbn [andb]. destruct hashes as [|h hs] eqn:Ehashes.
  - rewrite !heading_none by exact Eh. split; reflexivity.
  - rewrite (heading_headspace _ _ _ _ _ _ _ Eh), (heading_emptyhead _ _ _ _ _ _ _ Eh).
    rewrite blank_forallb, forallb_dropWhile. split; reflexivity.
Qed.

Lemma heading_form_reported_witness :
  let raw := text_of ["#a"; "##"; "text"]%string in
  let issues :=
    [issue (lit "a.md") 1 2 "E-HEADSPACE" headspace_message (lit "#a");
     issue (lit "a.md") 2 3 "E-HEADSPACE" headspace_message (lit "##");
     issue (lit "a.md") 2 4 "E-EMPTYHEAD" emptyhead_message (lit "##")] in
  check_file plain_runtime (lit "a.md") (Text raw) 120 false = Ok issues
  /\ reported "E-HEADSPACE" 2 issues
     = [issue (lit "a.md") 2 3 "E-HEADSPACE" headspace_message (lit "##")]
  /\ reported "E-EMPTYHEAD" 2 issues
     = [issue (lit "a.md") 2 4 "E-EMPTYHEAD" emptyhead_message (lit "##")].
Proof.
  split; [reflexivity|].
  exact (heading_form_reported plain_runtime (lit "a.md")
           (text_of ["#a"; "##"; "text"]%string) 120 _ 1 (lit "##")
           eq_refl eq_refl).
Defined.
